(** * Notelytic: the note dashboard's storage layer and derived views

    A shallow embedding of the dashboard component.  The repository holds
    it in two revisions, [src/components/app-page.tsx] and the unnamed
    source part; the functions modelled here read the same in both, up to
    type annotations and one blank in a toast text.

    Conventions of the embedding.
    - A JavaScript string is a [string]: the UTF-8 bytes of a well-formed
      string (one without lone surrogates).  The literals of the source are
      kept byte for byte.  [trim] removes the white space and line
      terminators of ECMA-262, ASCII or not.
    - What the engine decides is taken from a [Platform]: the case mapping
      of [toLowerCase], the collation of [localeCompare], the algorithm of
      [Array.prototype.sort], and what [Date.parse] makes of a string that
      is not in the format of [toISOString].  A [Platform] gives these
      functions together with what ECMA-262 requires of them; the
      statements hold on every platform.
    - A [Date] is its time value: a number of milliseconds, or NaN for an
      "Invalid Date".
    - The IndexedDB database [NotelyticsDB] is a pair of object stores with
      in-line keys ([keyPath] 'id' and 'name'), each a finite map from key to
      record.  A [put] of a record with a key succeeds; one of a value
      without a key throws, which a backup file can bring about.
    - A component function is a state transformer over [State]: the React
      state it reads and sets, the database, and the toasts shown so far.
      Each call runs to completion before the next one starts, so the
      [notes] a callback closes over are the current ones. *)

From Stdlib Require Import ZArith Lia Ascii String.
From stdpp Require Import base option list gmap strings pretty sorting.

(** ** JavaScript strings *)

Module JsString.

(** [String.prototype.startsWith] *)
Fixpoint startsWith (s p : string) {struct p} : bool :=
  match p, s with
  | EmptyString, _ => true
  | String _ _, EmptyString => false
  | String a p', String b s' => Ascii.eqb a b && startsWith s' p'
  end.

(** [String.prototype.includes]: [sub] occurs in [s] at some position. *)
Fixpoint includes (s sub : string) : bool :=
  startsWith s sub ||
  match s with
  | EmptyString => false
  | String _ s' => includes s' sub
  end.

(** White space, as [trim] understands it: the WhiteSpace and
    LineTerminator code points of ECMA-262, by their UTF-8 bytes.
    One byte: U+0009 to U+000D and U+0020.  Two bytes: U+00A0.  Three
    bytes: U+1680, U+2000 to U+200A, U+2028, U+2029, U+202F, U+205F,
    U+3000 and U+FEFF. *)
Definition isWhiteSpace1 (a : nat) : bool :=
  bool_decide (a ∈ [9; 10; 11; 12; 13; 32]%nat).

Definition isWhiteSpace2 (a b : nat) : bool :=
  (a =? 194)%nat && (b =? 160)%nat.

Definition isWhiteSpace3 (a b c : nat) : bool :=
  (a =? 225)%nat && (b =? 154)%nat && (c =? 128)%nat
  || (a =? 226)%nat && (b =? 128)%nat
     && ((128 <=? c)%nat && (c <=? 138)%nat || bool_decide (c ∈ [168; 169; 175]%nat))
  || (a =? 226)%nat && (b =? 129)%nat && (c =? 159)%nat
  || (a =? 227)%nat && (b =? 128)%nat && (c =? 128)%nat
  || (a =? 239)%nat && (b =? 187)%nat && (c =? 191)%nat.

(** The number of bytes of the white-space code point [l] begins with, 0
    when it begins with none. *)
Definition whiteSpaceAtStart (l : list ascii) : nat :=
  match l with
  | a :: l1 =>
      if isWhiteSpace1 (nat_of_ascii a) then 1
      else match l1 with
           | b :: l2 =>
               if isWhiteSpace2 (nat_of_ascii a) (nat_of_ascii b) then 2
               else match l2 with
                    | c :: _ =>
                        if isWhiteSpace3 (nat_of_ascii a) (nat_of_ascii b) (nat_of_ascii c)
                        then 3 else 0
                    | [] => 0
                    end
           | [] => 0
           end
  | [] => 0
  end.

(** The same for the end of a string, read on its bytes last to first. *)
Definition whiteSpaceAtEnd (l : list ascii) : nat :=
  match l with
  | c :: l1 =>
      if isWhiteSpace1 (nat_of_ascii c) then 1
      else match l1 with
           | b :: l2 =>
               if isWhiteSpace2 (nat_of_ascii b) (nat_of_ascii c) then 2
               else match l2 with
                    | a :: _ =>
                        if isWhiteSpace3 (nat_of_ascii a) (nat_of_ascii b) (nat_of_ascii c)
                        then 3 else 0
                    | [] => 0
                    end
           | [] => 0
           end
  | [] => 0
  end.

(** Drop what [count] finds at the head, as long as it finds something. *)
Fixpoint strip (count : list ascii → nat) (fuel : nat) (l : list ascii) : list ascii :=
  match fuel with
  | O => l
  | S fuel' =>
      match count l with
      | O => l
      | S k => strip count fuel' (drop (S k) l)
      end
  end.

Definition trimStart (l : list ascii) : list ascii :=
  strip whiteSpaceAtStart (length l) l.

Definition trimEnd (l : list ascii) : list ascii :=
  reverse (strip whiteSpaceAtEnd (length l) (reverse l)).

(** [String.prototype.trim] *)
Definition trim (s : string) : string :=
  string_of_list_ascii (trimEnd (trimStart (list_ascii_of_string s))).

(** A string is truthy when it is not empty. *)
Definition truthy (s : string) : bool := negb (String.eqb s "").

End JsString.

(** ** JavaScript numbers, as far as the component uses them *)

Inductive JsNumber :=
  | Num (z : Z)
  | NaN.

(** [a - b] on numbers *)
Definition JsNumber_sub (a b : JsNumber) : JsNumber :=
  match a, b with
  | Num x, Num y => Num (x - y)
  | _, _ => NaN
  end.

(** A value a parsed JSON document can hold at a property that the
    component passes to [new Date(...)]; [JUndefined] is an absent
    property.  A number stands for its integral part, which is what
    [TimeClip] keeps of it.  An object or an array is read by [new Date] as
    the string [ToPrimitive] makes of it, and is a [JString] here. *)
Inductive JsonValue :=
  | JUndefined
  | JNull
  | JBool (b : bool)
  | JNumber (n : Z)
  | JString (s : string).

(** ** The platform *)

(** What a comparator says of [a] and [b], in the notation of ECMA-262:
    a <CF b, a =CF b, a >CF b. *)
Definition ltCF {A} (cmp : A → A → JsNumber) (a b : A) : Prop :=
  ∃ z, cmp a b = Num z ∧ (z < 0)%Z.
Definition eqCF {A} (cmp : A → A → JsNumber) (a b : A) : Prop :=
  cmp a b = Num 0.
Definition gtCF {A} (cmp : A → A → JsNumber) (a b : A) : Prop :=
  ∃ z, cmp a b = Num z ∧ (0 < z)%Z.

(** "A consistent comparator for a set of values S" (ECMA-262, at
    Array.prototype.sort): on S it never returns NaN, and it meets the
    five requirements listed there. *)
Record consistentComparator {A} (cmp : A → A → JsNumber) (S : A → Prop) : Prop := {
  cf_number : ∀ a b, S a → S b → cmp a b ≠ NaN;
  cf_refl : ∀ a, S a → eqCF cmp a a;
  cf_sym : ∀ a b, S a → S b → eqCF cmp a b → eqCF cmp b a;
  cf_trans_eq : ∀ a b c, S a → S b → S c → eqCF cmp a b → eqCF cmp b c → eqCF cmp a c;
  cf_trans_lt : ∀ a b c, S a → S b → S c → ltCF cmp a b → ltCF cmp b c → ltCF cmp a c;
  cf_trans_gt : ∀ a b c, S a → S b → S c → gtCF cmp a b → gtCF cmp b c → gtCF cmp a c
}.

(** The built-in functions whose result the engine decides, each with what
    ECMA-262 requires of it.
    - [toLowerCase]: [String.prototype.toLowerCase], the case mapping of
      the Unicode Character Database; of the empty string it is the empty
      string.
    - [localeCompare]: [String.prototype.localeCompare] with the default
      locale: the sign is what the collation gives; it "is required to be a
      consistent comparator defining a total ordering on the set of all
      Strings".
    - [Array_sort]: [Array.prototype.sort] with a comparator: the elements
      in a new order; for a comparator consistent on them, an element the
      comparator puts before another stands before it (ECMA-262: if
      SortCompare(old[j], old[k]) < 0 then π(j) < π(k)).  For any other
      comparator "the sort order is implementation-defined".
    - [Date_parse_other]: what [Date.parse] returns (a time value or NaN)
      for a string that is not in the format of [toISOString]: the shorter
      forms of that format, read in the local time zone when they carry a
      time and no offset, and "implementation-specific heuristics or
      date formats" for everything else. *)
Class Platform := {
  toLowerCase : string → string;
  toLowerCase_empty : toLowerCase "" = "";
  localeCompare : string → string → Z;
  localeCompare_consistent :
    consistentComparator (λ a b, Num (localeCompare a b)) (λ _, True);
  Array_sort : ∀ {A : Type}, (A → A → JsNumber) → list A → list A;
  Array_sort_reorders : ∀ {A} (cmp : A → A → JsNumber) (l : list A),
    Array_sort cmp l ≡ₚ l;
  Array_sort_sorts : ∀ {A} (cmp : A → A → JsNumber) (l : list A),
    consistentComparator cmp (λ x, x ∈ l) →
    ∀ i j x y, Array_sort cmp l !! i = Some x → Array_sort cmp l !! j = Some y →
               ltCF cmp x y → i < j;
  Date_parse_other : string → JsNumber
}.

(** ** Dates *)

Module JsDate.
Local Open Scope Z_scope.

Definition msPerDay : Z := 86400000.
Definition maxTime : Z := 8640000000000000.

Inductive t :=
  | ValidDate (time : Z)
  | InvalidDate.

Definition TimeClip (time : Z) : t :=
  if Z.abs time <=? maxTime then ValidDate time else InvalidDate.

(** A date that is not "Invalid Date" and lies in the range of time values. *)
Definition isValid (d : t) : bool :=
  match d with
  | ValidDate time => Z.abs time <=? maxTime
  | InvalidDate => false
  end.

(** [Date.prototype.getTime] *)
Definition getTime (d : t) : JsNumber :=
  match d with
  | ValidDate time => Num time
  | InvalidDate => NaN
  end.

Definition Day (time : Z) : Z := time / msPerDay.
Definition TimeWithinDay (time : Z) : Z := time mod msPerDay.

(** Year, month (1-12) and day of the month of a day number counted from
    1970-01-01, in the proleptic Gregorian calendar. *)
Definition civilFromDay (day : Z) : Z * Z * Z :=
  let z := day + 719468 in
  let era := z / 146097 in
  let doe := z mod 146097 in
  let yoe := (doe - doe / 1460 + doe / 36524 - doe / 146096) / 365 in
  let doy := doe - (365 * yoe + yoe / 4 - yoe / 100) in
  let mp := (5 * doy + 2) / 153 in
  let d := doy - (153 * mp + 2) / 5 + 1 in
  let m := if mp <? 10 then mp + 3 else mp - 9 in
  let y := yoe + era * 400 in
  (if m <=? 2 then y + 1 else y, m, d).

(** The day number of a civil date. *)
Definition MakeDay (y m d : Z) : Z :=
  let y' := if m <=? 2 then y - 1 else y in
  let era := y' / 400 in
  let yoe := y' mod 400 in
  let doy := (153 * (if 2 <? m then m - 3 else m + 9) + 2) / 5 + d - 1 in
  let doe := yoe * 365 + yoe / 4 - yoe / 100 + doy in
  era * 146097 + doe - 719468.

Definition MakeTime (h mi s ms : Z) : Z :=
  h * 3600000 + mi * 60000 + s * 1000 + ms.

Definition digitChar (n : Z) : ascii := ascii_of_nat (48 + Z.to_nat n).

(** The [w] low decimal digits of [n], most significant first. *)
Fixpoint pad (w : nat) (n : Z) : string :=
  match w with
  | O => EmptyString
  | S w' => String (digitChar (n / 10 ^ Z.of_nat w' mod 10)) (pad w' n)
  end.

Definition yearString (y : Z) : string :=
  if (0 <=? y) && (y <=? 9999) then pad 4 y
  else String (if y <? 0 then "-"%char else "+"%char) (pad 6 (Z.abs y)).

(** [Date.prototype.toISOString] of a valid time value:
    [YYYY-MM-DDTHH:mm:ss.sssZ], the year widened to a sign and six digits
    outside 0..9999. *)
Definition toISOString (time : Z) : string :=
  let '(y, m, d) := civilFromDay (Day time) in
  let tod := TimeWithinDay time in
  yearString y +:+ String "-" (pad 2 m +:+ String "-" (pad 2 d +:+ String "T" (
  pad 2 (tod / 3600000) +:+ String ":" (pad 2 (tod / 60000 mod 60) +:+ String ":" (
  pad 2 (tod / 1000 mod 60) +:+ String "." (pad 3 (tod mod 1000) +:+ "Z")))))).

Definition digitValue (c : ascii) : option Z :=
  let n := nat_of_ascii c in
  if (48 <=? n)%nat && (n <=? 57)%nat then Some (Z.of_nat n - 48) else None.

Fixpoint readDigits (w : nat) (s : string) (acc : Z) : option (Z * string) :=
  match w with
  | O => Some (acc, s)
  | S w' =>
      match s with
      | EmptyString => None
      | String c s' => v ← digitValue c; readDigits w' s' (acc * 10 + v)
      end
  end.

Definition expect (c : ascii) (s : string) : option string :=
  match s with
  | EmptyString => None
  | String c' s' => if Ascii.eqb c c' then Some s' else None
  end.

Definition readYear (s : string) : option (Z * string) :=
  match s with
  | String c s' =>
      if Ascii.eqb c "+" then readDigits 6 s' 0
      else if Ascii.eqb c "-" then '(y, r) ← readDigits 6 s' 0; Some (- y, r)
      else readDigits 4 s 0
  | EmptyString => None
  end.

(** The fields of a date-time string in the format of [toISOString], put
    together into a time value. *)
Definition parseISO (s : string) : option Z :=
  '(y, s) ← readYear s;
  s ← expect "-" s;
  '(m, s) ← readDigits 2 s 0;
  s ← expect "-" s;
  '(d, s) ← readDigits 2 s 0;
  s ← expect "T" s;
  '(h, s) ← readDigits 2 s 0;
  s ← expect ":" s;
  '(mi, s) ← readDigits 2 s 0;
  s ← expect ":" s;
  '(sec, s) ← readDigits 2 s 0;
  s ← expect "." s;
  '(ms, s) ← readDigits 3 s 0;
  s ← expect "Z" s;
  match s with
  | EmptyString => Some (MakeDay y m d * msPerDay + MakeTime h mi sec ms)
  | String _ _ => None
  end.

(** [new Date(s)] of a string, that is [TimeClip] of [Date.parse(s)].  A
    string that is the [toISOString] form of a time value gives that time
    value.  Every other string (a date without a time, a time without
    milliseconds, a day 31 of a 30-day month, free text) is the
    platform's to read. *)
Definition Date_parse `{Platform} (s : string) : t :=
  let other := match Date_parse_other s with
               | Num time => TimeClip time
               | NaN => InvalidDate
               end in
  match parseISO s with
  | Some time => if String.eqb (toISOString time) s then TimeClip time else other
  | None => other
  end.

(** [Date.prototype.toJSON], which [JSON.stringify] calls on a date. *)
Definition toJSON (d : t) : JsonValue :=
  match d with
  | ValidDate time => JString (toISOString time)
  | InvalidDate => JNull
  end.

(** [new Date(v)] for a value read from a JSON document. *)
Definition newDate `{Platform} (v : JsonValue) : t :=
  match v with
  | JUndefined => InvalidDate
  | JNull => ValidDate 0
  | JBool b => ValidDate (if b then 1 else 0)
  | JNumber n => TimeClip n
  | JString s => Date_parse s
  end.

End JsDate.

Abbreviation JsDate := JsDate.t.

(** ** The data model *)

Module Note.
Record t := mk {
  id : string;
  title : string;
  content : string;
  category : string;
  color : string;
  createdAt : JsDate;
  updatedAt : JsDate;
  image : option string;
  isPinned : bool;
  isArchived : bool;
  tags : list string
}.

(** [{ ...n, updatedAt: d }] and the other object spreads of the component. *)
Definition with_updatedAt (d : JsDate) (n : t) : t :=
  mk (id n) (title n) (content n) (category n) (color n) (createdAt n) d
     (image n) (isPinned n) (isArchived n) (tags n).
Definition with_isPinned (b : bool) (n : t) : t :=
  mk (id n) (title n) (content n) (category n) (color n) (createdAt n) (updatedAt n)
     (image n) b (isArchived n) (tags n).
Definition with_isArchived (b : bool) (n : t) : t :=
  mk (id n) (title n) (content n) (category n) (color n) (createdAt n) (updatedAt n)
     (image n) (isPinned n) b (tags n).
Definition with_tags (ts : list string) (n : t) : t :=
  mk (id n) (title n) (content n) (category n) (color n) (createdAt n) (updatedAt n)
     (image n) (isPinned n) (isArchived n) ts.
Definition with_category (c : string) (n : t) : t :=
  mk (id n) (title n) (content n) c (color n) (createdAt n) (updatedAt n)
     (image n) (isPinned n) (isArchived n) (tags n).
End Note.

Abbreviation Note := Note.t.

(** [type NewNote = Omit<Note, 'id' | 'createdAt' | 'updatedAt' | 'isPinned' | 'isArchived'>] *)
Module NewNote.
Record t := mk {
  title : string;
  content : string;
  category : string;
  color : string;
  image : option string;
  tags : list string
}.

Definition with_tags (ts : list string) (n : t) : t :=
  mk (title n) (content n) (category n) (color n) (image n) ts.

(** [{ title: '', content: '', category: '', color: '', image: '', tags: [] }] *)
Definition empty : t := mk "" "" "" "" (Some "") [].
End NewNote.

Abbreviation NewNote := NewNote.t.

Module Category.
Record t := mk {
  name : string;
  color : string
}.
End Category.

Abbreviation Category := Category.t.

Definition initialCategories : list Category :=
  [ Category.mk "Work 💼" "#FF5733";
    Category.mk "Personal 🏠" "#33FF57";
    Category.mk "Ideas 💡" "#3357FF";
    Category.mk "To-Do ✅" "#FF33F5" ].

Global Instance JsDate_eq_dec : EqDecision JsDate.
Proof. solve_decision. Defined.


Global Instance Category_eq_dec : EqDecision Category.
Proof. solve_decision. Defined.

(** ** IndexedDB *)

(** The two object stores [openDB] creates on upgrade:
    [createObjectStore('notes', { keyPath: 'id' })] and
    [createObjectStore('categories', { keyPath: 'name' })]. *)
Inductive StoreName :=
  | notesStore
  | categoriesStore.

Global Instance StoreName_eq_dec : EqDecision StoreName.
Proof. solve_decision. Defined.

(** The records of a store. *)
Definition Stored (storeName : StoreName) : Type :=
  match storeName with
  | notesStore => Note
  | categoriesStore => Category
  end.

(** The key of a record, read at the store's key path. *)
Definition keyPath (storeName : StoreName) : Stored storeName → string :=
  match storeName with
  | notesStore => Note.id
  | categoriesStore => Category.name
  end.

(** The database: each object store maps a key to the record put under it. *)
Record IDBDatabase := mkDB {
  notesRecords : gmap string Note;
  categoriesRecords : gmap string Category
}.

Definition objectStore (storeName : StoreName) (db : IDBDatabase)
    : gmap string (Stored storeName) :=
  match storeName with
  | notesStore => notesRecords db
  | categoriesStore => categoriesRecords db
  end.

Definition withObjectStore (storeName : StoreName)
    : gmap string (Stored storeName) → IDBDatabase → IDBDatabase :=
  match storeName with
  | notesStore => λ m db, mkDB m (categoriesRecords db)
  | categoriesStore => λ m db, mkDB (notesRecords db) m
  end.

(** The database before the first [put]. *)
Definition emptyDB : IDBDatabase := mkDB ∅ ∅.

(** [store.put(data)]: the record replaces the one stored under its key. *)
Definition saveToIndexedDB (storeName : StoreName) (data : Stored storeName)
    (db : IDBDatabase) : IDBDatabase :=
  withObjectStore storeName
    (<[keyPath storeName data := data]> (objectStore storeName db)) db.

(** The order of keys: IndexedDB compares two strings by their UTF-16 code
    units.  On UTF-8 bytes that is the order of the bytes, except that the
    code points from U+10000 on (lead bytes 240 to 244, surrogate pairs in
    UTF-16) stand before U+E000 to U+FFFF (lead bytes 238 and 239). *)
Definition keyByteRank (c : ascii) : nat :=
  let n := nat_of_ascii c in
  if (238 <=? n)%nat && (n <=? 239)%nat then n + 5
  else if (240 <=? n)%nat && (n <=? 244)%nat then n - 2
  else n.

Fixpoint keyLeb (a b : string) : bool :=
  match a, b with
  | EmptyString, _ => true
  | String _ _, EmptyString => false
  | String x a', String y b' =>
      if Ascii.eqb x y then keyLeb a' b' else (keyByteRank x <? keyByteRank y)%nat
  end.

Definition keyOrder {V} (p q : string * V) : Prop := keyLeb p.1 q.1 = true.

Global Instance keyOrder_dec {V} : RelDecision (@keyOrder V).
Proof. intros p q. unfold keyOrder. apply _. Defined.

(** [store.getAll()]: the records of the store, by ascending key. *)
Definition getAllFromIndexedDB (storeName : StoreName) (db : IDBDatabase)
    : list (Stored storeName) :=
  (merge_sort keyOrder (map_to_list (objectStore storeName db))).*2.

(** [store.delete(key)] *)
Definition deleteFromIndexedDB (storeName : StoreName) (key : string)
    (db : IDBDatabase) : IDBDatabase :=
  withObjectStore storeName (delete key (objectStore storeName db)) db.

(** Every record is stored under the key its key path gives: the invariant of
    a store with in-line keys. *)
Definition keyedMap {V} (key : V → string) (m : gmap string V) : Prop :=
  ∀ k r, m !! k = Some r → key r = k.

Definition keyed (storeName : StoreName) (db : IDBDatabase) : Prop :=
  keyedMap (keyPath storeName) (objectStore storeName db).

Definition wellKeyed (db : IDBDatabase) : Prop :=
  keyed notesStore db ∧ keyed categoriesStore db.

(** ** Toasts *)

Inductive ToastKind :=
  | toast_success
  | toast_error
  | toast_info.

Definition Toast : Type := ToastKind * string.

(** ** The component's state *)

Record State := mkState {
  notes : list Note;
  newNote : NewNote;
  editingNote : option Note;
  isAddingNote : bool;
  categories : list Category;
  newCategory : Category;
  db : IDBDatabase;
  toasts : list Toast
}.

Definition setNotes (f : list Note → list Note) (st : State) : State :=
  mkState (f (notes st)) (newNote st) (editingNote st) (isAddingNote st)
          (categories st) (newCategory st) (db st) (toasts st).
Definition setNewNote (f : NewNote → NewNote) (st : State) : State :=
  mkState (notes st) (f (newNote st)) (editingNote st) (isAddingNote st)
          (categories st) (newCategory st) (db st) (toasts st).
Definition setEditingNote (e : option Note) (st : State) : State :=
  mkState (notes st) (newNote st) e (isAddingNote st)
          (categories st) (newCategory st) (db st) (toasts st).
Definition setIsAddingNote (b : bool) (st : State) : State :=
  mkState (notes st) (newNote st) (editingNote st) b
          (categories st) (newCategory st) (db st) (toasts st).
Definition setCategories (f : list Category → list Category) (st : State) : State :=
  mkState (notes st) (newNote st) (editingNote st) (isAddingNote st)
          (f (categories st)) (newCategory st) (db st) (toasts st).
Definition setNewCategory (c : Category) (st : State) : State :=
  mkState (notes st) (newNote st) (editingNote st) (isAddingNote st)
          (categories st) c (db st) (toasts st).
(** [await] of a storage request: the database moves on. *)
Definition await (f : IDBDatabase → IDBDatabase) (st : State) : State :=
  mkState (notes st) (newNote st) (editingNote st) (isAddingNote st)
          (categories st) (newCategory st) (f (db st)) (toasts st).
Definition toast (kind : ToastKind) (message : string) (st : State) : State :=
  mkState (notes st) (newNote st) (editingNote st) (isAddingNote st)
          (categories st) (newCategory st) (db st) (toasts st ++ [(kind, message)]).

(** The state of a freshly mounted component. *)
Definition initialState : State :=
  mkState [] NewNote.empty None false initialCategories
          (Category.mk "" "#000000") emptyDB [].

(** ** Derived views *)

(** [Set.prototype.add] on a set kept in insertion order, as [Array.from]
    reads it back. *)
Definition Set_add (x : string) (s : list string) : list string :=
  if bool_decide (x ∈ s) then s else s ++ [x].

(** The effect that recomputes [allTags] whenever [notes] changes:
    [notes.forEach(note => note.tags.forEach(tag => tags.add(tag)))]. *)
Definition allTags (notes : list Note) : list string :=
  foldl (λ tags note, foldl (λ tags tag, Set_add tag tags) tags (Note.tags note))
        [] notes.

Inductive SortBy :=
  | sort_updatedAt
  | sort_createdAt
  | sort_title.

(** The predicate of [filteredNotes]. *)
Definition matchesFilter `{Platform} (selectedCategory searchTerm : string)
    (showArchived : bool) (note : Note) : bool :=
  (String.eqb selectedCategory "All" || String.eqb (Note.category note) selectedCategory) &&
  (JsString.includes (toLowerCase (Note.title note)) (toLowerCase searchTerm) ||
   JsString.includes (toLowerCase (Note.content note)) (toLowerCase searchTerm) ||
   existsb (λ tag, JsString.includes (toLowerCase tag) (toLowerCase searchTerm))
           (Note.tags note)) &&
  (if showArchived then Note.isArchived note else negb (Note.isArchived note)).

(** The comparator of [filteredNotes]. *)
Definition compareNotes `{Platform} (sortBy : SortBy) (a b : Note) : JsNumber :=
  if Note.isPinned a && negb (Note.isPinned b) then Num (-1)
  else if negb (Note.isPinned a) && Note.isPinned b then Num 1
  else match sortBy with
       | sort_title => Num (localeCompare (Note.title a) (Note.title b))
       | sort_updatedAt =>
           JsNumber_sub (JsDate.getTime (Note.updatedAt b)) (JsDate.getTime (Note.updatedAt a))
       | sort_createdAt =>
           JsNumber_sub (JsDate.getTime (Note.createdAt b)) (JsDate.getTime (Note.createdAt a))
       end.

Definition filteredNotes `{Platform} (notes : list Note)
    (selectedCategory searchTerm : string) (showArchived : bool) (sortBy : SortBy)
    : list Note :=
  Array_sort (compareNotes sortBy)
    (List.filter (matchesFilter selectedCategory searchTerm showArchived) notes).

(** [notes.filter(note => note.isPinned).length] *)
Definition pinnedCount (notes : list Note) : nat :=
  length (List.filter Note.isPinned notes).

(** ** The component's functions *)

(** [prevNotes.map(note => note.id === id ? updatedNote : note)] *)
Definition replaceById (id : string) (updatedNote : Note) (prevNotes : list Note)
    : list Note :=
  map (λ note, if String.eqb (Note.id note) id then updatedNote else note) prevNotes.

(** [addNote], called when the clock reads [now] at [new Date()] and
    [stamp] at [Date.now()]. *)
Definition addNote (now stamp : Z) (st : State) : State :=
  let draft := newNote st in
  if JsString.truthy (NewNote.title draft) && JsString.truthy (NewNote.content draft)
     && JsString.truthy (NewNote.category draft) then
    let color :=
      match List.find (λ cat, String.eqb (Category.name cat) (NewNote.category draft))
                      (categories st) with
      | Some cat => if JsString.truthy (Category.color cat) then Category.color cat
                    else "#CCCCCC"
      | None => "#CCCCCC"
      end in
    let newNoteWithId :=
      Note.mk (pretty stamp) (NewNote.title draft) (NewNote.content draft)
              (NewNote.category draft) color (JsDate.ValidDate now) (JsDate.ValidDate now)
              (NewNote.image draft) false false (NewNote.tags draft) in
    let st := await (saveToIndexedDB notesStore newNoteWithId) st in
    let st := setNotes (λ prevNotes, prevNotes ++ [newNoteWithId]) st in
    let st := setNewNote (λ _, NewNote.empty) st in
    let st := setIsAddingNote false st in
    toast toast_success "Note added successfully! 🎉" st
  else
    toast toast_error "Please fill in all required fields 🙏" st.

Definition updateNote (now : Z) (st : State) : State :=
  match editingNote st with
  | Some editing =>
      let updatedNote := Note.with_updatedAt (JsDate.ValidDate now) editing in
      let st := await (saveToIndexedDB notesStore updatedNote) st in
      let st := setNotes (replaceById (Note.id editing) updatedNote) st in
      let st := setEditingNote None st in
      toast toast_success "Note updated successfully! 📝" st
  | None => st
  end.

Definition deleteNote (id : string) (st : State) : State :=
  let st := await (deleteFromIndexedDB notesStore id) st in
  let st := setNotes (List.filter (λ note, negb (String.eqb (Note.id note) id))) st in
  toast toast_info "Note deleted 🗑️" st.

Definition togglePinNote (id : string) (st : State) : State :=
  match List.find (λ note, String.eqb (Note.id note) id) (notes st) with
  | Some noteToToggle =>
      let pinnedNotes := pinnedCount (notes st) in
      if negb (Note.isPinned noteToToggle) && (3 <=? pinnedNotes)%nat then
        toast toast_error "You can only pin up to 3 notes 📌" st
      else
        let updatedNote :=
          Note.with_isPinned (negb (Note.isPinned noteToToggle)) noteToToggle in
        let st := await (saveToIndexedDB notesStore updatedNote) st in
        let st := setNotes (replaceById id updatedNote) st in
        if Note.isPinned updatedNote then toast toast_success "Note pinned 📌" st
        else toast toast_info "Note unpinned 📌❌" st
  | None => st
  end.

Definition toggleArchiveNote (id : string) (st : State) : State :=
  match List.find (λ note, String.eqb (Note.id note) id) (notes st) with
  | Some noteToToggle =>
      let updatedNote :=
        Note.with_isArchived (negb (Note.isArchived noteToToggle)) noteToToggle in
      let st := await (saveToIndexedDB notesStore updatedNote) st in
      let st := setNotes (replaceById id updatedNote) st in
      if Note.isArchived updatedNote then toast toast_success "Note archived 📂" st
      else toast toast_info "Note unarchived 📂" st
  | None => st
  end.

Definition addCategory (st : State) : State :=
  let c := newCategory st in
  if JsString.truthy (Category.name c) && JsString.truthy (Category.color c) then
    let st := await (saveToIndexedDB categoriesStore c) st in
    let st := setCategories (λ prevCategories, prevCategories ++ [c]) st in
    let st := setNewCategory (Category.mk "" "#000000") st in
    toast toast_success "Category added successfully! 🎨" st
  else
    toast toast_error "Please provide a name and color for the new category 🙏" st.

Definition deleteCategory (categoryName : string) (st : State) : State :=
  let st := await (deleteFromIndexedDB categoriesStore categoryName) st in
  let st := setCategories
              (List.filter (λ cat, negb (String.eqb (Category.name cat) categoryName))) st in
  let st := setNotes
              (map (λ note, if String.eqb (Note.category note) categoryName
                            then Note.with_category "Uncategorized" note else note)) st in
  toast toast_success "Category deleted successfully! 🗑️" st.

(** [tags.filter(tag => tag.trim() !== '').map(tag => tag.trim())] *)
Definition normalizeTags (tags : list string) : list string :=
  map JsString.trim
      (List.filter (λ tag, negb (String.eqb (JsString.trim tag) "")) tags).

(** [handleTagChange(tags, noteId?)]; [if (noteId)] fails for an absent and
    for an empty id. *)
Definition handleTagChange (tags : list string) (noteId : option string) (st : State)
    : State :=
  let updatedTags := normalizeTags tags in
  match noteId with
  | Some id =>
      if JsString.truthy id then
        match List.find (λ note, String.eqb (Note.id note) id) (notes st) with
        | Some noteToUpdate =>
            let updatedNote := Note.with_tags updatedTags noteToUpdate in
            let st := await (saveToIndexedDB notesStore updatedNote) st in
            let st := setNotes (replaceById id updatedNote) st in
            toast toast_success "Tags updated successfully! 🏷️" st
        | None => st
        end
      else setNewNote (NewNote.with_tags updatedTags) st
  | None => setNewNote (NewNote.with_tags updatedTags) st
  end.

(** ** Export and import *)

(** A note as [JSON.stringify] writes it and [JSON.parse] reads it: the two
    dates are whatever JSON holds at those properties. *)
Module NoteJson.
Record t := mk {
  id : string;
  title : string;
  content : string;
  category : string;
  color : string;
  createdAt : JsonValue;
  updatedAt : JsonValue;
  image : option string;
  isPinned : bool;
  isArchived : bool;
  tags : list string
}.

(** [JSON.stringify] of a stored note: [Date.prototype.toJSON] on its dates. *)
Definition stringify (n : Note) : t :=
  mk (Note.id n) (Note.title n) (Note.content n) (Note.category n) (Note.color n)
     (JsDate.toJSON (Note.createdAt n)) (JsDate.toJSON (Note.updatedAt n))
     (Note.image n) (Note.isPinned n) (Note.isArchived n) (Note.tags n).

(** [{ ...note, createdAt: new Date(note.createdAt), updatedAt: new Date(note.updatedAt) }] *)
Definition revive `{Platform} (note : t) : Note :=
  Note.mk (id note) (title note) (content note) (category note) (color note)
          (JsDate.newDate (createdAt note)) (JsDate.newDate (updatedAt note))
          (image note) (isPinned note) (isArchived note) (tags note).
End NoteJson.

Abbreviation NoteJson := NoteJson.t.

(** An element of the [notes] or the [categories] of a backup file: an
    object with the properties of the interface, its key a string, or a
    value [put] cannot store, because it has no valid key at the store's
    key path (no ['id'], no ['name'], or no object at all).  For such a
    value [store.put] throws, or reading the dates of [null] does before.
    Objects that [put] can store and that are no records of the interface
    (a number as id, say) are not modelled. *)
Inductive FileItem (X : Type) :=
  | Storable (x : X)
  | Unstorable.
Arguments Storable {X} x.
Arguments Unstorable {X}.

(** The text of a backup file as [JSON.parse] reads it: not JSON at all, or
    an object whose [notes] and [categories] are arrays, or absent ([None];
    any falsy value fails the same test).  A truthy value that is no array
    reads as an array that begins with an unstorable element: iterating it
    throws, or what it yields has no key. *)
Inductive JsonFile :=
  | NotJson
  | JsonObject (notes : option (list (FileItem NoteJson)))
               (categories : option (list (FileItem Category))).

(** [exportNotes]: the file offered for download, and the state afterwards. *)
Definition exportNotes (st : State) : JsonFile * State :=
  let notesToExport := getAllFromIndexedDB notesStore (db st) in
  let categoriesToExport := getAllFromIndexedDB categoriesStore (db st) in
  let dataStr := JsonObject (Some (map (λ note, Storable (NoteJson.stringify note))
                                       notesToExport))
                            (Some (map Storable categoriesToExport)) in
  (dataStr, toast toast_success "Notes and categories exported successfully! 📤" st).

(** [new Date(d)] of a date copies its time value. *)
Definition reviveDates (note : Note) : Note :=
  Note.mk (Note.id note) (Note.title note) (Note.content note) (Note.category note)
          (Note.color note) (Note.createdAt note) (Note.updatedAt note)
          (Note.image note) (Note.isPinned note) (Note.isArchived note) (Note.tags note).

(** [for (const x of items) { await saveToIndexedDB(storeName, g(x)) }]:
    the loop stops at the first element [put] throws on, with the elements
    before it stored.  The flag tells whether the loop ran to its end. *)
Fixpoint putEach {X} (storeName : StoreName) (g : X → Stored storeName)
    (items : list (FileItem X)) (st : State) : State * bool :=
  match items with
  | [] => (st, true)
  | Storable x :: items' =>
      putEach storeName g items' (await (saveToIndexedDB storeName (g x)) st)
  | Unstorable :: _ => (st, false)
  end.

(** [importNotes] on the file the user picked, if any.  Whatever is thrown
    inside the [try] ends in the same [catch]. *)
Definition importNotes `{Platform} (file : option JsonFile) (st : State) : State :=
  match file with
  | None => st
  | Some NotJson =>
      toast toast_error "Failed to import data. Please check the file format. 😕" st
  | Some (JsonObject (Some importedNotes) (Some importedCategories)) =>
      let '(st, stored) := putEach notesStore NoteJson.revive importedNotes st in
      if stored then
        let '(st, stored) := putEach categoriesStore (λ category, category)
                                     importedCategories st in
        if stored then
          let updatedNotes := getAllFromIndexedDB notesStore (db st) in
          let updatedCategories := getAllFromIndexedDB categoriesStore (db st) in
          let st := setNotes (λ _, map reviveDates updatedNotes) st in
          let st := setCategories (λ _, updatedCategories) st in
          toast toast_success "Notes and categories imported successfully! 📥" st
        else
          toast toast_error "Failed to import data. Please check the file format. 😕" st
      else
        toast toast_error "Failed to import data. Please check the file format. 😕" st
  | Some (JsonObject _ _) =>
      toast toast_error "Failed to import data. Please check the file format. 😕" st
  end.

(** ** Vocabulary of the statements *)


(** No white-space code point at either end. *)
Definition trimmed (s : string) : Prop :=
  JsString.whiteSpaceAtStart (list_ascii_of_string s) = 0 ∧
  JsString.whiteSpaceAtEnd (reverse (list_ascii_of_string s)) = 0.




(** [new] is [old] except, possibly, for the named field. *)
Definition onlyPinChanged (old new : Note) : Prop :=
  new = Note.with_isPinned (Note.isPinned new) old.
Definition onlyArchiveChanged (old new : Note) : Prop :=
  new = Note.with_isArchived (Note.isArchived new) old.
Definition onlyTagsChanged (old new : Note) : Prop :=
  new = Note.with_tags (Note.tags new) old.
Definition onlyCategoryChanged (old new : Note) : Prop :=
  new = Note.with_category (Note.category new) old.

(** The draft's title, content and category are all non-empty. *)
Definition requiredFilled (draft : NewNote) : Prop :=
  NewNote.title draft ≠ "" ∧ NewNote.content draft ≠ "" ∧ NewNote.category draft ≠ "".

(** Both dates of a note are valid dates. *)
Definition datesValid (n : Note) : Prop :=
  JsDate.isValid (Note.createdAt n) = true ∧ JsDate.isValid (Note.updatedAt n) = true.

Definition storedDatesValid (db : IDBDatabase) : Prop :=
  ∀ key note, notesRecords db !! key = Some note → datesValid note.

(** The elements of a file's array that are stored before [put] throws,
    and whether it never throws. *)
Fixpoint storablePrefix {X} (items : list (FileItem X)) : list X :=
  match items with
  | Storable x :: items' => x :: storablePrefix items'
  | _ => []
  end.

Fixpoint allStorable {X} (items : list (FileItem X)) : bool :=
  match items with
  | [] => true
  | Storable _ :: items' => allStorable items'
  | Unstorable :: _ => false
  end.

(** No element of the file's arrays makes [put] throw. *)
Definition noPutThrows (file : option JsonFile) : Prop :=
  match file with
  | Some (JsonObject (Some importedNotes) (Some importedCategories)) =>
      allStorable importedNotes = true ∧ allStorable importedCategories = true
  | _ => True
  end.

(** The calendar identity behind [toISOString] and [Date.parse], on one day
    of the 400-year cycle: the year of the era and the month and day found
    for day [doe] lead back to [doe]. *)
Definition doeCheck (doe : Z) : bool :=
  (let yoe := (doe - doe / 1460 + doe / 36524 - doe / 146096) / 365 in
   let doy := doe - (365 * yoe + yoe / 4 - yoe / 100) in
   let mp := (5 * doy + 2) / 153 in
   let d := doy - (153 * mp + 2) / 5 + 1 in
   let m := if mp <? 10 then mp + 3 else mp - 9 in
   (0 <=? yoe) && (yoe <=? 399) && (1 <=? m) && (m <=? 12) && (1 <=? d) && (d <=? 31) &&
   (yoe * 365 + yoe / 4 - yoe / 100
    + ((153 * (if 2 <? m then m - 3 else m + 9) + 2) / 5 + d - 1) =? doe))%Z.

Fixpoint checkRange (n : nat) (from : Z) : bool :=
  match n with
  | O => true
  | S n' => doeCheck from && checkRange n' (from + 1)
  end.

(** ** Example data *)

(** The lexicographic order of the bytes, as a comparator: on the words of
    the examples the order of code units, that of [<] on strings. *)
Definition codeUnitCompare (a b : string) : Z :=
  match String.compare a b with
  | Lt => (-1)%Z
  | Eq => 0%Z
  | Gt => 1%Z
  end.

(** A platform for the examples.  Its [toLowerCase] maps the letters A to
    Z; its collation compares the lower-case forms by code units, and so
    ignores the case of these letters as the collations of the engines do
    at their first level; its sort is an insertion sort that reads NaN as
    +0.  On the words and dates of the examples the engines give the same
    results. *)
Definition isUpper (c : ascii) : bool :=
  (65 <=? nat_of_ascii c)%nat && (nat_of_ascii c <=? 90)%nat.

Definition lowerChar (c : ascii) : ascii :=
  if isUpper c then ascii_of_nat (nat_of_ascii c + 32) else c.

Fixpoint asciiLowerCase (s : string) : string :=
  match s with
  | EmptyString => EmptyString
  | String c s' => String (lowerChar c) (asciiLowerCase s')
  end.

Definition caseBlindCompare (a b : string) : Z :=
  codeUnitCompare (asciiLowerCase a) (asciiLowerCase b).

(** The comparator's result [v] for [(a, b)] lets [a] stay before [b]
    unless [v > 0]; NaN counts as [+0]. *)
Definition notAfter (v : JsNumber) : bool :=
  match v with
  | Num z => (z <=? 0)%Z
  | NaN => true
  end.

Definition before {A} (cmp : A → A → JsNumber) (x y : A) : Prop :=
  notAfter (cmp x y) = true.

Fixpoint insertSorted {A} (cmp : A → A → JsNumber) (x : A) (l : list A) : list A :=
  match l with
  | [] => [x]
  | y :: l' => if notAfter (cmp x y) then x :: l else y :: insertSorted cmp x l'
  end.

Definition insertionSort {A} (cmp : A → A → JsNumber) (l : list A) : list A :=
  foldr (insertSorted cmp) [] l.

Definition plainNote (id title : string) (updatedAt : JsDate) (isPinned : bool) : Note :=
  Note.mk id title "<p>text</p>" "Work 💼" "#FF5733" (JsDate.ValidDate 1000) updatedAt
          None isPinned false [].

(** A state with notes [l], each of them stored. *)
Definition stateOf (l : list Note) : State :=
  mkState l NewNote.empty None false initialCategories (Category.mk "" "#000000")
          (foldr (saveToIndexedDB notesStore) emptyDB l) [].

(** Three pinned notes and one that is not. *)
Definition threePinned : list Note :=
  [ plainNote "1" "first" (JsDate.ValidDate 1000) true;
    plainNote "2" "second" (JsDate.ValidDate 2000) true;
    plainNote "3" "third" (JsDate.ValidDate 3000) true;
    plainNote "4" "fourth" (JsDate.ValidDate 4000) false ].

(** A backup file with four pinned notes, as a second device may export
    them one pin at a time. *)
Definition pinnedNoteJson (id : string) : NoteJson :=
  NoteJson.mk id "title" "content" "Work 💼" "#FF5733"
    (JString "2024-01-01T00:00:00.000Z") (JString "2024-01-01T00:00:00.000Z")
    None true false [].

Definition fourPinned : JsonFile :=
  JsonObject (Some [Storable (pinnedNoteJson "1"); Storable (pinnedNoteJson "2");
                    Storable (pinnedNoteJson "3"); Storable (pinnedNoteJson "4")])
             (Some (map Storable initialCategories)).

(** Two notes that got the same id (two [Date.now()] in one millisecond),
    beside two pinned ones. *)
Definition twinNotes : list Note :=
  [ plainNote "7" "twin" (JsDate.ValidDate 1000) false;
    plainNote "7" "twin" (JsDate.ValidDate 1000) false;
    plainNote "1" "first" (JsDate.ValidDate 1000) true;
    plainNote "2" "second" (JsDate.ValidDate 2000) true ].

(** Note 4 is being edited in a copy that says it is pinned. *)
Definition staleEdit : State :=
  setEditingNote (Some (plainNote "4" "fourth" (JsDate.ValidDate 4000) true))
                 (stateOf threePinned).

(** A category without a colour, as a backup file may bring it in, and a
    draft in that category. *)
Definition colourlessState : State :=
  setNewNote (λ _, NewNote.mk "Groceries" "<p>milk</p>" "Errands" "" (Some "") [])
    (setCategories (λ _, [Category.mk "Errands" ""]) initialState).

(** A backup file whose note has no dates, and the state after importing it
    into a fresh database. *)
Definition undatedBackup : JsonFile :=
  JsonObject
    (Some [Storable (NoteJson.mk "n1" "Shopping" "<p>milk</p>" "Personal 🏠" "#33FF57"
                       JUndefined JUndefined None false false [])])
    (Some (map Storable initialCategories)).

Definition undatedState `{Platform} : State := importNotes (Some undatedBackup) initialState.



(** A backup file whose second note has no id. *)
Definition brokenBackup : JsonFile :=
  JsonObject (Some [Storable (pinnedNoteJson "1"); Unstorable;
                    Storable (pinnedNoteJson "9")])
             (Some (map Storable initialCategories)).


(** Two different notes that got the same id, the second one archived. *)
Definition unlikeTwins : list Note :=
  [ Note.mk "7" "Groceries" "<p>milk</p>" "Personal 🏠" "#33FF57"
            (JsDate.ValidDate 1000) (JsDate.ValidDate 1000) None false false ["home"];
    Note.mk "7" "Minutes" "<p>agenda</p>" "Work 💼" "#FF5733"
            (JsDate.ValidDate 2000) (JsDate.ValidDate 3000) None false true ["office"] ].

(** ** The rest of the component *)

(** The state of a component mounted over a database: the [useState]
    defaults. *)
Definition mount (db : IDBDatabase) : State :=
  mkState [] NewNote.empty None false initialCategories (Category.mk "" "#000000") db [].

(** The welcome notes of a first run; [clock k] is what the [k]-th
    [new Date()] reads. *)
Definition welcomeNotes (clock : nat → Z) : list Note :=
  [ Note.mk "1" "Welcome to Notelytic 📝" "This is your new note-taking dashboard! 🎉"
            "Personal 🏠" "#33FF57"
            (JsDate.ValidDate (clock 0%nat)) (JsDate.ValidDate (clock 1%nat))
            None false false ["welcome"];
    Note.mk "2" "Getting Started 🚀" "Click the + button to add a new note."
            "To-Do ✅" "#FF33F5"
            (JsDate.ValidDate (clock 2%nat)) (JsDate.ValidDate (clock 3%nat))
            None false false ["tutorial"];
    Note.mk "3" "Features ✨" "Notelytic supports rich text editing, image uploads, and more!"
            "Ideas 💡" "#3357FF"
            (JsDate.ValidDate (clock 4%nat)) (JsDate.ValidDate (clock 5%nat))
            None false false ["features"] ].

(** [initializeData], the effect run on mount.  The [put]s of a first run
    are not awaited by the source; they are taken in the order issued. *)
Definition initializeData (clock : nat → Z) (st : State) : State :=
  let savedNotes := getAllFromIndexedDB notesStore (db st) in
  let savedCategories := getAllFromIndexedDB categoriesStore (db st) in
  let st :=
    if (0 <? length savedNotes)%nat then
      setNotes (λ _, map reviveDates savedNotes) st
    else
      let st := setNotes (λ _, welcomeNotes clock) st in
      foldl (λ st note, await (saveToIndexedDB notesStore note) st) st (welcomeNotes clock) in
  if (0 <? length savedCategories)%nat then
    setCategories (λ _, savedCategories) st
  else
    foldl (λ st category, await (saveToIndexedDB categoriesStore category) st)
          st initialCategories.

(** [String.prototype.split] at a one-character separator. *)
Fixpoint String_split (sep : ascii) (s : string) : list string :=
  match s with
  | EmptyString => [EmptyString]
  | String c s' =>
      if Ascii.eqb c sep then EmptyString :: String_split sep s'
      else match String_split sep s' with
           | [] => [String c EmptyString]
           | piece :: pieces => String c piece :: pieces
           end
  end.

(** [Array.prototype.join] *)
Fixpoint Array_join (sep : string) (l : list string) : string :=
  match l with
  | [] => EmptyString
  | [x] => x
  | x :: l' => x +:+ sep +:+ Array_join sep l'
  end.

(** The tags field of the two dialogs: [value={tags.join(', ')}] and
    [onChange={(e) => handleTagChange(e.target.value.split(','), id)}]. *)
Definition tagsFieldValue (tags : list string) : string := Array_join ", " tags.

Definition tagsFieldChange (value : string) (noteId : option string) (st : State) : State :=
  handleTagChange (String_split "," value) noteId st.

(** Every note shown is the record stored under its id. *)
Definition persisted (st : State) : Prop :=
  ∀ n, n ∈ notes st → notesRecords (db st) !! Note.id n = Some n.

(** No comma in the string. *)
Fixpoint commaFree (s : string) : bool :=
  match s with
  | EmptyString => true
  | String c s' => negb (Ascii.eqb c ",") && commaFree s'
  end.

(** What the field can show and read back: tags that are normalized and
    hold no comma. *)
Definition fieldTag (tag : string) : Prop :=
  tag ≠ "" ∧ JsString.trim tag = tag ∧ commaFree tag = true.

(** The notes shown and the notes stored are the same notes, one per id. *)
Definition inStep (st : State) : Prop :=
  NoDup (map Note.id (notes st)) ∧
  ∀ key n, notesRecords (db st) !! key = Some n ↔ n ∈ notes st ∧ Note.id n = key.

(** [{ ...n, image: url }] *)
Definition Note_with_image (url : string) (n : Note) : Note :=
  Note.mk (Note.id n) (Note.title n) (Note.content n) (Note.category n) (Note.color n)
          (Note.createdAt n) (Note.updatedAt n) (Some url) (Note.isPinned n)
          (Note.isArchived n) (Note.tags n).
Definition NewNote_with_image (url : string) (n : NewNote) : NewNote :=
  NewNote.mk (NewNote.title n) (NewNote.content n) (NewNote.category n) (NewNote.color n)
             (Some url) (NewNote.tags n).

(** [handleImageUpload] together with the reader's [onloadend]: [file] is
    the file picked, if any, and inside it [reader.result] when it is a
    string (the data URL). *)
Definition handleImageUpload (file : option (option string)) (st : State) : State :=
  match file with
  | Some (Some result) =>
      let st :=
        match editingNote st with
        | Some editing => setEditingNote (Some (Note_with_image result editing)) st
        | None => setNewNote (λ _, NewNote_with_image result (newNote st)) st
        end in
      toast toast_success "Image uploaded successfully! 🖼️" st
  | _ => st
  end.

(** A state whose category form is filled in with a name not yet in use. *)
Definition errandsDraft : State :=
  setNewCategory (Category.mk "Errands" "#AA00FF") initialState.

(** * Proofs *)

Ltac state_simpl :=
  cbn [notes db toasts newNote editingNote categories isAddingNote newCategory
       toast setNotes setNewNote setEditingNote setIsAddingNote setCategories
       setNewCategory await].

Ltac state_simpl_in H :=
  cbn [notes db toasts newNote editingNote categories isAddingNote newCategory
       toast setNotes setNewNote setEditingNote setIsAddingNote setCategories
       setNewCategory await] in H.

(** ** Strings *)

Lemma append_String c s r : String c s +:+ r = String c (s +:+ r).
Proof. reflexivity. Qed.

Lemma truthy_true s : JsString.truthy s = true ↔ s ≠ "".
Proof.
  unfold JsString.truthy. rewrite negb_true_iff. apply String.eqb_neq.
Qed.

Lemma truthy_false s : JsString.truthy s = false ↔ s = "".
Proof.
  unfold JsString.truthy. rewrite negb_false_iff. apply String.eqb_eq.
Qed.

Import JsString.




Lemma includes_empty s : includes s "" = true.
Proof. by destruct s. Qed.

(** Strings and their bytes. *)

Lemma bytes_append a b :
  list_ascii_of_string (a +:+ b) = list_ascii_of_string a ++ list_ascii_of_string b.
Proof.
  induction a as [|c a IH]; [reflexivity|].
  rewrite append_String. cbn [list_ascii_of_string app]. by rewrite IH.
Qed.

(** [strip] stops when there is nothing more to drop, and drops from the
    head only. *)

Section Strip.
Variable count : list ascii → nat.
Hypothesis count_le : ∀ l, count l ≤ length l.

Lemma strip_nil fuel : strip count fuel [] = [].
Proof.
  destruct fuel; [done|]. cbn [strip].
  pose proof (count_le []) as H. cbn in H. by destruct (count []); [|lia].
Qed.

Lemma strip_stops fuel : ∀ l, length l ≤ fuel → count (strip count fuel l) = 0.
Proof.
  induction fuel as [|fuel IH]; intros l Hl; cbn [strip].
  - destruct l; [|cbn in Hl; lia]. pose proof (count_le []) as H. cbn in H. lia.
  - destruct (count l) as [|k] eqn:E; [exact E|].
    apply IH. rewrite length_drop. lia.
Qed.

Lemma strip_id fuel l : count l = 0 → strip count fuel l = l.
Proof. intros H. destruct fuel; [done|]. cbn [strip]. by rewrite H. Qed.

Lemma strip_drop fuel : ∀ l, ∃ k, strip count fuel l = drop k l.
Proof.
  induction fuel as [|fuel IH]; intros l; cbn [strip]; [by exists 0|].
  destruct (count l) as [|k]; [by exists 0|].
  destruct (IH (drop (S k) l)) as [k' ->]. exists (S k + k'). by rewrite drop_drop.
Qed.

Lemma strip_fuel fuel1 : ∀ fuel2 l,
  length l ≤ fuel1 → length l ≤ fuel2 → strip count fuel1 l = strip count fuel2 l.
Proof.
  induction fuel1 as [|fuel1 IH]; intros fuel2 l H1 H2.
  - destruct l; [|cbn in H1; lia]. by rewrite !strip_nil.
  - destruct fuel2 as [|fuel2].
    + destruct l; [|cbn in H2; lia]. by rewrite !strip_nil.
    + cbn [strip]. destruct (count l) as [|k]; [done|].
      apply IH; rewrite length_drop; lia.
Qed.

End Strip.

Lemma isWhiteSpace2_space a : isWhiteSpace2 a 32 = false.
Proof. unfold isWhiteSpace2. apply andb_false_r. Qed.

Lemma isWhiteSpace3_space a b : isWhiteSpace3 a b 32 = false.
Proof.
  unfold isWhiteSpace3.
  destruct (a =? 225)%nat, (a =? 226)%nat, (a =? 227)%nat, (a =? 239)%nat,
           (b =? 154)%nat, (b =? 128)%nat, (b =? 129)%nat, (b =? 187)%nat; reflexivity.
Qed.

Lemma isWhiteSpace2_space_first b : isWhiteSpace2 32 b = false.
Proof. reflexivity. Qed.

Lemma isWhiteSpace3_space_first b c : isWhiteSpace3 32 b c = false.
Proof. reflexivity. Qed.

Lemma whiteSpaceAtStart_le l : whiteSpaceAtStart l ≤ length l.
Proof.
  destruct l as [|a [|b [|c l]]]; cbn [whiteSpaceAtStart length];
    repeat case_match; lia.
Qed.

Lemma whiteSpaceAtEnd_le l : whiteSpaceAtEnd l ≤ length l.
Proof.
  destruct l as [|a [|b [|c l]]]; cbn [whiteSpaceAtEnd length];
    repeat case_match; lia.
Qed.

(** White space at the head of a string is at the head of every string it
    begins. *)
Lemma whiteSpaceAtStart_app l t k :
  whiteSpaceAtStart l = S k → whiteSpaceAtStart (l ++ t) = S k.
Proof.
  destruct l as [|a [|b [|c l]]]; cbn [whiteSpaceAtStart app]; [done| | |done].
  - destruct (isWhiteSpace1 _); [done|]. done.
  - destruct (isWhiteSpace1 _); [done|]. destruct (isWhiteSpace2 _ _); done.
Qed.

Lemma whiteSpaceAtStart_snoc_space l :
  l ≠ [] → whiteSpaceAtStart (l ++ [" "%char]) = whiteSpaceAtStart l.
Proof.
  intros Hl. destruct l as [|a [|b [|c l]]]; [done| | |reflexivity];
    cbn [whiteSpaceAtStart app].
  - change (nat_of_ascii " ") with 32. rewrite isWhiteSpace2_space. reflexivity.
  - change (nat_of_ascii " ") with 32. rewrite isWhiteSpace3_space. reflexivity.
Qed.

Lemma trimStart_stops l : whiteSpaceAtStart (trimStart l) = 0.
Proof. apply strip_stops; [apply whiteSpaceAtStart_le|done]. Qed.

Lemma trimEnd_stops l : whiteSpaceAtEnd (reverse (trimEnd l)) = 0.
Proof.
  unfold trimEnd. rewrite reverse_involutive.
  apply strip_stops; [apply whiteSpaceAtEnd_le|]. by rewrite length_reverse.
Qed.

Lemma trimStart_drop l : ∃ k, trimStart l = drop k l.
Proof. apply strip_drop. Qed.

(** [trimEnd] keeps a prefix. *)
Lemma trimEnd_prefix l : ∃ t, l = trimEnd l ++ t.
Proof.
  unfold trimEnd. destruct (strip_drop whiteSpaceAtEnd (length l) (reverse l)) as [k ->].
  exists (reverse (take k (reverse l))).
  rewrite <- reverse_app, take_drop. by rewrite reverse_involutive.
Qed.

Lemma trimEnd_keeps_start l : whiteSpaceAtStart l = 0 → whiteSpaceAtStart (trimEnd l) = 0.
Proof.
  intros H. destruct (whiteSpaceAtStart (trimEnd l)) as [|k] eqn:E; [done|].
  destruct (trimEnd_prefix l) as [t Ht].
  apply (whiteSpaceAtStart_app _ t) in E. rewrite <- Ht in E. congruence.
Qed.

Lemma trimStart_id l : whiteSpaceAtStart l = 0 → trimStart l = l.
Proof. apply strip_id. Qed.

Lemma trimEnd_id l : whiteSpaceAtEnd (reverse l) = 0 → trimEnd l = l.
Proof.
  intros H. unfold trimEnd. rewrite strip_id by done. apply reverse_involutive.
Qed.

Lemma bytes_trim s :
  list_ascii_of_string (trim s) = trimEnd (trimStart (list_ascii_of_string s)).
Proof. apply list_ascii_of_string_of_list_ascii. Qed.

(** [trim] leaves no white space at either end, and nothing more to trim. *)
Lemma trim_trimmed s : trimmed (trim s).
Proof.
  unfold trimmed. rewrite bytes_trim. split.
  - apply trimEnd_keeps_start, trimStart_stops.
  - apply trimEnd_stops.
Qed.

Lemma trim_id s : trimmed s → trim s = s.
Proof.
  intros [H1 H2]. unfold trim. rewrite trimStart_id, trimEnd_id by done.
  apply string_of_list_ascii_of_string.
Qed.

Lemma trim_idempotent s : trim (trim s) = trim s.
Proof. apply trim_id, trim_trimmed. Qed.

(** A space before or after the text is trimmed away. *)
Lemma trim_after_space s : trim (String " " s) = trim s.
Proof. reflexivity. Qed.

Lemma trimStart_snoc_space fuel : ∀ l,
  S (length l) ≤ fuel →
  strip whiteSpaceAtStart fuel (l ++ [" "%char])
  = match strip whiteSpaceAtStart fuel l with
    | [] => []
    | r => r ++ [" "%char]
    end.
Proof.
  induction fuel as [|fuel IH]; intros l Hl; [lia|].
  destruct l as [|a l].
  - cbn [app]. rewrite (strip_nil _ whiteSpaceAtStart_le).
    cbn [strip]. change (whiteSpaceAtStart [" "%char]) with 1.
    cbn [drop]. apply strip_nil, whiteSpaceAtStart_le.
  - cbn [strip]. rewrite whiteSpaceAtStart_snoc_space by done.
    destruct (whiteSpaceAtStart (a :: l)) as [|k] eqn:E; [done|].
    pose proof (whiteSpaceAtStart_le (a :: l)) as Hk. rewrite E in Hk.
    rewrite drop_app_le by done. apply IH. rewrite length_drop. cbn [length] in *. lia.
Qed.

Lemma trimEnd_snoc_space l : trimEnd (l ++ [" "%char]) = trimEnd l.
Proof.
  unfold trimEnd. rewrite reverse_snoc, length_app. cbn [length].
  rewrite Nat.add_1_r. cbn [strip]. change (whiteSpaceAtEnd (" "%char :: reverse l)) with 1.
  cbn [drop]. rewrite drop_0. reflexivity.
Qed.

Lemma trim_before_space s : trim (s +:+ " ") = trim s.
Proof.
  unfold trim. f_equal. rewrite bytes_append. cbn [list_ascii_of_string].
  unfold trimStart at 1. rewrite length_app. cbn [length].
  rewrite trimStart_snoc_space by lia.
  rewrite (strip_fuel _ whiteSpaceAtStart_le _ (length (list_ascii_of_string s)))
    by lia.
  fold (trimStart (list_ascii_of_string s)).
  destruct (trimStart (list_ascii_of_string s)) as [|c r]; [reflexivity|].
  apply trimEnd_snoc_space.
Qed.

(** ** Dates *)

Section Dates.
Context `{platform : Platform}.
Import JsDate.
Local Open Scope Z_scope.

Lemma checkRange_spec n : forall from x,
  checkRange n from = true -> from <= x < from + Z.of_nat n -> doeCheck x = true.
Proof.
  induction n as [|n IH]; intros from x Hc Hx; [lia|].
  cbn [checkRange] in Hc. apply andb_prop in Hc as [H1 H2].
  destruct (Z.eq_dec x from) as [->|Hne]; [done|].
  apply (IH (from + 1)); [done|lia].
Qed.

Lemma doeCheck_all : checkRange (Z.to_nat 146097) 0 = true.
Proof. vm_compute. reflexivity. Qed.

Lemma doeCheck_true doe : 0 <= doe < 146097 -> doeCheck doe = true.
Proof.
  intros H. apply (checkRange_spec _ 0 doe doeCheck_all). lia.
Qed.

Lemma MakeDay_civilFromDay day :
  let '(y, m, d) := civilFromDay day in
  MakeDay y m d = day /\ 1 <= m <= 12 /\ 1 <= d <= 31 /\
  (day + 719468) / 146097 * 400 <= y <= (day + 719468) / 146097 * 400 + 400.
Proof.
  unfold civilFromDay.
  set (z := day + 719468).
  assert (Hdoe : 0 <= z mod 146097 < 146097) by (apply Z.mod_pos_bound; lia).
  pose proof (doeCheck_true _ Hdoe) as Hc. unfold doeCheck in Hc.
  set (doe := z mod 146097) in *.
  set (era := z / 146097) in *.
  set (yoe := (doe - doe / 1460 + doe / 36524 - doe / 146096) / 365) in *.
  set (doy := doe - (365 * yoe + yoe / 4 - yoe / 100)) in *.
  set (mp := (5 * doy + 2) / 153) in *.
  set (d := doy - (153 * mp + 2) / 5 + 1) in *.
  set (m := if mp <? 10 then mp + 3 else mp - 9) in *.
  cbv zeta in Hc.
  rewrite !andb_true_iff, !Z.leb_le, Z.eqb_eq in Hc.
  destruct Hc as [[[[[[Hy0 Hy1] Hm0] Hm1] Hd0] Hd1] Hback].
  assert (Hy : (if m <=? 2 then (if m <=? 2 then yoe + era * 400 + 1 else yoe + era * 400) - 1
                else (if m <=? 2 then yoe + era * 400 + 1 else yoe + era * 400)) = yoe + era * 400)
    by (destruct (m <=? 2); lia).
  unfold MakeDay. rewrite Hy.
  replace ((yoe + era * 400) / 400) with era by (apply Z.div_unique with yoe; lia).
  replace ((yoe + era * 400) mod 400) with yoe by (apply Z.mod_unique with era; lia).
  split; [|split; [lia|split;[lia|destruct (m <=? 2); lia]]].
  pose proof (Z.div_mod z 146097 ltac:(lia)) as Hz. fold doe era in Hz.
  lia.
Qed.

Lemma digit_cases (Q : Z → Prop) n :
  0 <= n <= 9 → (∀ k : nat, (k < 10)%nat → Q (Z.of_nat k)) → Q n.
Proof.
  intros H Hk. rewrite <- (Z2Nat.id n) by lia. apply Hk. lia.
Qed.

Lemma digitValue_digitChar n : 0 <= n <= 9 -> digitValue (digitChar n) = Some n.
Proof.
  intros H. apply (digit_cases (λ n, digitValue (digitChar n) = Some n) n H).
  intros k Hk. do 10 (destruct k as [|k]; [reflexivity|]). lia.
Qed.

Lemma digitChar_not_sign n c :
  0 <= n <= 9 -> c = "+"%char \/ c = "-"%char -> Ascii.eqb (digitChar n) c = false.
Proof.
  intros H Hc. apply (digit_cases (λ n, Ascii.eqb (digitChar n) c = false) n H).
  intros k Hk. destruct Hc as [-> | ->];
    do 10 (destruct k as [|k]; [reflexivity|]); lia.
Qed.

Lemma readDigits_S w c s acc :
  readDigits (S w) (String c s) acc = digitValue c ≫= λ v, readDigits w s (acc * 10 + v).
Proof. reflexivity. Qed.

Lemma readDigits_pad w : forall n rest acc,
  0 <= n ->
  readDigits w (pad w n +:+ rest) acc = Some (acc * 10 ^ Z.of_nat w + n mod 10 ^ Z.of_nat w, rest).
Proof.
  induction w as [|w IH]; intros n rest acc Hn.
  - cbn. f_equal. f_equal. rewrite Z.mod_1_r. lia.
  - cbn [pad]. rewrite append_String, readDigits_S.
    assert (Hp : 0 < 10 ^ Z.of_nat w) by (apply Z.pow_pos_nonneg; lia).
    rewrite digitValue_digitChar by (pose proof (Z.mod_pos_bound (n / 10 ^ Z.of_nat w) 10); lia).
    cbn [mbind option_bind]. rewrite IH by done. f_equal. f_equal.
    rewrite Nat2Z.inj_succ, Z.pow_succ_r by lia.
    rewrite (Z.mul_comm 10), Z.rem_mul_r by lia. lia.
Qed.

Lemma readDigits_pad_small w n rest :
  0 <= n < 10 ^ Z.of_nat w ->
  readDigits w (pad w n +:+ rest) 0 = Some (n, rest).
Proof.
  intros H. rewrite readDigits_pad by lia. rewrite Z.mod_small by lia. reflexivity.
Qed.

Lemma readYear_yearString y rest :
  Z.abs y < 1000000 ->
  readYear (yearString y +:+ rest) = Some (y, rest).
Proof.
  intros Hy. unfold yearString.
  destruct ((0 <=? y) && (y <=? 9999)) eqn:E.
  - apply andb_prop in E as [E1%Z.leb_le E2%Z.leb_le].
    assert (Hd : 0 <= y / 10 ^ Z.of_nat 3 mod 10 <= 9)
      by (pose proof (Z.mod_pos_bound (y / 10 ^ Z.of_nat 3) 10); lia).
    pose proof (readDigits_pad_small 4 y rest ltac:(simpl; lia)) as Hr.
    remember 4%nat as four. unfold readYear.
    rewrite Heqfour in *. cbn [pad] in *. rewrite append_String in *.
    rewrite !digitChar_not_sign by (auto || lia). exact Hr.
  - unfold readYear. rewrite append_String.
    destruct (y <? 0) eqn:E2.
    + apply Z.ltb_lt in E2. cbn [Ascii.eqb Bool.eqb]. 
      rewrite readDigits_pad_small by (simpl; lia). cbn. f_equal. f_equal. lia.
    + apply Z.ltb_ge in E2. cbn [Ascii.eqb Bool.eqb].
      rewrite readDigits_pad_small by (simpl; lia). cbn. f_equal. f_equal. lia.
Qed.

Ltac pow10_bound :=
  match goal with
  | |- context [10 ^ Z.of_nat ?w] =>
      let v := eval vm_compute in (10 ^ Z.of_nat w) in
      change (10 ^ Z.of_nat w) with v
  end; Z.to_euclidean_division_equations; lia.

Lemma expect_String c s : expect c (String c s) = Some s.
Proof. unfold expect. rewrite Ascii.eqb_refl. reflexivity. Qed.

Lemma parseISO_toISOString time :
  Z.abs time <= maxTime -> parseISO (toISOString time) = Some time.
Proof.
  intros Ht. unfold toISOString.
  pose proof (MakeDay_civilFromDay (Day time)) as Hc.
  destruct (civilFromDay (Day time)) as [[y m] d].
  destruct Hc as (Hday & Hm & Hd & Hy).
  assert (Htod : 0 <= TimeWithinDay time < msPerDay)
    by (apply Z.mod_pos_bound; reflexivity).
  pose proof (Z.div_mod time msPerDay ltac:(discriminate)) as Hdm.
  fold (Day time) (TimeWithinDay time) in Hdm.
  set (tod := TimeWithinDay time) in *.
  assert (Hyear : Z.abs y < 1000000).
  { unfold Day, msPerDay, maxTime in *. 
    pose proof (Z.div_mod (time / 86400000 + 719468) 146097 ltac:(lia)).
    pose proof (Z.mod_pos_bound (time / 86400000 + 719468) 146097 ltac:(lia)).
    lia. }
  unfold parseISO, msPerDay in *.
  rewrite readYear_yearString by done. cbn [mbind option_bind].
  rewrite expect_String. cbn [mbind option_bind].
  rewrite readDigits_pad_small by pow10_bound. cbn [mbind option_bind].
  rewrite expect_String. cbn [mbind option_bind].
  rewrite readDigits_pad_small by pow10_bound. cbn [mbind option_bind].
  rewrite expect_String. cbn [mbind option_bind].
  rewrite readDigits_pad_small by pow10_bound. cbn [mbind option_bind].
  rewrite expect_String. cbn [mbind option_bind].
  rewrite readDigits_pad_small by pow10_bound. cbn [mbind option_bind].
  rewrite expect_String. cbn [mbind option_bind].
  rewrite readDigits_pad_small by pow10_bound. cbn [mbind option_bind].
  rewrite expect_String. cbn [mbind option_bind].
  rewrite readDigits_pad_small by pow10_bound. cbn [mbind option_bind].
  rewrite expect_String. cbn [mbind option_bind].
  f_equal. rewrite Hday. unfold MakeTime. clearbody tod. Z.to_euclidean_division_equations. lia.
Qed.

Lemma Date_parse_toISOString time :
  Z.abs time <= maxTime -> Date_parse (toISOString time) = ValidDate time.
Proof.
  intros Ht. unfold Date_parse. rewrite parseISO_toISOString by done.
  rewrite String.eqb_refl. unfold TimeClip.
  apply Z.leb_le in Ht. rewrite Ht. reflexivity.
Qed.

Lemma newDate_toJSON d : isValid d = true -> newDate (toJSON d) = d.
Proof.
  destruct d as [time|]; [|discriminate]. cbn. intros Ht%Z.leb_le.
  apply Date_parse_toISOString. done.
Qed.

End Dates.

(** ** Notes lists *)

Lemma find_id_Some id l n :
  List.find (λ note, String.eqb (Note.id note) id) l = Some n →
  n ∈ l ∧ Note.id n = id.
Proof.
  intros H. apply find_some in H as [H1 H2].
  split; [by apply list_elem_of_In|by apply String.eqb_eq].
Qed.

Lemma find_id_None id l :
  List.find (λ note, String.eqb (Note.id note) id) l = None →
  id ∉ map Note.id l.
Proof.
  intros H Hin. apply list_elem_of_fmap in Hin as (n & -> & Hn).
  apply list_elem_of_In in Hn.
  pose proof (find_none _ _ H _ Hn) as Hf. cbn in Hf.
  rewrite String.eqb_refl in Hf. discriminate.
Qed.

Lemma replaceById_absent id u l : id ∉ map Note.id l → replaceById id u l = l.
Proof.
  induction l as [|m l IH]; [done|]. cbn. intros H.
  apply not_elem_of_cons in H as [H1 H2].
  destruct (String.eqb_spec (Note.id m) id) as [E|E]; [congruence|].
  f_equal. apply IH, H2.
Qed.

Lemma pinnedCount_cons n l :
  pinnedCount (n :: l) = (if Note.isPinned n then 1 else 0) + pinnedCount l.
Proof. unfold pinnedCount. cbn. destruct (Note.isPinned n); reflexivity. Qed.

Lemma pinnedCount_app l1 l2 : pinnedCount (l1 ++ l2) = pinnedCount l1 + pinnedCount l2.
Proof. unfold pinnedCount. rewrite List.filter_app, length_app. reflexivity. Qed.

Lemma pinnedCount_filter f l : pinnedCount (List.filter f l) ≤ pinnedCount l.
Proof.
  induction l as [|n l IH]; [done|]. cbn [List.filter].
  destruct (f n); rewrite !pinnedCount_cons; lia.
Qed.

(** With distinct ids, replacing by id swaps one note for another. *)
Lemma pinnedCount_replaceById id u l n :
  NoDup (map Note.id l) → n ∈ l → Note.id n = id →
  pinnedCount (replaceById id u l) + (if Note.isPinned n then 1 else 0)
  = pinnedCount l + (if Note.isPinned u then 1 else 0).
Proof.
  induction l as [|m l IH]; intros Hnd Hin Hid; [by apply elem_of_nil in Hin|].
  cbn in Hnd. apply NoDup_cons in Hnd as [Hm Hnd].
  change (replaceById id u (m :: l))
    with ((if String.eqb (Note.id m) id then u else m) :: replaceById id u l).
  destruct (String.eqb_spec (Note.id m) id) as [E|E].
  - rewrite replaceById_absent by congruence.
    apply elem_of_cons in Hin as [->|Hin].
    + rewrite !pinnedCount_cons. lia.
    + exfalso. apply Hm. rewrite E, <- Hid. by apply list_elem_of_fmap_2.
  - apply elem_of_cons in Hin as [->|Hin]; [congruence|].
    rewrite !pinnedCount_cons. specialize (IH Hnd Hin Hid). lia.
Qed.

(** Replacing by a note that agrees on [isPinned] with every note it replaces. *)
Lemma pinnedCount_replaceById_same id u l :
  (∀ n, n ∈ l → Note.id n = id → Note.isPinned n = Note.isPinned u) →
  pinnedCount (replaceById id u l) = pinnedCount l.
Proof.
  induction l as [|m l IH]; intros H; [done|].
  change (replaceById id u (m :: l))
    with ((if String.eqb (Note.id m) id then u else m) :: replaceById id u l).
  rewrite !pinnedCount_cons, IH by (intros; apply H; [set_solver|done]).
  destruct (String.eqb_spec (Note.id m) id) as [E|E]; [|reflexivity].
  rewrite (H m); [reflexivity|set_solver|done].
Qed.

Lemma replaceById_Forall2 id u l n :
  NoDup (map Note.id l) → n ∈ l → Note.id n = id →
  Forall2 (λ old new, (Note.id old ≠ id → new = old) ∧ (Note.id old = id → old = n ∧ new = u))
          l (replaceById id u l).
Proof.
  intros Hnd Hin Hid. apply Forall2_fmap_r, Forall_Forall2_diag, Forall_forall.
  intros m Hm. split.
  - intros E. apply String.eqb_neq in E. rewrite E. reflexivity.
  - intros E. rewrite (proj2 (String.eqb_eq _ _) E). split; [|reflexivity].
    apply list_elem_of_lookup in Hm as [i Hi]. apply list_elem_of_lookup in Hin as [j Hj].
    assert (i = j).
    { eapply NoDup_lookup; [exact Hnd| |]; rewrite list_lookup_fmap.
      - rewrite Hi. reflexivity.
      - rewrite Hj. cbn. congruence. }
    congruence.
Qed.

(** ** The pin limit *)

Lemma togglePinNote_refuses id st note :
  List.find (λ n, String.eqb (Note.id n) id) (notes st) = Some note →
  Note.isPinned note = false → 3 ≤ pinnedCount (notes st) →
  togglePinNote id st = toast toast_error "You can only pin up to 3 notes 📌" st.
Proof.
  intros Hf Hp Hc. unfold togglePinNote. rewrite Hf, Hp.
  apply Nat.leb_le in Hc. rewrite Hc. reflexivity.
Qed.

Lemma togglePinNote_pinnedCount id st :
  NoDup (map Note.id (notes st)) → pinnedCount (notes st) ≤ 3 →
  pinnedCount (notes (togglePinNote id st)) ≤ 3.
Proof.
  intros Hnd Hc. unfold togglePinNote.
  destruct (List.find _ (notes st)) as [n|] eqn:Hf; [|done].
  destruct (find_id_Some _ _ _ Hf) as [Hin Hid].
  destruct (negb (Note.isPinned n) && (3 <=? pinnedCount (notes st))) eqn:Hg; [done|].
  set (u := Note.with_isPinned (negb (Note.isPinned n)) n).
  assert (Hn : pinnedCount (replaceById id u (notes st)) ≤ 3).
  { pose proof (pinnedCount_replaceById id u _ n Hnd Hin Hid) as He.
    apply andb_false_iff in Hg. rewrite negb_false_iff, Nat.leb_gt in Hg.
    subst u. cbn [Note.with_isPinned Note.isPinned] in He.
    destruct (Note.isPinned n); simpl in He |- *; [lia|].
    destruct Hg as [?|Hg]; [done|lia]. }
  destruct (Note.isPinned u); exact Hn.
Qed.

Lemma toggleArchiveNote_pinnedCount id st :
  NoDup (map Note.id (notes st)) →
  pinnedCount (notes (toggleArchiveNote id st)) = pinnedCount (notes st).
Proof.
  intros Hnd. unfold toggleArchiveNote.
  destruct (List.find _ (notes st)) as [n|] eqn:Hf; [|done].
  destruct (find_id_Some _ _ _ Hf) as [Hin Hid].
  set (u := Note.with_isArchived (negb (Note.isArchived n)) n).
  pose proof (pinnedCount_replaceById id u _ n Hnd Hin Hid) as He.
  assert (Hn : pinnedCount (replaceById id u (notes st)) = pinnedCount (notes st))
    by (subst u; cbn [Note.with_isArchived Note.isPinned] in He; lia).
  destruct (Note.isArchived u); exact Hn.
Qed.

Lemma handleTagChange_pinnedCount tags noteId st :
  NoDup (map Note.id (notes st)) →
  pinnedCount (notes (handleTagChange tags noteId st)) = pinnedCount (notes st).
Proof.
  intros Hnd. unfold handleTagChange.
  destruct noteId as [id|]; [|done].
  destruct (JsString.truthy id); [|done].
  destruct (List.find _ (notes st)) as [n|] eqn:Hf; [|done].
  destruct (find_id_Some _ _ _ Hf) as [Hin Hid].
  pose proof (pinnedCount_replaceById id (Note.with_tags (normalizeTags tags) n) _ n Hnd Hin Hid) as He.
  cbn [Note.with_tags Note.isPinned] in He.
  change (pinnedCount (replaceById id (Note.with_tags (normalizeTags tags) n) (notes st))
          = pinnedCount (notes st)).
  lia.
Qed.

Lemma addNote_pinnedCount now stamp st :
  pinnedCount (notes (addNote now stamp st)) = pinnedCount (notes st).
Proof.
  unfold addNote. destruct (_ && _); [|done].
  state_simpl. rewrite pinnedCount_app, pinnedCount_cons. cbn. lia.
Qed.

Lemma deleteNote_pinnedCount id st :
  pinnedCount (notes (deleteNote id st)) ≤ pinnedCount (notes st).
Proof. unfold deleteNote. state_simpl. apply pinnedCount_filter. Qed.

Lemma updateNote_pinnedCount now st :
  (∀ editing n, editingNote st = Some editing → n ∈ notes st →
     Note.id n = Note.id editing → Note.isPinned n = Note.isPinned editing) →
  pinnedCount (notes (updateNote now st)) = pinnedCount (notes st).
Proof.
  intros H. unfold updateNote. destruct (editingNote st) as [e|]; [|done].
  state_simpl. apply pinnedCount_replaceById_same. intros n Hn Hid. cbn. eauto.
Qed.

(** C1, as amended.  From a state with at most 3 pinned notes: [addNote] and
    [deleteNote] leave at most 3 pinned; so do [togglePinNote],
    [toggleArchiveNote] and [handleTagChange] when the ids of the notes are
    pairwise distinct; so does [updateNote] when the copy being edited agrees
    on [isPinned] with the notes it replaces.  [togglePinNote] on an unpinned
    note while 3 or more are pinned leaves the notes and the database as they
    are.  ([importNotes] is not among them: it checks no pin count.) *)
Theorem pin_limit_preserved (st : State) :
  pinnedCount (notes st) ≤ 3 →
  (∀ now stamp, pinnedCount (notes (addNote now stamp st)) ≤ 3) ∧
  (∀ id, pinnedCount (notes (deleteNote id st)) ≤ 3) ∧
  (NoDup (map Note.id (notes st)) →
     (∀ id, pinnedCount (notes (togglePinNote id st)) ≤ 3) ∧
     (∀ id, pinnedCount (notes (toggleArchiveNote id st)) ≤ 3) ∧
     (∀ tags noteId, pinnedCount (notes (handleTagChange tags noteId st)) ≤ 3)) ∧
  (∀ now,
     (∀ editing n, editingNote st = Some editing → n ∈ notes st →
        Note.id n = Note.id editing → Note.isPinned n = Note.isPinned editing) →
     pinnedCount (notes (updateNote now st)) ≤ 3) ∧
  (∀ id note,
     List.find (λ n, String.eqb (Note.id n) id) (notes st) = Some note →
     Note.isPinned note = false → 3 ≤ pinnedCount (notes st) →
     notes (togglePinNote id st) = notes st ∧ db (togglePinNote id st) = db st).
Proof.
  intros Hc. repeat split.
  - intros. rewrite addNote_pinnedCount. done.
  - intros. pose proof (deleteNote_pinnedCount id st). lia.
  - intros. by apply togglePinNote_pinnedCount.
  - intros. rewrite toggleArchiveNote_pinnedCount; done.
  - intros. rewrite handleTagChange_pinnedCount; done.
  - intros. rewrite updateNote_pinnedCount; done.
  - erewrite togglePinNote_refuses; done.
  - erewrite togglePinNote_refuses; done.
Qed.

(** C1 as stated fails for [importNotes]: importing a backup with four
    pinned notes into a state with none leaves four notes pinned, on every
    platform. *)
Lemma importNotes_exceeds_pin_limit :
  pinnedCount (notes initialState) ≤ 3 ∧
  ∀ platform : Platform,
    ¬ pinnedCount (notes (importNotes (Some fourPinned) initialState)) ≤ 3.
Proof. split; [vm_compute; lia|]. intros platform. vm_compute. lia. Qed.

(** Why the ids must be distinct: pinning one of two notes with the same id
    pins both. *)
Example togglePinNote_pins_both_twins :
  pinnedCount (notes (stateOf twinNotes)) = 2 ∧
  pinnedCount (notes (togglePinNote "7" (stateOf twinNotes))) = 4.
Proof. vm_compute. split; reflexivity. Qed.

(** Why the edited copy must agree on [isPinned]: saving a copy that says
    "pinned" pins a fourth note. *)
Example updateNote_restores_stale_pin :
  pinnedCount (notes staleEdit) = 3 ∧
  pinnedCount (notes (updateNote 5000 staleEdit)) = 4.
Proof. vm_compute. split; reflexivity. Qed.

Lemma threePinned_NoDup : NoDup (map Note.id (notes (stateOf threePinned))).
Proof. apply (bool_decide_unpack _). vm_compute. reflexivity. Qed.

Lemma pin_limit_preserved_witness :
  pinnedCount (notes (stateOf threePinned)) ≤ 3 ∧
  pinnedCount (notes (togglePinNote "1" (stateOf threePinned))) ≤ 3 ∧
  notes (togglePinNote "4" (stateOf threePinned)) = notes (stateOf threePinned).
Proof.
  assert (H : pinnedCount (notes (stateOf threePinned)) ≤ 3) by (vm_compute; lia).
  destruct (pin_limit_preserved (stateOf threePinned) H) as (_ & _ & H3 & _ & H5).
  split; [exact H|]. split.
  - apply (H3 threePinned_NoDup).
  - apply (H5 "4" (plainNote "4" "fourth" (JsDate.ValidDate 4000) false)).
    + vm_compute. reflexivity.
    + reflexivity.
    + vm_compute. lia.
Defined.

(** ** What the toggles and the tag editor leave alone *)

Lemma Forall2_same_notes (P : Note → Note → Prop) (l : list Note) :
  (∀ n, P n n) → Forall2 P l l.
Proof. intros H. apply Forall_Forall2_diag, Forall_forall. auto. Qed.

Lemma replaceById_frame (P : Note → Note → Prop) id u l n :
  NoDup (map Note.id l) → n ∈ l → Note.id n = id →
  (∀ m, P m m) → P n u →
  Forall2 (λ old new, (Note.id old ≠ id → new = old) ∧ P old new) l (replaceById id u l).
Proof.
  intros Hnd Hin Hid Hrefl Hu.
  eapply Forall2_impl; [apply (replaceById_Forall2 id u l n); done|].
  intros old new [H1 H2]. split; [done|].
  destruct (decide (Note.id old = id)) as [E|E].
  - destruct (H2 E) as [-> ->]. done.
  - rewrite (H1 E). done.
Qed.

Lemma togglePinNote_frame id st :
  NoDup (map Note.id (notes st)) →
  Forall2 (λ old new, (Note.id old ≠ id → new = old) ∧ onlyPinChanged old new)
          (notes st) (notes (togglePinNote id st)).
Proof.
  intros Hnd.
  assert (Hrefl : ∀ m, onlyPinChanged m m) by (by intros []).
  unfold togglePinNote.
  destruct (List.find _ (notes st)) as [n|] eqn:Hf;
    [|apply Forall2_same_notes; done].
  destruct (find_id_Some _ _ _ Hf) as [Hin Hid].
  destruct (negb (Note.isPinned n) && _);
    [apply Forall2_same_notes; done|].
  set (u := Note.with_isPinned (negb (Note.isPinned n)) n).
  assert (Hu : onlyPinChanged n u) by reflexivity.
  destruct (Note.isPinned u); state_simpl; by apply (replaceById_frame _ id u _ n).
Qed.

Lemma toggleArchiveNote_frame id st :
  NoDup (map Note.id (notes st)) →
  Forall2 (λ old new, (Note.id old ≠ id → new = old) ∧ onlyArchiveChanged old new)
          (notes st) (notes (toggleArchiveNote id st)).
Proof.
  intros Hnd.
  assert (Hrefl : ∀ m, onlyArchiveChanged m m) by (by intros []).
  unfold toggleArchiveNote.
  destruct (List.find _ (notes st)) as [n|] eqn:Hf;
    [|apply Forall2_same_notes; done].
  destruct (find_id_Some _ _ _ Hf) as [Hin Hid].
  set (u := Note.with_isArchived (negb (Note.isArchived n)) n).
  assert (Hu : onlyArchiveChanged n u) by reflexivity.
  destruct (Note.isArchived u); state_simpl; by apply (replaceById_frame _ id u _ n).
Qed.

Lemma handleTagChange_frame tags noteId st :
  NoDup (map Note.id (notes st)) →
  Forall2 (λ old new, (Some (Note.id old) ≠ noteId → new = old) ∧ onlyTagsChanged old new)
          (notes st) (notes (handleTagChange tags noteId st)).
Proof.
  intros Hnd.
  assert (Hrefl : ∀ m, onlyTagsChanged m m) by (by intros []).
  unfold handleTagChange.
  destruct noteId as [id|]; [|apply Forall2_same_notes; done].
  destruct (JsString.truthy id); [|apply Forall2_same_notes; done].
  destruct (List.find _ (notes st)) as [n|] eqn:Hf;
    [|apply Forall2_same_notes; done].
  destruct (find_id_Some _ _ _ Hf) as [Hin Hid].
  state_simpl.
  eapply Forall2_impl;
    [apply (replaceById_frame onlyTagsChanged id _ _ n); done|].
  intros old new [H1 H2]. split; [|done]. intros Hne. apply H1. congruence.
Qed.

Lemma deleteCategory_notes categoryName st :
  Forall2 (λ old new,
             (Note.category old ≠ categoryName → new = old) ∧
             (Note.category old = categoryName → Note.category new = "Uncategorized") ∧
             onlyCategoryChanged old new)
          (notes st) (notes (deleteCategory categoryName st)).
Proof.
  unfold deleteCategory. state_simpl.
  apply Forall2_fmap_r, Forall_Forall2_diag, Forall_forall. intros n _.
  cbv [compose]. cbn beta.
  destruct (decide (Note.category n = categoryName)) as [E|E].
  - rewrite (proj2 (String.eqb_eq _ _) E). split; [done|]. split; [done|]. reflexivity.
  - rewrite (proj2 (String.eqb_neq _ _) E). split; [done|]. split; [done|]. by destruct n.
Qed.

Lemma updateNote_updatedAt now st editing note :
  editingNote st = Some editing →
  note ∈ notes (updateNote now st) → Note.id note = Note.id editing →
  note = Note.with_updatedAt (JsDate.ValidDate now) editing.
Proof.
  intros He Hin Hid. unfold updateNote in Hin. rewrite He in Hin.
  state_simpl_in Hin. unfold replaceById in Hin.
  apply list_elem_of_fmap in Hin as (m & -> & Hm).
  destruct (decide (Note.id m = Note.id editing)) as [E|E].
  - rewrite (proj2 (String.eqb_eq _ _) E). reflexivity.
  - rewrite (proj2 (String.eqb_neq _ _) E) in Hid. done.
Qed.

Lemma Forall2_same_field {B} (f : Note → B) (P : Note → Note → Prop) l l' :
  (∀ old new, P old new → f new = f old) → Forall2 P l l' → map f l' = map f l.
Proof.
  intros HP H. induction H as [|old new l l' Hh Ht IH]; [done|].
  cbn. rewrite IH, (HP old new); done.
Qed.

(** ** Adding a note *)

Lemma find_name_first name pre cat post :
  Category.name cat = name →
  (∀ c, c ∈ pre → Category.name c ≠ name) →
  List.find (λ c, String.eqb (Category.name c) name) (pre ++ cat :: post) = Some cat.
Proof.
  intros Hc Hpre. induction pre as [|c pre IH]; cbn.
  - rewrite (proj2 (String.eqb_eq _ _) Hc). reflexivity.
  - rewrite (proj2 (String.eqb_neq _ _) (Hpre c ltac:(set_solver))).
    apply IH. intros. apply Hpre. set_solver.
Qed.

Lemma find_name_none name l :
  (∀ c, c ∈ l → Category.name c ≠ name) →
  List.find (λ c, String.eqb (Category.name c) name) l = None.
Proof.
  intros H. induction l as [|c l IH]; cbn; [done|].
  rewrite (proj2 (String.eqb_neq _ _) (H c ltac:(set_solver))).
  apply IH. intros. apply H. set_solver.
Qed.

Lemma requiredFilled_truthy draft :
  JsString.truthy (NewNote.title draft) && JsString.truthy (NewNote.content draft)
    && JsString.truthy (NewNote.category draft) = true ↔ requiredFilled draft.
Proof.
  unfold requiredFilled. rewrite !andb_true_iff, !truthy_true. tauto.
Qed.

(** C5, as amended.  [addNote] adds a note exactly when the draft's title,
    content and category are all non-empty.  Otherwise it shows the one error
    toast and leaves the notes and the database as they are.  When it adds,
    it appends one note that is neither pinned nor archived, whose
    [createdAt] is its [updatedAt], and whose colour is that of the first
    category of the draft's name if that colour is not empty, and '#CCCCCC'
    if it is empty or there is no such category. *)
Theorem addNote_adds_iff_required_filled (now stamp : Z) (st : State) :
  let draft := newNote st in
  let st' := addNote now stamp st in
  (requiredFilled draft →
     ∃ note,
       notes st' = notes st ++ [note] ∧
       Note.isPinned note = false ∧ Note.isArchived note = false ∧
       Note.createdAt note = Note.updatedAt note ∧
       Note.title note = NewNote.title draft ∧
       Note.content note = NewNote.content draft ∧
       Note.category note = NewNote.category draft ∧
       Note.tags note = NewNote.tags draft ∧
       (∀ pre cat post,
          categories st = pre ++ cat :: post →
          Category.name cat = NewNote.category draft →
          (∀ c, c ∈ pre → Category.name c ≠ NewNote.category draft) →
          Note.color note =
            if decide (Category.color cat = "") then "#CCCCCC" else Category.color cat) ∧
       ((∀ c, c ∈ categories st → Category.name c ≠ NewNote.category draft) →
          Note.color note = "#CCCCCC")) ∧
  (¬ requiredFilled draft →
     notes st' = notes st ∧ db st' = db st ∧
     toasts st' = toasts st ++ [(toast_error, "Please fill in all required fields 🙏")]).
Proof.
  intros draft st'. subst st'. unfold addNote. fold draft. split.
  - intros Hreq. rewrite (proj2 (requiredFilled_truthy draft) Hreq).
    eexists. state_simpl. split; [reflexivity|].
    cbn [Note.isPinned Note.isArchived Note.createdAt Note.updatedAt Note.title
         Note.content Note.category Note.tags Note.color].
    repeat (split; [reflexivity|]). split.
    + intros pre cat post Hcats Hname Hpre.
      rewrite Hcats, (find_name_first _ pre cat post) by done.
      destruct (decide (Category.color cat = "")) as [E|E].
      * rewrite (proj2 (truthy_false _) E). reflexivity.
      * rewrite (proj2 (truthy_true _) E). reflexivity.
    + intros Hnone. rewrite find_name_none by done. reflexivity.
  - intros Hreq. rewrite <- requiredFilled_truthy, not_true_iff_false in Hreq.
    rewrite Hreq. done.
Qed.

(** C5 as stated fails where the matching category has an empty colour: the
    note gets '#CCCCCC', not the category's colour. *)
Lemma addNote_falls_back_on_empty_color :
  requiredFilled (newNote colourlessState) ∧
  categories colourlessState = [Category.mk "Errands" ""] ∧
  Note.color <$> last (notes (addNote 1730615700123 1730615700124 colourlessState))
    = Some "#CCCCCC".
Proof. vm_compute. repeat split; congruence. Qed.

(** ** Deleting a category *)

(** C8.  [deleteCategory name] keeps exactly the categories of another name,
    in order, and adds none; removes the record under [name] from the
    categories store and no other; and maps the notes position by position:
    a note of category [name] gets the category 'Uncategorized' and keeps
    every other field, a note of another category is unchanged. *)
Theorem deleteCategory_reassigns (categoryName : string) (st : State) :
  let st' := deleteCategory categoryName st in
  categories st' =
    List.filter (λ cat, negb (String.eqb (Category.name cat) categoryName)) (categories st) ∧
  (∀ cat, cat ∈ categories st' ↔ cat ∈ categories st ∧ Category.name cat ≠ categoryName) ∧
  categoriesRecords (db st') !! categoryName = None ∧
  (∀ key, key ≠ categoryName →
     categoriesRecords (db st') !! key = categoriesRecords (db st) !! key) ∧
  Forall2 (λ old new,
             (Note.category old ≠ categoryName → new = old) ∧
             (Note.category old = categoryName → Note.category new = "Uncategorized") ∧
             onlyCategoryChanged old new)
          (notes st) (notes st').
Proof.
  intros st'. split; [reflexivity|]. split; [|split; [|split]].
  - intros cat. subst st'. unfold deleteCategory. state_simpl.
    rewrite list_elem_of_In, filter_In, <- list_elem_of_In, negb_true_iff, String.eqb_neq.
    reflexivity.
  - apply lookup_delete_eq.
  - intros key Hne. subst st'. unfold deleteCategory. state_simpl.
    apply lookup_delete_ne. done.
  - apply deleteCategory_notes.
Qed.

(** ** The tag list *)

Lemma Set_add_elem x y s : x ∈ Set_add y s ↔ x ∈ s ∨ x = y.
Proof.
  unfold Set_add. case_bool_decide as H.
  - split; [auto|]. intros [?| ->]; done.
  - rewrite elem_of_app, list_elem_of_singleton. reflexivity.
Qed.

Lemma Set_add_NoDup y s : NoDup s → NoDup (Set_add y s).
Proof.
  intros Hs. unfold Set_add. case_bool_decide as H; [done|].
  apply NoDup_app. split; [done|]. split; [|apply NoDup_singleton].
  intros x Hx ->%list_elem_of_singleton. done.
Qed.

Lemma addTags_spec ts : ∀ s,
  NoDup s →
  NoDup (foldl (λ tags tag, Set_add tag tags) s ts) ∧
  ∀ x, x ∈ foldl (λ tags tag, Set_add tag tags) s ts ↔ x ∈ s ∨ x ∈ ts.
Proof.
  induction ts as [|t ts IH]; intros s Hs; cbn [foldl].
  - split; [done|]. intros x. rewrite elem_of_nil. tauto.
  - destruct (IH (Set_add t s) (Set_add_NoDup t s Hs)) as [H1 H2].
    split; [done|]. intros x. rewrite H2, Set_add_elem, elem_of_cons. tauto.
Qed.

Lemma allTags_from_spec l : ∀ s,
  NoDup s →
  let out := foldl (λ tags note, foldl (λ tags tag, Set_add tag tags) tags (Note.tags note)) s l in
  NoDup out ∧ ∀ x, x ∈ out ↔ x ∈ s ∨ ∃ note, note ∈ l ∧ x ∈ Note.tags note.
Proof.
  induction l as [|n l IH]; intros s Hs; cbn [foldl].
  - split; [done|]. intros x. split; [auto|]. intros [?|(note & H & _)]; [done|].
    by apply elem_of_nil in H.
  - destruct (addTags_spec (Note.tags n) s Hs) as [H1 H2].
    destruct (IH _ H1) as [H3 H4]. split; [done|].
    intros x. rewrite H4, H2. split.
    + intros [[?|?]|(note & ? & ?)]; [by left|right; exists n|right; exists note];
        (split; [apply elem_of_cons; auto|done]).
    + intros [?|(note & [->|?]%elem_of_cons & ?)]; [by left; left|by left; right|].
      right. by exists note.
Qed.

(** C7.  [allTags] has no duplicates, and a string is in it exactly when it
    is a tag of some note of the list (archived or not). *)
Theorem allTags_is_duplicate_free_union (notes : list Note) :
  NoDup (allTags notes) ∧
  ∀ tag, tag ∈ allTags notes ↔ ∃ note, note ∈ notes ∧ tag ∈ Note.tags note.
Proof.
  destruct (allTags_from_spec notes [] (NoDup_nil_2)) as [H1 H2].
  split; [done|]. intros tag. unfold allTags. rewrite H2.
  split; [|by right]. intros [H|H]; [by apply elem_of_nil in H|done].
Qed.

(** ** Normalised tags *)

Lemma normalizeTags_trim_then_drop tags :
  normalizeTags tags =
  List.filter (λ tag, negb (String.eqb tag "")) (map JsString.trim tags).
Proof.
  unfold normalizeTags. induction tags as [|t tags IH]; [done|].
  cbn [List.filter map]. destruct (negb (String.eqb (JsString.trim t) "")); cbn [map];
    rewrite IH; reflexivity.
Qed.

Lemma normalizeTags_Forall tags :
  Forall (λ tag, tag ≠ "" ∧ JsString.trim tag = tag ∧ trimmed tag) (normalizeTags tags).
Proof.
  rewrite normalizeTags_trim_then_drop. apply Forall_forall. intros x Hx.
  rewrite list_elem_of_In, filter_In, <- list_elem_of_In, negb_true_iff, String.eqb_neq in Hx.
  destruct Hx as [Hx Hne]. apply list_elem_of_fmap in Hx as (t & -> & _).
  split; [done|]. split; [apply trim_idempotent|apply trim_trimmed].
Qed.

(** C10.  The tags [handleTagChange] writes are the input with each element
    trimmed and the elements that trim to the empty string removed, in
    order; each of them is non-empty and has no white space at either end.
    With the id of a listed note it writes them to the first note of that
    id: the copy of that note with these tags replaces the listed notes of
    the id and is stored under the id, and the draft is left alone.  With
    an id that is not listed it changes nothing.  With no id, or the empty
    one, it writes them to the draft and leaves the notes and the database
    alone. *)
Theorem handleTagChange_stores_normalized_tags (tags : list string)
    (noteId : option string) (st : State) :
  let updatedTags := normalizeTags tags in
  let st' := handleTagChange tags noteId st in
  updatedTags = List.filter (λ tag, negb (String.eqb tag "")) (map JsString.trim tags) ∧
  Forall (λ tag, tag ≠ "" ∧ JsString.trim tag = tag ∧ trimmed tag) updatedTags ∧
  (∀ id noteToUpdate,
     noteId = Some id → id ≠ "" →
     List.find (λ note, String.eqb (Note.id note) id) (notes st) = Some noteToUpdate →
     notes st' = replaceById id (Note.with_tags updatedTags noteToUpdate) (notes st) ∧
     notesRecords (db st')
       = <[id := Note.with_tags updatedTags noteToUpdate]> (notesRecords (db st)) ∧
     categoriesRecords (db st') = categoriesRecords (db st) ∧
     newNote st' = newNote st ∧
     (∃ note, note ∈ notes st' ∧ Note.id note = id) ∧
     (∀ note, note ∈ notes st' → Note.id note = id → Note.tags note = updatedTags) ∧
     (∀ note, notesRecords (db st') !! id = Some note → Note.tags note = updatedTags)) ∧
  (∀ id,
     noteId = Some id → id ≠ "" →
     List.find (λ note, String.eqb (Note.id note) id) (notes st) = None →
     st' = st) ∧
  (noteId = None ∨ noteId = Some "" →
     NewNote.tags (newNote st') = updatedTags ∧
     newNote st' = NewNote.with_tags updatedTags (newNote st) ∧
     notes st' = notes st ∧ db st' = db st).
Proof.
  intros updatedTags st'.
  split; [apply normalizeTags_trim_then_drop|].
  split; [apply normalizeTags_Forall|].
  subst st'. unfold handleTagChange. fold updatedTags.
  split; [|split].
  - intros id n -> Hid%truthy_true Hf. rewrite Hid, Hf. state_simpl.
    destruct (find_id_Some _ _ _ Hf) as [Hin Hn].
    change (notesRecords (saveToIndexedDB notesStore ?u ?d))
      with (<[Note.id u := u]> (notesRecords d)).
    cbn [Note.id Note.with_tags]. rewrite Hn.
    split; [reflexivity|]. split; [reflexivity|].
    split; [reflexivity|]. split; [reflexivity|].
    assert (Hwritten : ∀ note, note ∈ replaceById id (Note.with_tags updatedTags n) (notes st) →
                               Note.id note = id → Note.tags note = updatedTags).
    { intros note (m & -> & Hm)%list_elem_of_fmap.
      destruct (String.eqb_spec (Note.id m) id) as [E|E]; [done|]. done. }
    split; [|split; [exact Hwritten|]].
    + exists (Note.with_tags updatedTags n). split; [|exact Hn].
      apply list_elem_of_fmap. exists n. split; [|done].
      by rewrite (proj2 (String.eqb_eq _ _) Hn).
    + intros note. rewrite lookup_insert_eq. by intros [= <-].
  - intros id -> Hid%truthy_true Hf. by rewrite Hid, Hf.
  - intros [-> | ->]; [done|]. done.
Qed.

(** White space is what ECMA-262 says it is: the no-break space before
    the "x", the ideographic space after it and the lone zero-width
    no-break space are trimmed away like the blanks. *)
Lemma handleTagChange_stores_normalized_tags_witness :
  let nbsp := String (ascii_of_nat 194) (String (ascii_of_nat 160) "") in
  let ideographicSpace :=
    String (ascii_of_nat 227) (String (ascii_of_nat 128) (String (ascii_of_nat 128) "")) in
  let zwnbsp :=
    String (ascii_of_nat 239) (String (ascii_of_nat 187) (String (ascii_of_nat 191) "")) in
  NewNote.tags (newNote (handleTagChange
                           [nbsp +:+ "x" +:+ ideographicSpace; zwnbsp; " to do "]
                           None initialState))
  = ["x"; "to do"].
Proof.
  intros nbsp ideographicSpace zwnbsp.
  destruct (handleTagChange_stores_normalized_tags
              [nbsp +:+ "x" +:+ ideographicSpace; zwnbsp; " to do "] None initialState)
    as (_ & _ & _ & _ & Hdraft).
  destruct (Hdraft (or_introl eq_refl)) as [Htags _].
  exact Htags.
Defined.

(** ** The storage layer *)

Section ObjectStore.
Context {V : Type} (key : V → string).

Lemma keyedMap_empty : keyedMap key ∅.
Proof. intros k r H. by rewrite lookup_empty in H. Qed.

Lemma keyedMap_insert r m : keyedMap key m → keyedMap key (<[key r := r]> m).
Proof.
  intros Hm k r'. rewrite lookup_insert. case_decide as E.
  - by intros [= <-].
  - apply Hm.
Qed.

Lemma keyedMap_delete k m : keyedMap key m → keyedMap key (delete k m).
Proof.
  intros Hm k' r. rewrite lookup_delete. case_decide; [done|]. apply Hm.
Qed.

Lemma values_elem m r :
  keyedMap key m → r ∈ (map_to_list m).*2 ↔ m !! key r = Some r.
Proof.
  intros Hm. rewrite list_elem_of_fmap. split.
  - intros ([k r'] & -> & H%elem_of_map_to_list). cbn [snd] in *.
    by rewrite (Hm _ _ H).
  - intros H. exists (key r, r). split; [done|]. by apply elem_of_map_to_list.
Qed.

Lemma values_keys m : keyedMap key m → map key (map_to_list m).*2 = (map_to_list m).*1.
Proof.
  intros Hm.
  assert (H : ∀ kr, kr ∈ map_to_list m → key kr.2 = kr.1).
  { intros [k r] Hk%elem_of_map_to_list. by apply Hm. }
  induction (map_to_list m) as [|kr l IH]; [done|].
  cbn. f_equal.
  - apply H. by left.
  - apply IH. intros. apply H. by right.
Qed.

Lemma values_keys_NoDup m : keyedMap key m → NoDup (map key (map_to_list m).*2).
Proof. intros Hm. rewrite values_keys by done. apply NoDup_fst_map_to_list. Qed.

(** In a list without two records of one key, the records with the key of
    a member are that member alone. *)
Lemma filter_key_unique (l : list V) r :
  NoDup (map key l) → r ∈ l →
  List.filter (λ x, String.eqb (key x) (key r)) l = [r].
Proof.
  induction l as [|x l IH]; intros Hnd Hin; [by apply elem_of_nil in Hin|].
  cbn in Hnd. apply NoDup_cons in Hnd as [Hx Hnd]. cbn [List.filter].
  apply elem_of_cons in Hin as [->|Hin].
  - rewrite String.eqb_refl. f_equal.
    clear IH. induction l as [|y l IH]; [done|]. cbn [List.filter].
    apply NoDup_cons in Hnd as [_ Hnd]. cbn in Hx.
    apply not_elem_of_cons in Hx as [Hne Hx].
    rewrite (proj2 (String.eqb_neq _ _) (not_eq_sym Hne)). by apply IH.
  - assert (Hne : key x ≠ key r).
    { intros E. apply Hx. rewrite E. by apply list_elem_of_fmap_2. }
    rewrite (proj2 (String.eqb_neq _ _) Hne). by apply IH.
Qed.

End ObjectStore.

Lemma objectStore_withObjectStore storeName m db :
  objectStore storeName (withObjectStore storeName m db) = m.
Proof. by destruct storeName. Qed.

Lemma objectStore_withObjectStore_ne s1 s2 m db :
  s1 ≠ s2 → objectStore s1 (withObjectStore s2 m db) = objectStore s1 db.
Proof. by destruct s1, s2. Qed.

Lemma wellKeyed_all db : wellKeyed db ↔ ∀ storeName, keyed storeName db.
Proof.
  split.
  - intros [H1 H2] []; done.
  - intros H. split; apply H.
Qed.

Lemma saveToIndexedDB_wellKeyed storeName data db :
  wellKeyed db → wellKeyed (saveToIndexedDB storeName data db).
Proof.
  rewrite !wellKeyed_all. intros H s. unfold keyed, saveToIndexedDB.
  destruct (decide (s = storeName)) as [->|Hne].
  - rewrite objectStore_withObjectStore. apply keyedMap_insert, H.
  - rewrite objectStore_withObjectStore_ne by done. apply H.
Qed.

Lemma deleteFromIndexedDB_wellKeyed storeName key db :
  wellKeyed db → wellKeyed (deleteFromIndexedDB storeName key db).
Proof.
  rewrite !wellKeyed_all. intros H s. unfold keyed, deleteFromIndexedDB.
  destruct (decide (s = storeName)) as [->|Hne].
  - rewrite objectStore_withObjectStore. apply keyedMap_delete, H.
  - rewrite objectStore_withObjectStore_ne by done. apply H.
Qed.

Lemma emptyDB_wellKeyed : wellKeyed emptyDB.
Proof. split; intros k r H; cbn in H; by rewrite lookup_empty in H. Qed.

(** [getAll] lists the records of the map, each once. *)
Lemma getAll_Permutation storeName db :
  getAllFromIndexedDB storeName db ≡ₚ (map_to_list (objectStore storeName db)).*2.
Proof. unfold getAllFromIndexedDB. by rewrite merge_sort_Permutation. Qed.

Lemma getAll_elem storeName db r :
  wellKeyed db →
  r ∈ getAllFromIndexedDB storeName db ↔
  objectStore storeName db !! keyPath storeName r = Some r.
Proof.
  intros H. rewrite getAll_Permutation. apply (values_elem (keyPath storeName)).
  by apply wellKeyed_all.
Qed.

Lemma getAll_keys_NoDup storeName db :
  keyed storeName db → NoDup (map (keyPath storeName) (getAllFromIndexedDB storeName db)).
Proof.
  intros H. rewrite getAll_Permutation. by apply values_keys_NoDup.
Qed.

Lemma getAll_stored storeName db r :
  r ∈ getAllFromIndexedDB storeName db ↔ ∃ k, objectStore storeName db !! k = Some r.
Proof.
  rewrite getAll_Permutation, list_elem_of_fmap. split.
  - intros ([k r'] & -> & Hk%elem_of_map_to_list). by exists k.
  - intros [k Hk]. exists (k, r). split; [done|]. by apply elem_of_map_to_list.
Qed.

(** The order of the keys is total. *)
Lemma keyByteRank_inj x y : keyByteRank x = keyByteRank y → x = y.
Proof.
  unfold keyByteRank. intros H.
  rewrite <- (ascii_nat_embedding x), <- (ascii_nat_embedding y). f_equal.
  destruct (Nat.leb_spec 238 (nat_of_ascii x)), (Nat.leb_spec (nat_of_ascii x) 239),
           (Nat.leb_spec 240 (nat_of_ascii x)), (Nat.leb_spec (nat_of_ascii x) 244),
           (Nat.leb_spec 238 (nat_of_ascii y)), (Nat.leb_spec (nat_of_ascii y) 239),
           (Nat.leb_spec 240 (nat_of_ascii y)), (Nat.leb_spec (nat_of_ascii y) 244);
    cbn [andb] in H; lia.
Qed.

Lemma keyLeb_total a : ∀ b, keyLeb a b = true ∨ keyLeb b a = true.
Proof.
  induction a as [|x a IH]; intros [|y b]; cbn [keyLeb]; auto.
  destruct (Ascii.eqb_spec x y) as [->|Hne].
  - rewrite Ascii.eqb_refl. apply IH.
  - rewrite (proj2 (Ascii.eqb_neq y x)) by congruence.
    rewrite !Nat.ltb_lt.
    destruct (lt_eq_lt_dec (keyByteRank x) (keyByteRank y)) as [[?|E]|?]; auto.
    by apply keyByteRank_inj in E.
Qed.

Global Instance keyOrder_total {V} : Total (@keyOrder V).
Proof. intros p q. apply keyLeb_total. Qed.



(** C6.  In a database whose records are stored under their own keys,
    [getAllFromIndexedDB] lists no two records of one key.
    [saveToIndexedDB], whether or not the key was present, leaves [data] as
    the one record of its key in the list and every record of another key,
    and the other store, as they were; [deleteFromIndexedDB] removes the
    record of the given key and no other.  Both keep the records under their
    keys. *)
Theorem storage_upsert_list_delete (storeName : StoreName) (db : IDBDatabase) :
  wellKeyed db →
  NoDup (map (keyPath storeName) (getAllFromIndexedDB storeName db)) ∧
  (∀ data : Stored storeName,
     let db' := saveToIndexedDB storeName data db in
     wellKeyed db' ∧
     List.filter (λ r, String.eqb (keyPath storeName r) (keyPath storeName data))
                 (getAllFromIndexedDB storeName db') = [data] ∧
     (∀ r, keyPath storeName r ≠ keyPath storeName data →
        r ∈ getAllFromIndexedDB storeName db' ↔ r ∈ getAllFromIndexedDB storeName db) ∧
     (∀ other, other ≠ storeName → objectStore other db' = objectStore other db)) ∧
  (∀ key : string,
     let db' := deleteFromIndexedDB storeName key db in
     wellKeyed db' ∧
     (∀ r, r ∈ getAllFromIndexedDB storeName db' ↔
           r ∈ getAllFromIndexedDB storeName db ∧ keyPath storeName r ≠ key) ∧
     (∀ other, other ≠ storeName → objectStore other db' = objectStore other db)).
Proof.
  intros Hdb. split; [|split].
  - apply getAll_keys_NoDup. by apply wellKeyed_all.
  - intros data db'.
    assert (Hdb' : wellKeyed db') by by apply saveToIndexedDB_wellKeyed.
    split; [done|]. split; [|split].
    + apply filter_key_unique.
      * apply getAll_keys_NoDup. by apply wellKeyed_all.
      * apply getAll_elem; [done|]. subst db'. unfold saveToIndexedDB.
        rewrite objectStore_withObjectStore. apply lookup_insert_eq.
    + intros r Hne. rewrite !getAll_elem by done. subst db'. unfold saveToIndexedDB.
      rewrite objectStore_withObjectStore, lookup_insert_ne by done. reflexivity.
    + intros other Hne. by apply objectStore_withObjectStore_ne.
  - intros key db'.
    assert (Hdb' : wellKeyed db') by by apply deleteFromIndexedDB_wellKeyed.
    split; [done|]. split.
    + intros r. rewrite !getAll_elem by done. subst db'. unfold deleteFromIndexedDB.
      rewrite objectStore_withObjectStore, lookup_delete. case_decide as E.
      * split; [done|]. intros [_ ?]. done.
      * split; [intros; split; [done|]; congruence|tauto].
    + intros other Hne. by apply objectStore_withObjectStore_ne.
Qed.

Lemma storage_upsert_list_delete_witness :
  let first := plainNote "1" "first" (JsDate.ValidDate 1000) false in
  let again := plainNote "1" "first, edited" (JsDate.ValidDate 2000) true in
  let db := saveToIndexedDB notesStore first emptyDB in
  wellKeyed db ∧
  List.filter (λ r, String.eqb (Note.id r) "1")
              (getAllFromIndexedDB notesStore (saveToIndexedDB notesStore again db))
    = [again].
Proof.
  cbv zeta.
  assert (H : wellKeyed (saveToIndexedDB notesStore
                (plainNote "1" "first" (JsDate.ValidDate 1000) false) emptyDB))
    by apply saveToIndexedDB_wellKeyed, emptyDB_wellKeyed.
  split; [exact H|].
  destruct (storage_upsert_list_delete notesStore _ H) as (_ & Hsave & _).
  destruct (Hsave (plainNote "1" "first, edited" (JsDate.ValidDate 2000) true))
    as (_ & Hone & _).
  exact Hone.
Defined.

(** The component's functions keep the records under their keys. *)
Lemma foldl_save_wellKeyed {X} storeName (g : X → Stored storeName) (l : list X) : ∀ db,
  wellKeyed db → wellKeyed (foldl (λ d x, saveToIndexedDB storeName (g x) d) db l).
Proof.
  induction l as [|x l IH]; intros db H; cbn [foldl]; [done|].
  apply IH. by apply saveToIndexedDB_wellKeyed.
Qed.

Lemma stateOf_wellKeyed l : wellKeyed (db (stateOf l)).
Proof.
  unfold stateOf. cbn [db]. induction l as [|n l IH]; cbn [foldr].
  - apply emptyDB_wellKeyed.
  - by apply saveToIndexedDB_wellKeyed.
Qed.


(** ** Consistent comparators *)

Lemma ltCF_eqCF {A} (cmp : A → A → JsNumber) a b : ltCF cmp a b → eqCF cmp a b → False.
Proof. intros (z & E & Hz) E0. unfold eqCF in E0. rewrite E in E0. injection E0. lia. Qed.

Lemma gtCF_eqCF {A} (cmp : A → A → JsNumber) a b : gtCF cmp a b → eqCF cmp a b → False.
Proof. intros (z & E & Hz) E0. unfold eqCF in E0. rewrite E in E0. injection E0. lia. Qed.

Lemma ltCF_gtCF {A} (cmp : A → A → JsNumber) a b : ltCF cmp a b → gtCF cmp a b → False.
Proof. intros (z & E & Hz) (z' & E' & Hz'). rewrite E in E'. injection E'. lia. Qed.

Lemma before_not_gtCF {A} (cmp : A → A → JsNumber) a b :
  cmp a b ≠ NaN → before cmp a b ↔ ¬ gtCF cmp a b.
Proof.
  unfold before, gtCF. destruct (cmp a b) as [z|]; [|done]. intros _. cbn.
  rewrite Z.leb_le. split.
  - intros Hz (z' & [= <-] & ?). lia.
  - intros Hn. destruct (Z_le_gt_dec z 0); [done|]. exfalso. apply Hn. exists z. split; [done|lia].
Qed.

(** On the values it is consistent for, a comparator is a total preorder:
    the five requirements of ECMA-262 give the rest. *)
Section Consistent.
Context {A : Type} (cmp : A → A → JsNumber) (S : A → Prop).
Hypothesis consistent : consistentComparator cmp S.

Lemma cf_cases a b : S a → S b → ltCF cmp a b ∨ eqCF cmp a b ∨ gtCF cmp a b.
Proof.
  intros Ha Hb. pose proof (cf_number _ _ consistent a b Ha Hb) as Hn.
  unfold ltCF, eqCF, gtCF. destruct (cmp a b) as [z|]; [|done].
  destruct (Z.lt_trichotomy z 0) as [?|[->|?]]; eauto.
Qed.

Lemma cf_lt_gt a b : S a → S b → ltCF cmp a b → gtCF cmp b a.
Proof.
  intros Ha Hb Hlt. destruct (cf_cases b a Hb Ha) as [H|[H|H]]; [| |done].
  - exfalso. apply (ltCF_eqCF cmp a a).
    + by apply (cf_trans_lt _ _ consistent a b a).
    + by apply (cf_refl _ _ consistent).
  - exfalso. apply (ltCF_eqCF cmp a b); [done|]. by apply (cf_sym _ _ consistent).
Qed.

Lemma cf_gt_lt a b : S a → S b → gtCF cmp a b → ltCF cmp b a.
Proof.
  intros Ha Hb Hgt. destruct (cf_cases b a Hb Ha) as [H|[H|H]]; [done| |].
  - exfalso. apply (gtCF_eqCF cmp a b); [done|]. by apply (cf_sym _ _ consistent).
  - exfalso. apply (gtCF_eqCF cmp a a).
    + by apply (cf_trans_gt _ _ consistent a b a).
    + by apply (cf_refl _ _ consistent).
Qed.

Lemma cf_before_total a b : S a → S b → ¬ before cmp a b → before cmp b a.
Proof.
  intros Ha Hb Hn.
  rewrite before_not_gtCF in Hn by by apply (cf_number _ _ consistent).
  rewrite before_not_gtCF by by apply (cf_number _ _ consistent).
  intros Hba. apply Hn. intros Hab.
  apply (ltCF_gtCF cmp b a); [by apply cf_gt_lt|done].
Qed.

Lemma cf_before_trans a b c :
  S a → S b → S c → before cmp a b → before cmp b c → before cmp a c.
Proof.
  intros Ha Hb Hc.
  rewrite !before_not_gtCF by by apply (cf_number _ _ consistent).
  intros Hab Hbc Hac.
  assert (Hca : ltCF cmp c a) by by apply cf_gt_lt.
  destruct (cf_cases a b Ha Hb) as [H1|[H1|H1]]; [| |done];
  destruct (cf_cases b c Hb Hc) as [H2|[H2|H2]]; try done.
  - apply (ltCF_gtCF cmp a c); [|done]. by apply (cf_trans_lt _ _ consistent a b c).
  - apply (ltCF_eqCF cmp c b).
    + by apply (cf_trans_lt _ _ consistent c a b).
    + by apply (cf_sym _ _ consistent).
  - apply (ltCF_eqCF cmp b a).
    + by apply (cf_trans_lt _ _ consistent b c a).
    + by apply (cf_sym _ _ consistent).
  - apply (gtCF_eqCF cmp a c); [done|]. by apply (cf_trans_eq _ _ consistent a b c).
Qed.

End Consistent.

(** A comparator of keys, read on the values that carry the keys. *)
Lemma consistentComparator_on {A B} (cmp : B → B → JsNumber) (f : A → B) (S : A → Prop) :
  consistentComparator cmp (λ _, True) →
  consistentComparator (λ a b, cmp (f a) (f b)) S.
Proof.
  intros [H1 H2 H3 H4 H5 H6]. split; unfold ltCF, eqCF, gtCF in *; eauto.
Qed.


(** ** Insertion sort, for the examples *)

Section InsertionSort.
Context {A : Type} (cmp : A → A → JsNumber).

Lemma insertSorted_Permutation x l : insertSorted cmp x l ≡ₚ x :: l.
Proof.
  induction l as [|y l IH]; [done|]. cbn [insertSorted].
  destruct (notAfter (cmp x y)); [done|].
  rewrite IH. apply Permutation_swap.
Qed.

Lemma insertionSort_Permutation l : insertionSort cmp l ≡ₚ l.
Proof.
  induction l as [|x l IH]; [done|].
  unfold insertionSort in *. cbn [foldr].
  rewrite insertSorted_Permutation. by f_equiv.
Qed.

(** The sort orders its output by every relation [R] that the comparator
    decides, on the elements that satisfy [P]. *)
Variable P : A → Prop.
Variable R : A → A → Prop.
Hypothesis before_R : ∀ x y, P x → P y → before cmp x y → R x y.
Hypothesis not_before_R : ∀ x y, P x → P y → ¬ before cmp x y → R y x.
Hypothesis R_trans : ∀ x y z, P x → P y → P z → R x y → R y z → R x z.

Lemma insertSorted_StronglySorted x l :
  P x → Forall P l → StronglySorted R l → StronglySorted R (insertSorted cmp x l).
Proof.
  intros Hx Hl Hs. induction Hs as [|y l Hs IH Hy]; cbn [insertSorted].
  - repeat constructor.
  - apply Forall_cons in Hl as [HPy Hl].
    destruct (notAfter (cmp x y)) eqn:E.
    + assert (Hxy : R x y) by by apply before_R.
      constructor; [by constructor|]. constructor; [done|].
      apply Forall_forall. intros z Hz.
      apply (R_trans x y z); [done|done| |done|].
      * rewrite Forall_forall in Hl. by apply Hl.
      * rewrite Forall_forall in Hy. by apply Hy.
    + constructor; [by apply IH|].
      rewrite insertSorted_Permutation. constructor; [|done].
      apply not_before_R; [done|done|]. unfold before. congruence.
Qed.

Lemma insertionSort_StronglySorted l :
  Forall P l → StronglySorted R (insertionSort cmp l).
Proof.
  induction l as [|x l IH]; intros Hl; [constructor|].
  apply Forall_cons in Hl as [Hx Hl].
  unfold insertionSort in *. cbn [foldr]. apply insertSorted_StronglySorted; [done| |by apply IH].
  fold (insertionSort cmp l). by rewrite insertionSort_Permutation.
Qed.

End InsertionSort.

Lemma StronglySorted_lookup {A} (R : A → A → Prop) l i j x y :
  StronglySorted R l → i < j → l !! i = Some x → l !! j = Some y → R x y.
Proof.
  intros Hs. revert i j. induction Hs as [|z l Hs IH Hz]; intros i j Hij Hi Hj; [done|].
  destruct i as [|i], j as [|j]; try lia; cbn in *.
  - injection Hi as ->. rewrite Forall_forall in Hz. apply Hz.
    by eapply list_elem_of_lookup_2.
  - apply (IH i j); [lia|done|done].
Qed.

(** Insertion sort meets what ECMA-262 asks of a sort with a consistent
    comparator. *)
Lemma insertionSort_sorts {A} (cmp : A → A → JsNumber) (l : list A) :
  consistentComparator cmp (λ x, x ∈ l) →
  ∀ i j x y, insertionSort cmp l !! i = Some x → insertionSort cmp l !! j = Some y →
             ltCF cmp x y → i < j.
Proof.
  intros Hc i j x y Hi Hj Hlt.
  assert (Hs : StronglySorted (before cmp) (insertionSort cmp l)).
  { apply (insertionSort_StronglySorted cmp (λ x, x ∈ l)).
    - done.
    - apply (cf_before_total _ _ Hc).
    - apply (cf_before_trans _ _ Hc).
    - by apply Forall_forall. }
  assert (Hx : x ∈ l)
    by (rewrite <- (insertionSort_Permutation cmp l); by eapply list_elem_of_lookup_2).
  assert (Hy : y ∈ l)
    by (rewrite <- (insertionSort_Permutation cmp l); by eapply list_elem_of_lookup_2).
  destruct (lt_eq_lt_dec i j) as [[?| ->]|Hji]; [done| |].
  - rewrite Hi in Hj. injection Hj as <-. exfalso.
    apply (ltCF_eqCF cmp x x); [done|]. by apply (cf_refl _ _ Hc).
  - exfalso. pose proof (StronglySorted_lookup _ _ _ _ _ _ Hs Hji Hj Hi) as Hb.
    apply before_not_gtCF in Hb; [|by apply (cf_number _ _ Hc)].
    apply Hb. by apply (cf_lt_gt _ _ Hc).
Qed.

(** ** The platform of the examples *)

Lemma codeUnitCompare_Lt a b : (codeUnitCompare a b < 0)%Z ↔ String.compare a b = Lt.
Proof. unfold codeUnitCompare. destruct (String.compare a b); split; (done || lia). Qed.

Lemma String_compare_refl a : String.compare a a = Eq.
Proof.
  pose proof (String.compare_antisym a a) as H.
  by destruct (String.compare a a).
Qed.

Lemma codeUnitCompare_Eq a b : codeUnitCompare a b = 0%Z ↔ a = b.
Proof.
  unfold codeUnitCompare. destruct (String.compare a b) eqn:E.
  - split; [intros _; by apply String.compare_eq_iff|done].
  - split; [done|]. intros ->. by rewrite String_compare_refl in E.
  - split; [done|]. intros ->. by rewrite String_compare_refl in E.
Qed.

Lemma codeUnitCompare_Gt a b : (0 < codeUnitCompare a b)%Z ↔ String.compare b a = Lt.
Proof.
  unfold codeUnitCompare. rewrite (String.compare_antisym b a).
  destruct (String.compare a b); cbn; split; (done || lia).
Qed.

Lemma String_compare_Lt a b : String.compare a b = Lt ↔ String.le a b ∧ a ≠ b.
Proof.
  unfold String.le, String.leb. destruct (String.compare a b) eqn:E.
  - apply String.compare_eq_iff in E. split; [done|]. intros [_ ?]. done.
  - split; [|done]. intros _. split; [done|]. intros ->.
    by rewrite String_compare_refl in E.
  - split; [done|]. intros [[] _].
Qed.

Lemma String_compare_Lt_trans a b c :
  String.compare a b = Lt → String.compare b c = Lt → String.compare a c = Lt.
Proof.
  rewrite !String_compare_Lt. intros [H1 N1] [H2 N2]. split.
  - by etrans.
  - intros ->. apply N1. by apply (anti_symm String.le).
Qed.

Lemma codeUnitCompare_consistent :
  consistentComparator (λ a b, Num (codeUnitCompare a b)) (λ _, True).
Proof.
  split; unfold ltCF, eqCF, gtCF.
  - done.
  - intros a _. f_equal. by apply codeUnitCompare_Eq.
  - intros a b _ _ [= E]. f_equal. apply codeUnitCompare_Eq.
    symmetry. by apply codeUnitCompare_Eq.
  - intros a b c _ _ _ [= E1] [= E2]. f_equal. apply codeUnitCompare_Eq.
    apply codeUnitCompare_Eq in E1, E2. congruence.
  - intros a b c _ _ _ (z1 & [= <-] & H1) (z2 & [= <-] & H2).
    eexists. split; [reflexivity|]. apply codeUnitCompare_Lt.
    apply codeUnitCompare_Lt in H1, H2. by eapply String_compare_Lt_trans.
  - intros a b c _ _ _ (z1 & [= <-] & H1) (z2 & [= <-] & H2).
    eexists. split; [reflexivity|]. apply codeUnitCompare_Gt.
    apply codeUnitCompare_Gt in H1, H2. by eapply String_compare_Lt_trans.
Qed.

Lemma caseBlindCompare_consistent :
  consistentComparator (λ a b, Num (caseBlindCompare a b)) (λ _, True).
Proof.
  apply (consistentComparator_on (λ a b, Num (codeUnitCompare a b)) asciiLowerCase).
  apply codeUnitCompare_consistent.
Qed.

(** A platform that meets the requirements: the one of the examples. *)
Definition referencePlatform : Platform :=
  {| toLowerCase := asciiLowerCase;
     toLowerCase_empty := eq_refl;
     localeCompare := caseBlindCompare;
     localeCompare_consistent := caseBlindCompare_consistent;
     Array_sort := @insertionSort;
     Array_sort_reorders := @insertionSort_Permutation;
     Array_sort_sorts := @insertionSort_sorts;
     Date_parse_other := λ _, NaN |}.

(** ** The filtered view *)

Section FilteredView.
Context `{platform : Platform}.



Lemma filteredNotes_Permutation notes selectedCategory searchTerm showArchived sortBy :
  filteredNotes notes selectedCategory searchTerm showArchived sortBy
  ≡ₚ List.filter (matchesFilter selectedCategory searchTerm showArchived) notes.
Proof. apply Array_sort_reorders. Qed.


(** ** The order of the view *)




End FilteredView.






(** ** Export and import *)

Lemma reviveDates_id n : reviveDates n = n.
Proof. by destruct n. Qed.

Lemma foldl_await {X} (f : X → IDBDatabase → IDBDatabase) l : ∀ st,
  foldl (λ st x, await (f x) st) st l =
  await (λ d, foldl (λ d x, f x d) d l) st.
Proof.
  induction l as [|x l IH]; intros st; cbn [foldl].
  - by destruct st.
  - rewrite IH. reflexivity.
Qed.

(** The loop of [importNotes] stores the elements before the first one
    [put] throws on, and tells whether there was none. *)
Lemma putEach_eq {X} storeName (g : X → Stored storeName) items : ∀ st,
  putEach storeName g items st
  = (await (λ d, foldl (λ d x, saveToIndexedDB storeName (g x) d) d (storablePrefix items)) st,
     allStorable items).
Proof.
  induction items as [|[x|] items IH]; intros st;
    cbn [putEach storablePrefix allStorable foldl].
  - by destruct st.
  - rewrite IH. by destruct st.
  - by destruct st.
Qed.

Lemma storablePrefix_Storable {X Y} (f : X → Y) l :
  storablePrefix (map (λ x, Storable (f x)) l) = map f l.
Proof. induction l as [|x l IH]; cbn; [done|by rewrite IH]. Qed.

Lemma allStorable_Storable {X Y} (f : X → Y) l :
  allStorable (map (λ x, Storable (f x)) l) = true.
Proof. by induction l. Qed.

Lemma allStorable_prefix {X} (items : list (FileItem X)) :
  allStorable items = true → map Storable (storablePrefix items) = items.
Proof.
  induction items as [|[x|] items IH]; cbn; [done| |done].
  intros H. by rewrite IH.
Qed.

(** Putting back records that are already stored changes nothing. *)
Lemma foldl_save_stored {X} storeName (g : X → Stored storeName) (l : list X) db :
  (∀ x, x ∈ l → objectStore storeName db !! keyPath storeName (g x) = Some (g x)) →
  foldl (λ d x, saveToIndexedDB storeName (g x) d) db l = db.
Proof.
  induction l as [|x l IH]; intros H; cbn [foldl]; [done|].
  assert (Hr : saveToIndexedDB storeName (g x) db = db).
  { unfold saveToIndexedDB. rewrite insert_id by (apply H; by left).
    by destruct storeName, db. }
  rewrite Hr. apply IH. intros. apply H. by right.
Qed.

Section Backup.
Context `{platform : Platform}.

Lemma revive_stringify n : datesValid n → NoteJson.revive (NoteJson.stringify n) = n.
Proof.
  intros [H1 H2]. destruct n. unfold NoteJson.revive, NoteJson.stringify.
  cbn [Note.createdAt Note.updatedAt Note.id Note.title Note.content Note.category
       Note.color Note.image Note.isPinned Note.isArchived Note.tags
       NoteJson.createdAt NoteJson.updatedAt NoteJson.id NoteJson.title NoteJson.content
       NoteJson.category NoteJson.color NoteJson.image NoteJson.isPinned
       NoteJson.isArchived NoteJson.tags] in *.
  rewrite !newDate_toJSON by done. reflexivity.
Qed.

(** [importNotes] on a file that has both arrays, in terms of the elements
    that get stored. *)
Lemma importNotes_arrays importedNotes importedCategories st :
  importNotes (Some (JsonObject (Some importedNotes) (Some importedCategories))) st
  = let st1 := await (λ d, foldl (λ d x, saveToIndexedDB notesStore (NoteJson.revive x) d) d
                                 (storablePrefix importedNotes)) st in
    if allStorable importedNotes then
      let st2 := await (λ d, foldl (λ d x, saveToIndexedDB categoriesStore x d) d
                                   (storablePrefix importedCategories)) st1 in
      if allStorable importedCategories then
        toast toast_success "Notes and categories imported successfully! 📥"
          (setCategories (λ _, getAllFromIndexedDB categoriesStore (db st2))
             (setNotes (λ _, map reviveDates (getAllFromIndexedDB notesStore (db st2))) st2))
      else toast toast_error "Failed to import data. Please check the file format. 😕" st2
    else toast toast_error "Failed to import data. Please check the file format. 😕" st1.
Proof.
  unfold importNotes. rewrite putEach_eq. cbv beta iota zeta.
  destruct (allStorable importedNotes); [|done].
  rewrite putEach_eq. reflexivity.
Qed.

(** C4, as amended.  When every stored note has valid dates, importing the
    file that [exportNotes] produces leaves both object stores as they
    were, and sets the notes and categories shown to their contents. *)
Theorem export_then_import_keeps_store (st : State) :
  wellKeyed (db st) →
  storedDatesValid (db st) →
  let file := (exportNotes st).1 in
  let st' := importNotes (Some file) (exportNotes st).2 in
  notesRecords (db st') = notesRecords (db st) ∧
  categoriesRecords (db st') = categoriesRecords (db st) ∧
  notes st' = getAllFromIndexedDB notesStore (db st) ∧
  categories st' = getAllFromIndexedDB categoriesStore (db st).
Proof.
  intros Hk Hv file st'. subst file st'.
  unfold exportNotes. cbn [fst snd]. rewrite importNotes_arrays.
  rewrite (storablePrefix_Storable NoteJson.stringify), (allStorable_Storable NoteJson.stringify).
  rewrite (storablePrefix_Storable (λ c : Category, c)), (allStorable_Storable (λ c : Category, c)).
  rewrite list_fmap_id. cbv zeta. state_simpl.
  rewrite foldl_fmap.
  rewrite (foldl_save_stored notesStore (λ n, NoteJson.revive (NoteJson.stringify n))).
  2: { intros n Hn. apply (getAll_elem notesStore) in Hn; [|done].
       rewrite revive_stringify; [done|]. eapply Hv, Hn. }
  rewrite (foldl_save_stored categoriesStore (λ c, c)).
  2: { intros c Hc. by apply (getAll_elem categoriesStore) in Hc. }
  repeat split. rewrite <- (list_fmap_id (getAllFromIndexedDB notesStore (db st))) at 2.
  apply list_fmap_ext. intros. apply reviveDates_id.
Qed.

Lemma importNotes_wellKeyed file st :
  wellKeyed (db st) → wellKeyed (db (importNotes file st)).
Proof.
  intros H. destruct file as [[|[ns|] [cs|]]|]; try done.
  rewrite importNotes_arrays. cbv zeta.
  assert (H1 : wellKeyed (foldl (λ d x, saveToIndexedDB notesStore (NoteJson.revive x) d)
                                (db st) (storablePrefix ns)))
    by by apply (foldl_save_wellKeyed notesStore NoteJson.revive).
  destruct (allStorable ns); [|by state_simpl].
  destruct (allStorable cs); state_simpl;
    by apply (foldl_save_wellKeyed categoriesStore (λ c, c)).
Qed.

Lemma undatedState_createdAt :
  Note.createdAt <$> notesRecords (db undatedState) !! "n1" = Some JsDate.InvalidDate.
Proof. vm_compute. reflexivity. Qed.

Lemma undatedState_createdAt_after :
  Note.createdAt <$> notesRecords (db (importNotes (Some (exportNotes undatedState).1)
                                                   (exportNotes undatedState).2)) !! "n1"
    = Some (JsDate.ValidDate 0).
Proof. vm_compute. reflexivity. Qed.

End Backup.

(** C4 as stated fails for a stored "Invalid Date": it is exported as
    [null] and comes back as 1970-01-01.  The state is the one reached by
    importing a backup whose note has no dates. *)
Lemma export_then_import_resets_invalid_dates :
  (∀ platform : Platform, wellKeyed (db undatedState)) ∧
  (∀ platform : Platform,
     Note.createdAt <$> notesRecords (db undatedState) !! "n1" = Some JsDate.InvalidDate) ∧
  (∀ platform : Platform,
     Note.createdAt <$> notesRecords (db (importNotes (Some (exportNotes undatedState).1)
                                                      (exportNotes undatedState).2)) !! "n1"
       = Some (JsDate.ValidDate 0)) ∧
  (∀ platform : Platform,
     notesRecords (db (importNotes (Some (exportNotes undatedState).1)
                                   (exportNotes undatedState).2))
       ≠ notesRecords (db undatedState)).
Proof.
  split; [|split; [|split]]; intros platform.
  - apply importNotes_wellKeyed, emptyDB_wellKeyed.
  - exact undatedState_createdAt.
  - exact undatedState_createdAt_after.
  - intros E. pose proof undatedState_createdAt_after as H.
    rewrite E in H.
    exact (eq_ind (Some JsDate.InvalidDate)
             (λ o, match o with Some JsDate.InvalidDate => True | _ => False end) I _
             (eq_trans (eq_sym undatedState_createdAt) H)).
Qed.

Lemma stateOf_storedDatesValid l : Forall datesValid l → storedDatesValid (db (stateOf l)).
Proof.
  unfold stateOf, storedDatesValid. cbn [db]. intros Hl.
  induction Hl as [|n l Hn Hl IH]; cbn [foldr]; intros key note.
  - cbn. rewrite lookup_empty. done.
  - unfold saveToIndexedDB. cbn [objectStore withObjectStore notesRecords keyPath].
    rewrite lookup_insert. case_decide; [by intros [= <-]|apply IH].
Qed.

Lemma export_then_import_keeps_store_witness :
  notesRecords (db (@importNotes referencePlatform
                      (Some (exportNotes (stateOf threePinned)).1)
                      (exportNotes (stateOf threePinned)).2))
    = notesRecords (db (stateOf threePinned)).
Proof.
  apply (@export_then_import_keeps_store referencePlatform (stateOf threePinned)).
  - apply stateOf_wellKeyed.
  - apply stateOf_storedDatesValid. repeat constructor.
Defined.

(** * The rest of the component *)

(** ** Runs of storage requests *)

Lemma foldl_await_db {X} (f : X → IDBDatabase → IDBDatabase) l st :
  db (foldl (λ st x, await (f x) st) st l) = foldl (λ d x, f x d) (db st) l.
Proof. rewrite foldl_await. reflexivity. Qed.

Lemma foldl_await_toasts {X} (f : X → IDBDatabase → IDBDatabase) l : ∀ st,
  toasts (foldl (λ st x, await (f x) st) st l) = toasts st.
Proof. induction l as [|x l IH]; intros st; [done|]. cbn [foldl]. by rewrite IH. Qed.

Lemma notesRecords_save n d :
  notesRecords (saveToIndexedDB notesStore n d) = <[Note.id n := n]> (notesRecords d).
Proof. reflexivity. Qed.

Lemma notesRecords_delete k d :
  notesRecords (deleteFromIndexedDB notesStore k d) = delete k (notesRecords d).
Proof. reflexivity. Qed.

Lemma map_reviveDates l : map reviveDates l = l.
Proof.
  rewrite <- (list_fmap_id l) at 2. apply list_fmap_ext. intros. apply reviveDates_id.
Qed.

(** An import in which no [put] throws ends with the lists reloaded. *)
Lemma importNotes_reloads `{Platform} importedNotes importedCategories st :
  allStorable importedNotes = true → allStorable importedCategories = true →
  let st' := importNotes (Some (JsonObject (Some importedNotes) (Some importedCategories))) st in
  notes st' = getAllFromIndexedDB notesStore (db st') ∧
  categories st' = getAllFromIndexedDB categoriesStore (db st').
Proof.
  intros H1 H2 st'. subst st'. rewrite importNotes_arrays, H1, H2. cbv zeta. state_simpl.
  by rewrite map_reviveDates.
Qed.

Lemma getAll_nil_empty storeName d :
  getAllFromIndexedDB storeName d = [] → objectStore storeName d = ∅.
Proof.
  intros H. pose proof (getAll_Permutation storeName d) as Hp. rewrite H in Hp.
  apply Permutation_nil_l in Hp. symmetry in Hp. apply fmap_nil_inv in Hp.
  by apply map_to_list_empty_iff.
Qed.

Lemma getAll_lookup storeName d k r :
  objectStore storeName d !! k = Some r → r ∈ getAllFromIndexedDB storeName d.
Proof. intros H. apply getAll_stored. by exists k. Qed.

(** The values of a map whose records carry their keys are pairwise distinct. *)
Lemma getAll_notes_NoDup_of_lookup d :
  (∀ key n, notesRecords d !! key = Some n → Note.id n = key) →
  NoDup (getAllFromIndexedDB notesStore d).
Proof.
  intros Hk. rewrite getAll_Permutation. apply NoDup_fmap_2_strong.
  - intros [k1 n1] [k2 n2] H1%elem_of_map_to_list H2%elem_of_map_to_list E.
    cbn in *. subst n2. f_equal. rewrite <- (Hk _ _ H1). by apply Hk.
  - apply NoDup_map_to_list.
Qed.

Section PutAll.
Context {X : Type} (storeName : StoreName) (g : X → Stored storeName).

Local Abbreviation putAll l d := (foldl (λ d x, saveToIndexedDB storeName (g x) d) d l).

Lemma putAll_snoc l x d :
  putAll (l ++ [x]) d = saveToIndexedDB storeName (g x) (putAll l d).
Proof. by rewrite foldl_app. Qed.

Lemma putAll_other_store other l d :
  other ≠ storeName → objectStore other (putAll l d) = objectStore other d.
Proof.
  intros Hne. induction l as [|x l IH] using rev_ind; [done|].
  rewrite putAll_snoc. unfold saveToIndexedDB.
  by rewrite objectStore_withObjectStore_ne.
Qed.

(** After a run of [put]s a key holds the last record put under it. *)
Lemma putAll_lookup_last l d k :
  objectStore storeName (putAll l d) !! k
  = match last (List.filter (λ x, bool_decide (keyPath storeName (g x) = k)) l) with
    | Some x => Some (g x)
    | None => objectStore storeName d !! k
    end.
Proof.
  induction l as [|x l IH] using rev_ind; [done|].
  rewrite putAll_snoc, List.filter_app. cbn [List.filter]. unfold saveToIndexedDB.
  rewrite objectStore_withObjectStore, lookup_insert.
  case_decide as E.
  - rewrite (bool_decide_eq_true_2 _ E). by rewrite last_snoc.
  - rewrite (bool_decide_eq_false_2 _ E), app_nil_r. apply IH.
Qed.

Lemma putAll_lookup_Some l d k r :
  objectStore storeName (putAll l d) !! k = Some r →
  (∃ x, x ∈ l ∧ g x = r ∧ keyPath storeName r = k) ∨
  objectStore storeName d !! k = Some r.
Proof.
  induction l as [|x l IH] using rev_ind; [by right|].
  rewrite putAll_snoc. unfold saveToIndexedDB.
  rewrite objectStore_withObjectStore, lookup_insert. case_decide as E.
  - intros [= <-]. left. exists x. split; [|done].
    apply elem_of_app. right. by apply list_elem_of_singleton.
  - intros H. destruct (IH H) as [(y & Hy & ?)|?]; [left|by right].
    exists y. split; [|done]. apply elem_of_app. by left.
Qed.

Lemma putAll_lookup_NoDup l d x :
  NoDup (map (λ x, keyPath storeName (g x)) l) → x ∈ l →
  objectStore storeName (putAll l d) !! keyPath storeName (g x) = Some (g x).
Proof.
  induction l as [|y l IH] using rev_ind; [by intros _ ?%elem_of_nil|].
  rewrite map_app, putAll_snoc. intros [Hl [Hy _]]%NoDup_app. unfold saveToIndexedDB.
  rewrite objectStore_withObjectStore.
  intros [Hx|Hx%list_elem_of_singleton]%elem_of_app.
  - rewrite lookup_insert_ne; [by apply IH|].
    intros E. apply (Hy (keyPath storeName (g x))).
    + by apply (list_elem_of_fmap_2 (λ x, keyPath storeName (g x))).
    + rewrite <- E. cbn. by left.
  - subst. apply lookup_insert_eq.
Qed.

End PutAll.

(** ** What the functions do to the notes and their dates *)

Lemma updateNote_notes now st editing :
  editingNote st = Some editing →
  Forall2 (λ old new,
             (Note.id old ≠ Note.id editing → new = old) ∧
             (Note.id old = Note.id editing →
              new = Note.with_updatedAt (JsDate.ValidDate now) editing))
          (notes st) (notes (updateNote now st)).
Proof.
  intros He. unfold updateNote. rewrite He. state_simpl.
  apply Forall2_fmap_r, Forall_Forall2_diag, Forall_forall. intros m _. split.
  - intros E. apply String.eqb_neq in E. by rewrite E.
  - intros E. by rewrite (proj2 (String.eqb_eq _ _) E).
Qed.

Lemma addNote_notes now stamp st :
  (requiredFilled (newNote st) →
     ∃ new, notes (addNote now stamp st) = notes st ++ [new] ∧
            Note.id new = pretty stamp ∧
            Note.createdAt new = JsDate.ValidDate now ∧
            Note.updatedAt new = JsDate.ValidDate now) ∧
  (¬ requiredFilled (newNote st) → notes (addNote now stamp st) = notes st).
Proof.
  unfold addNote. split.
  - intros Hreq%requiredFilled_truthy. rewrite Hreq. state_simpl.
    eexists. split; [reflexivity|]. by repeat split.
  - intros Hreq. rewrite <- requiredFilled_truthy in Hreq.
    apply not_true_is_false in Hreq. by rewrite Hreq.
Qed.

Lemma deleteNote_notes id st :
  sublist (notes (deleteNote id st)) (notes st) ∧
  ∀ note, note ∈ notes (deleteNote id st) ↔ note ∈ notes st ∧ Note.id note ≠ id.
Proof.
  unfold deleteNote. state_simpl. split.
  - induction (notes st) as [|n l IH]; [done|]. cbn [List.filter].
    destruct (negb _); [by apply sublist_skip|by apply sublist_cons].
  - intros note.
    by rewrite list_elem_of_In, filter_In, <- list_elem_of_In, negb_true_iff, String.eqb_neq.
Qed.

(** The notes listed after an import were listed or stored before, or are
    notes of the file with their dates revived. *)
Lemma importNotes_notes `{Platform} file st note :
  note ∈ notes (importNotes file st) →
  note ∈ notes st ∨
  (∃ key, notesRecords (db st) !! key = Some note) ∨
  match file with
  | Some (JsonObject (Some importedNotes) _) =>
      ∃ x, x ∈ storablePrefix importedNotes ∧ note = NoteJson.revive x
  | _ => False
  end.
Proof.
  destruct file as [[|[ns|] [cs|]]|]; try (by left).
  rewrite importNotes_arrays. cbv zeta.
  destruct (allStorable ns); [destruct (allStorable cs)|]; state_simpl; try (by left).
  rewrite map_reviveDates. intros Hn. right.
  apply (getAll_stored notesStore _ note) in Hn as [key Hkey].
  rewrite (putAll_other_store categoriesStore (λ c : Category, c) notesStore) in Hkey by done.
  apply (putAll_lookup_Some notesStore NoteJson.revive) in Hkey
    as [(x & Hx & Hr & _)|Hold].
  - right. by exists x.
  - left. by exists key.
Qed.

(** C9, as amended.  When the ids of the notes are pairwise distinct,
    [togglePinNote], [toggleArchiveNote] and [handleTagChange] change,
    position by position, at most the [isPinned] flag, the [isArchived]
    flag or the [tags] of the note with the given id: its other fields, and
    so [createdAt] and [updatedAt], and every other note stay as they are.
    Whatever the ids: [deleteCategory] keeps both dates of every note;
    [updateNote] replaces each note of the id of the note being edited by
    the edited copy with [updatedAt] set to the current time, keeps every
    other note, and does nothing when no note is being edited; [addNote]
    appends one note, with [createdAt] and [updatedAt] set to the current
    time, when the required fields are filled in and leaves the list alone
    otherwise; [deleteNote] keeps the notes of another id, in order and
    unchanged; and every note listed after [importNotes] was listed or
    stored before, or is a note of the file with its dates read from the
    file. *)
Theorem toggles_and_tags_frame `{Platform} (st : State) :
  (NoDup (map Note.id (notes st)) →
     (∀ id, Forall2 (λ old new, (Note.id old ≠ id → new = old) ∧ onlyPinChanged old new)
                    (notes st) (notes (togglePinNote id st))) ∧
     (∀ id, Forall2 (λ old new, (Note.id old ≠ id → new = old) ∧ onlyArchiveChanged old new)
                    (notes st) (notes (toggleArchiveNote id st))) ∧
     (∀ tags noteId,
        Forall2 (λ old new,
                   (Some (Note.id old) ≠ noteId → new = old) ∧ onlyTagsChanged old new)
                (notes st) (notes (handleTagChange tags noteId st))) ∧
     (∀ id tags noteId st',
        st' = togglePinNote id st ∨ st' = toggleArchiveNote id st ∨
        st' = handleTagChange tags noteId st →
        map Note.createdAt (notes st') = map Note.createdAt (notes st) ∧
        map Note.updatedAt (notes st') = map Note.updatedAt (notes st))) ∧
  (∀ categoryName,
     map Note.createdAt (notes (deleteCategory categoryName st))
       = map Note.createdAt (notes st) ∧
     map Note.updatedAt (notes (deleteCategory categoryName st))
       = map Note.updatedAt (notes st)) ∧
  (∀ now,
     match editingNote st with
     | Some editing =>
         Forall2 (λ old new,
                    (Note.id old ≠ Note.id editing → new = old) ∧
                    (Note.id old = Note.id editing →
                     new = Note.with_updatedAt (JsDate.ValidDate now) editing))
                 (notes st) (notes (updateNote now st))
     | None => updateNote now st = st
     end) ∧
  (∀ now stamp,
     (requiredFilled (newNote st) →
        ∃ new, notes (addNote now stamp st) = notes st ++ [new] ∧
               Note.id new = pretty stamp ∧
               Note.createdAt new = JsDate.ValidDate now ∧
               Note.updatedAt new = JsDate.ValidDate now) ∧
     (¬ requiredFilled (newNote st) → notes (addNote now stamp st) = notes st)) ∧
  (∀ id,
     sublist (notes (deleteNote id st)) (notes st) ∧
     ∀ note, note ∈ notes (deleteNote id st) ↔ note ∈ notes st ∧ Note.id note ≠ id) ∧
  (∀ file note,
     note ∈ notes (importNotes file st) →
     note ∈ notes st ∨
     (∃ key, notesRecords (db st) !! key = Some note) ∨
     match file with
     | Some (JsonObject (Some importedNotes) _) =>
         ∃ x, x ∈ storablePrefix importedNotes ∧ note = NoteJson.revive x
     | _ => False
     end).
Proof.
  split; [|split; [|split; [|split; [|split]]]].
  - intros Hnd. split; [|split; [|split]].
    + intros. by apply togglePinNote_frame.
    + intros. by apply toggleArchiveNote_frame.
    + intros. by apply handleTagChange_frame.
    + intros id tags noteId st' [-> | [-> | ->]].
      * pose proof (togglePinNote_frame id st Hnd) as Hf.
        split; eapply Forall2_same_field; try exact Hf;
          intros old new [_ E]; unfold onlyPinChanged in E; by rewrite E.
      * pose proof (toggleArchiveNote_frame id st Hnd) as Hf.
        split; eapply Forall2_same_field; try exact Hf;
          intros old new [_ E]; unfold onlyArchiveChanged in E; by rewrite E.
      * pose proof (handleTagChange_frame tags noteId st Hnd) as Hf.
        split; eapply Forall2_same_field; try exact Hf;
          intros old new [_ E]; unfold onlyTagsChanged in E; by rewrite E.
  - intros categoryName. pose proof (deleteCategory_notes categoryName st) as Hf.
    split; eapply Forall2_same_field; try exact Hf;
      intros old new (_ & _ & E); unfold onlyCategoryChanged in E; by rewrite E.
  - intros now. destruct (editingNote st) as [editing|] eqn:He.
    + by apply updateNote_notes.
    + unfold updateNote. by rewrite He.
  - intros now stamp. apply addNote_notes.
  - intros id. apply deleteNote_notes.
  - intros file note. apply importNotes_notes.
Qed.

(** C9 as stated fails for notes that share an id: archiving the first of
    two notes of id 7 puts its copy over the second, whose title,
    [updatedAt] and tags are lost.  And [updateNote] is not the only
    function to set [updatedAt] to the current time: [addNote] does so on
    the note it adds. *)
Lemma toggleArchiveNote_overwrites_twin :
  notes (stateOf unlikeTwins) !! 1
    = Some (Note.mk "7" "Minutes" "<p>agenda</p>" "Work 💼" "#FF5733"
                    (JsDate.ValidDate 2000) (JsDate.ValidDate 3000) None false true
                    ["office"]) ∧
  notes (toggleArchiveNote "7" (stateOf unlikeTwins)) !! 1
    = Some (Note.mk "7" "Groceries" "<p>milk</p>" "Personal 🏠" "#33FF57"
                    (JsDate.ValidDate 1000) (JsDate.ValidDate 1000) None false true
                    ["home"]) ∧
  map Note.updatedAt (notes (toggleArchiveNote "7" (stateOf unlikeTwins)))
    ≠ map Note.updatedAt (notes (stateOf unlikeTwins)) ∧
  requiredFilled (newNote colourlessState) ∧
  map Note.updatedAt (notes (addNote 5000 6000 colourlessState))
    = map Note.updatedAt (notes colourlessState) ++ [JsDate.ValidDate 5000].
Proof.
  split; [reflexivity|]. split; [reflexivity|]. split; [discriminate|].
  split; [by repeat split|reflexivity].
Qed.

Lemma toggles_and_tags_frame_witness :
  NoDup (map Note.id (notes (stateOf threePinned))) ∧
  Forall2 (λ old new, (Note.id old ≠ "4" → new = old) ∧ onlyPinChanged old new)
          (notes (stateOf threePinned)) (notes (togglePinNote "4" (stateOf threePinned))) ∧
  map Note.updatedAt (notes (toggleArchiveNote "2" (stateOf threePinned)))
    = map Note.updatedAt (notes (stateOf threePinned)).
Proof.
  destruct (@toggles_and_tags_frame referencePlatform (stateOf threePinned)) as [Hframe _].
  destruct (Hframe threePinned_NoDup) as (H1 & _ & _ & H4).
  split; [exact threePinned_NoDup|]. split; [exact (H1 "4")|].
  destruct (H4 "2" [] None (toggleArchiveNote "2" (stateOf threePinned))) as [_ Hdates].
  - right. by left.
  - exact Hdates.
Defined.


(** ** Mounting *)

Lemma initializeData_wellKeyed clock st :
  wellKeyed (db st) → wellKeyed (db (initializeData clock st)).
Proof.
  intros H. unfold initializeData.
  destruct (0 <? length (getAllFromIndexedDB notesStore (db st)))%nat;
  destruct (0 <? length (getAllFromIndexedDB categoriesStore (db st)))%nat;
    rewrite ?foldl_await; state_simpl; try done.
  - by apply (foldl_save_wellKeyed categoriesStore (λ c, c)).
  - by apply (foldl_save_wellKeyed notesStore (λ n, n)).
  - by apply (foldl_save_wellKeyed categoriesStore (λ c, c)),
             (foldl_save_wellKeyed notesStore (λ n, n)).
Qed.

Lemma welcomeNotes_ids clock : NoDup (map Note.id (welcomeNotes clock)).
Proof. apply (bool_decide_unpack _). vm_compute. reflexivity. Qed.

Lemma initialCategories_names : NoDup (map Category.name initialCategories).
Proof. apply (bool_decide_unpack _). vm_compute. reflexivity. Qed.

Lemma initializeData_notes_loaded clock st :
  getAllFromIndexedDB notesStore (db st) ≠ [] →
  notes (initializeData clock st) = getAllFromIndexedDB notesStore (db st) ∧
  notesRecords (db (initializeData clock st)) = notesRecords (db st).
Proof.
  intros Hne.
  assert (Hpos : (0 <? length (getAllFromIndexedDB notesStore (db st)))%nat = true)
    by (destruct (getAllFromIndexedDB notesStore (db st)); [done|reflexivity]).
  unfold initializeData. rewrite Hpos.
  destruct (0 <? length (getAllFromIndexedDB categoriesStore (db st)))%nat;
    rewrite ?foldl_await; state_simpl; rewrite map_reviveDates; [done|].
  split; [done|].
  apply (putAll_other_store categoriesStore (λ c, c) notesStore). done.
Qed.

Lemma initializeData_categories_loaded clock st :
  getAllFromIndexedDB categoriesStore (db st) ≠ [] →
  categories (initializeData clock st) = getAllFromIndexedDB categoriesStore (db st) ∧
  categoriesRecords (db (initializeData clock st)) = categoriesRecords (db st).
Proof.
  intros Hne.
  assert (Hpos : (0 <? length (getAllFromIndexedDB categoriesStore (db st)))%nat = true)
    by (destruct (getAllFromIndexedDB categoriesStore (db st)); [done|reflexivity]).
  unfold initializeData. rewrite Hpos.
  destruct (0 <? length (getAllFromIndexedDB notesStore (db st)))%nat;
    rewrite ?foldl_await; state_simpl; [done|].
  split; [done|].
  apply (putAll_other_store notesStore (λ n, n) categoriesStore). done.
Qed.

Lemma initializeData_first_notes clock st :
  getAllFromIndexedDB notesStore (db st) = [] →
  notes (initializeData clock st) = welcomeNotes clock ∧
  ∀ key n, notesRecords (db (initializeData clock st)) !! key = Some n ↔
           n ∈ welcomeNotes clock ∧ Note.id n = key.
Proof.
  intros E.
  pose proof (getAll_nil_empty notesStore _ E) as Hempty. cbn in Hempty.
  assert (Hw : ∀ d, notesRecords d = ∅ → ∀ key n,
    notesRecords (foldl (λ d x, saveToIndexedDB notesStore x d) d (welcomeNotes clock))
      !! key = Some n ↔ n ∈ welcomeNotes clock ∧ Note.id n = key).
  { intros d Hd key n. split.
    - intros H. apply (putAll_lookup_Some notesStore (λ n, n)) in H
        as [(x & Hx & <- & Hk)|H]; [done|].
      cbn in H. rewrite Hd, lookup_empty in H. done.
    - intros [Hin <-].
      apply (putAll_lookup_NoDup notesStore (λ n, n)); [|done].
      apply welcomeNotes_ids. }
  unfold initializeData. rewrite E.
  change (0 <? length (@nil Note))%nat with false. cbv iota.
  destruct (0 <? length (getAllFromIndexedDB categoriesStore (db st)))%nat;
    rewrite ?foldl_await; state_simpl.
  - split; [done|]. by apply Hw.
  - split; [done|]. intros key n.
    change (notesRecords ?d) with (objectStore notesStore d).
    rewrite (putAll_other_store categoriesStore (λ c, c) notesStore) by done.
    by apply Hw.
Qed.

Lemma initializeData_first_categories clock st :
  getAllFromIndexedDB categoriesStore (db st) = [] →
  categories (initializeData clock st) = categories st ∧
  ∀ key c, categoriesRecords (db (initializeData clock st)) !! key = Some c ↔
           c ∈ initialCategories ∧ Category.name c = key.
Proof.
  intros E.
  pose proof (getAll_nil_empty categoriesStore _ E) as Hempty. cbn in Hempty.
  unfold initializeData. rewrite E.
  change (0 <? length (@nil Category))%nat with false. cbv iota.
  assert (Hc : ∀ d, categoriesRecords d = ∅ → ∀ key c,
    categoriesRecords (foldl (λ d x, saveToIndexedDB categoriesStore x d) d initialCategories)
      !! key = Some c ↔ c ∈ initialCategories ∧ Category.name c = key).
  { intros d Hd key c. split.
    - intros H. apply (putAll_lookup_Some categoriesStore (λ c, c)) in H
        as [(x & Hx & <- & Hk)|H]; [done|].
      cbn in H. rewrite Hd, lookup_empty in H. done.
    - intros [Hin <-].
      apply (putAll_lookup_NoDup categoriesStore (λ c, c)); [|done].
      apply initialCategories_names. }
  destruct (0 <? length (getAllFromIndexedDB notesStore (db st)))%nat;
    rewrite ?foldl_await; state_simpl.
  - split; [done|]. by apply Hc.
  - split; [done|]. apply Hc.
    change (objectStore categoriesStore
      (foldl (λ d x, saveToIndexedDB notesStore x d) (db st) (welcomeNotes clock)) = ∅).
    by rewrite (putAll_other_store notesStore (λ n, n) categoriesStore).
Qed.

(** X5.  On a first run, when the notes store is empty, [initializeData]
    shows the three welcome notes and the store then holds exactly them,
    each under its id; when the categories store is empty it leaves the
    categories shown as they are and the store then holds exactly the
    initial categories, each under its name. *)
Theorem initializeData_first_run (clock : nat → Z) (st : State) :
  let st' := initializeData clock st in
  (getAllFromIndexedDB notesStore (db st) = [] →
     notes st' = welcomeNotes clock ∧
     ∀ key n, notesRecords (db st') !! key = Some n ↔
              n ∈ welcomeNotes clock ∧ Note.id n = key) ∧
  (getAllFromIndexedDB categoriesStore (db st) = [] →
     categories st' = categories st ∧
     ∀ key c, categoriesRecords (db st') !! key = Some c ↔
              c ∈ initialCategories ∧ Category.name c = key).
Proof.
  intros st'. subst st'.
  split; [apply initializeData_first_notes|apply initializeData_first_categories].
Qed.

(** X6.  When a store is not empty, [initializeData] shows what it holds
    and writes nothing to it: no welcome note and no initial category is
    added to a store that has records. *)
Theorem initializeData_loads_what_is_stored (clock : nat → Z) (st : State) :
  let st' := initializeData clock st in
  (getAllFromIndexedDB notesStore (db st) ≠ [] →
     notes st' = getAllFromIndexedDB notesStore (db st) ∧
     notesRecords (db st') = notesRecords (db st)) ∧
  (getAllFromIndexedDB categoriesStore (db st) ≠ [] →
     categories st' = getAllFromIndexedDB categoriesStore (db st) ∧
     categoriesRecords (db st') = categoriesRecords (db st)).
Proof.
  intros st'. subst st'.
  split; [apply initializeData_notes_loaded|apply initializeData_categories_loaded].
Qed.

(** X7.  The welcome notes are created once: mounting again over the
    database a first run left shows the same three notes, with the dates
    of the first run, and writes no note. *)
Theorem welcome_notes_are_created_once (clock clock' : nat → Z) (st : State) :
  getAllFromIndexedDB notesStore (db st) = [] →
  let first := initializeData clock st in
  let again := initializeData clock' (mount (db first)) in
  notes again ≡ₚ welcomeNotes clock ∧
  notesRecords (db again) = notesRecords (db first).
Proof.
  intros E first again.
  destruct (initializeData_first_notes clock st E) as [Hn Hrec]. fold first in Hn, Hrec.
  assert (Hne : getAllFromIndexedDB notesStore (db first) ≠ []).
  { intros Hnil.
    assert (Hin : Note.mk "1" "Welcome to Notelytic 📝"
              "This is your new note-taking dashboard! 🎉" "Personal 🏠" "#33FF57"
              (JsDate.ValidDate (clock 0%nat)) (JsDate.ValidDate (clock 1%nat))
              None false false ["welcome"] ∈ getAllFromIndexedDB notesStore (db first)).
    { apply (getAll_lookup notesStore _ "1"). apply Hrec. split; [|done]. by left. }
    rewrite Hnil in Hin. by apply elem_of_nil in Hin. }
  destruct (initializeData_notes_loaded clock' (mount (db first)) Hne) as [Hn2 Hdb].
  fold again in Hn2, Hdb. split; [|exact Hdb].
  rewrite Hn2. cbn [db mount]. apply NoDup_Permutation.
  - apply getAll_notes_NoDup_of_lookup. intros key n Hl. by apply Hrec in Hl as [_ ?].
  - eapply NoDup_fmap_1, welcomeNotes_ids.
  - intros n. split.
    + intros Hin. apply (getAll_stored notesStore (db first) n) in Hin as [k Hl].
      by apply Hrec in Hl as [? _].
    + intros Hin. apply (getAll_lookup notesStore _ (Note.id n)). by apply Hrec.
Qed.

Lemma welcome_notes_are_created_once_witness :
  getAllFromIndexedDB notesStore (db (mount emptyDB)) = [] ∧
  notes (initializeData (λ k, 2000 + Z.of_nat k)%Z
           (mount (db (initializeData (λ k, 1000 + Z.of_nat k)%Z (mount emptyDB)))))
    ≡ₚ welcomeNotes (λ k, 1000 + Z.of_nat k)%Z.
Proof.
  assert (H : getAllFromIndexedDB notesStore (db (mount emptyDB)) = [])
    by (vm_compute; reflexivity).
  split; [exact H|].
  apply (welcome_notes_are_created_once (λ k, 1000 + Z.of_nat k)%Z
           (λ k, 2000 + Z.of_nat k)%Z (mount emptyDB) H).
Defined.

(** ** Invariants *)

Section Invariants.
Context `{platform : Platform}.

Lemma persisted_replaceById id u (l : list Note) (m : gmap string Note) :
  Note.id u = id →
  (∀ n, n ∈ l → m !! Note.id n = Some n) →
  ∀ n, n ∈ replaceById id u l → <[id := u]> m !! Note.id n = Some n.
Proof.
  intros Hu Hl n Hn. unfold replaceById in Hn.
  apply list_elem_of_fmap in Hn as (o & -> & Ho).
  destruct (decide (Note.id o = id)) as [E|E].
  - rewrite (proj2 (String.eqb_eq _ _) E), Hu. apply lookup_insert_eq.
  - rewrite (proj2 (String.eqb_neq _ _) E), lookup_insert_ne by done. by apply Hl.
Qed.

(** X2.  Once every note shown is the record stored under its id, it stays
    so: after each function except [deleteCategory], whatever is in the
    list is what the store holds for that id ([addNote] with an id not in
    the list; [importNotes], of a file none of whose elements makes [put]
    throw, and [initializeData] over records stored under their keys). *)
Theorem functions_keep_notes_persisted (st : State) :
  persisted st →
  (∀ now stamp, pretty stamp ∉ map Note.id (notes st) → persisted (addNote now stamp st)) ∧
  (∀ now, persisted (updateNote now st)) ∧
  (∀ id, persisted (deleteNote id st)) ∧
  (∀ id, persisted (togglePinNote id st)) ∧
  (∀ id, persisted (toggleArchiveNote id st)) ∧
  persisted (addCategory st) ∧
  (∀ tags noteId, persisted (handleTagChange tags noteId st)) ∧
  (wellKeyed (db st) →
     (∀ file, noPutThrows file → persisted (importNotes file st)) ∧
     (∀ clock, persisted (initializeData clock st))).
Proof.
  intros H. unfold persisted in *. repeat match goal with |- _ ∧ _ => split end.
  - intros now stamp Hfresh. unfold addNote. destruct (_ && _); state_simpl; [|done].
    intros n [Hn|Hn%list_elem_of_singleton]%elem_of_app; rewrite notesRecords_save.
    + rewrite lookup_insert_ne; [by apply H|]. cbn [Note.id].
      intros E. apply Hfresh. rewrite E. by apply list_elem_of_fmap_2.
    + subst n. apply lookup_insert_eq.
  - intros now. unfold updateNote. destruct (editingNote st) as [e|]; state_simpl; [|done].
    rewrite notesRecords_save. by apply persisted_replaceById.
  - intros id. unfold deleteNote. state_simpl. intros n Hn.
    rewrite list_elem_of_In, filter_In, <- list_elem_of_In, negb_true_iff, String.eqb_neq in Hn.
    destruct Hn as [Hn Hid]. rewrite notesRecords_delete, lookup_delete_ne by done. by apply H.
  - intros id. unfold togglePinNote.
    destruct (List.find _ _) as [n|] eqn:Hf; [|done].
    destruct (find_id_Some _ _ _ Hf) as [_ Hid].
    destruct (_ && _); [done|].
    destruct (Note.isPinned _); state_simpl; rewrite notesRecords_save;
      cbn [Note.id Note.with_isPinned]; rewrite Hid; by apply persisted_replaceById.
  - intros id. unfold toggleArchiveNote.
    destruct (List.find _ _) as [n|] eqn:Hf; [|done].
    destruct (find_id_Some _ _ _ Hf) as [_ Hid].
    destruct (Note.isArchived _); state_simpl; rewrite notesRecords_save;
      cbn [Note.id Note.with_isArchived]; rewrite Hid; by apply persisted_replaceById.
  - unfold addCategory. destruct (_ && _); state_simpl; done.
  - intros tags noteId. unfold handleTagChange. destruct noteId as [id|]; [|done].
    destruct (JsString.truthy id); [|done].
    destruct (List.find _ _) as [n|] eqn:Hf; [|done].
    destruct (find_id_Some _ _ _ Hf) as [_ Hid].
    state_simpl. rewrite notesRecords_save. cbn [Note.id Note.with_tags]. rewrite Hid.
    by apply persisted_replaceById.
  - intros Hk0. split.
    + intros file Hfile.
      pose proof (importNotes_wellKeyed file st Hk0) as Hk.
      destruct file as [[|[ns|] [cs|]]|]; try done.
      destruct Hfile as [Hns Hcs]. intros n Hn.
      rewrite (proj1 (importNotes_reloads ns cs st Hns Hcs)) in Hn.
      by apply (getAll_elem notesStore) in Hn.
    + intros clock.
      destruct (decide (getAllFromIndexedDB notesStore (db st) = [])) as [E|E].
      * destruct (initializeData_first_notes clock st E) as [-> Hw].
        intros n Hn. by apply Hw.
      * destruct (initializeData_notes_loaded clock st E) as [-> ->].
        intros n Hn. by apply (getAll_elem notesStore) in Hn.
Qed.

(** ** The list and the store in step *)

Lemma ids_replaceById id u l :
  Note.id u = id → map Note.id (replaceById id u l) = map Note.id l.
Proof.
  intros Hu. unfold replaceById. rewrite <- list_fmap_compose.
  apply list_fmap_ext. intros i m _. cbn.
  destruct (String.eqb_spec (Note.id m) id); congruence.
Qed.

Lemma find_listed id (l : list Note) n :
  List.find (λ note, String.eqb (Note.id note) id) l = Some n → id ∈ map Note.id l.
Proof.
  intros [Hin <-]%find_id_Some. by apply list_elem_of_fmap_2.
Qed.

Lemma NoDup_ids_filter (f : Note → bool) l :
  NoDup (map Note.id l) → NoDup (map Note.id (List.filter f l)).
Proof.
  induction l as [|n l IH]; [done|]. cbn [map List.filter].
  intros [Hn Hl]%NoDup_cons. destruct (f n); [|by apply IH].
  cbn [map]. apply NoDup_cons. split; [|by apply IH].
  intros (m & E & Hm)%list_elem_of_fmap. apply Hn. rewrite E.
  apply list_elem_of_fmap_2. apply list_elem_of_In in Hm. apply filter_In in Hm as [Hm _].
  by apply list_elem_of_In.
Qed.

Lemma inStep_replaceById id u (l : list Note) (m : gmap string Note) :
  Note.id u = id → id ∈ map Note.id l →
  (∀ key n, m !! key = Some n ↔ n ∈ l ∧ Note.id n = key) →
  ∀ key n, <[id := u]> m !! key = Some n ↔ n ∈ replaceById id u l ∧ Note.id n = key.
Proof.
  intros Hu Hid H key n. unfold replaceById. rewrite lookup_insert. case_decide as E.
  - subst key. split.
    + intros [= <-]. split; [|done].
      apply list_elem_of_fmap in Hid as (o & Ho & Hin).
      apply list_elem_of_fmap. exists o. split; [|done].
      by rewrite (proj2 (String.eqb_eq _ _) (eq_sym Ho)).
    + intros [(o & -> & Ho)%list_elem_of_fmap Hk].
      destruct (String.eqb_spec (Note.id o) id) as [E|E]; [done|congruence].
  - rewrite H. split.
    + intros [Hin Hk]. split; [|done].
      apply list_elem_of_fmap. exists n. split; [|done].
      rewrite (proj2 (String.eqb_neq _ _)); [done|congruence].
    + intros [(o & -> & Ho)%list_elem_of_fmap Hk].
      destruct (String.eqb_spec (Note.id o) id) as [E'|E']; [congruence|done].
Qed.

Lemma inStep_saved_copy (st s : State) id u :
  inStep st → Note.id u = id → id ∈ map Note.id (notes st) →
  notes s = replaceById id u (notes st) →
  db s = saveToIndexedDB notesStore u (db st) →
  inStep s.
Proof.
  intros [Hnd H] Hu Hid Hs Hd. unfold inStep. rewrite Hs, Hd. split.
  - by rewrite ids_replaceById.
  - rewrite notesRecords_save, Hu. by apply inStep_replaceById.
Qed.

Lemma inStep_getAll (s : State) :
  keyed notesStore (db s) → notes s = getAllFromIndexedDB notesStore (db s) → inStep s.
Proof.
  intros Hk Hs. unfold inStep. rewrite Hs. split.
  - by apply (getAll_keys_NoDup notesStore).
  - intros key n. split.
    + intros H. split; [exact (getAll_lookup notesStore _ key n H)|by apply Hk].
    + intros [Hn <-]. rewrite getAll_Permutation in Hn.
      by apply (values_elem Note.id _ _ Hk) in Hn.
Qed.

Lemma inStep_persisted st : inStep st → persisted st.
Proof. intros [_ H] n Hn. by apply H. Qed.

Lemma stateOf_inStep l : NoDup (map Note.id l) → inStep (stateOf l).
Proof.
  unfold inStep, stateOf. cbn [notes db]. intros Hnd. split; [done|].
  induction l as [|m l IH]; intros key n; cbn [foldr].
  - cbn. rewrite lookup_empty. split; [done|]. by intros [?%elem_of_nil _].
  - cbn [map] in Hnd. apply NoDup_cons in Hnd as [Hm Hnd].
    rewrite notesRecords_save, lookup_insert, elem_of_cons. case_decide as E.
    + subst key. split; [intros [= <-]; by split; [left|]|].
      intros [[->|Hn] Hk]; [done|]. exfalso. apply Hm. rewrite <- Hk.
      by apply list_elem_of_fmap_2.
    + rewrite (IH Hnd). split; [intros [? ?]; by split; [right|]|].
      intros [[->|Hn] Hk]; done.
Qed.

Lemma toggleArchiveNote_absent id st :
  List.find (λ note, String.eqb (Note.id note) id) (notes st) = None →
  toggleArchiveNote id st = st.
Proof. intros Hf. unfold toggleArchiveNote. by rewrite Hf. Qed.

Lemma toggleArchiveNote_present id st n :
  List.find (λ note, String.eqb (Note.id note) id) (notes st) = Some n →
  let u := Note.with_isArchived (negb (Note.isArchived n)) n in
  notes (toggleArchiveNote id st) = replaceById id u (notes st) ∧
  db (toggleArchiveNote id st) = saveToIndexedDB notesStore u (db st).
Proof.
  intros Hf u. unfold toggleArchiveNote. rewrite Hf. fold u.
  destruct (Note.isArchived u); split; reflexivity.
Qed.

Lemma togglePinNote_absent id st :
  List.find (λ note, String.eqb (Note.id note) id) (notes st) = None →
  togglePinNote id st = st.
Proof. intros Hf. unfold togglePinNote. by rewrite Hf. Qed.

Lemma togglePinNote_present id st n :
  List.find (λ note, String.eqb (Note.id note) id) (notes st) = Some n →
  negb (Note.isPinned n) && (3 <=? pinnedCount (notes st)) = false →
  let u := Note.with_isPinned (negb (Note.isPinned n)) n in
  notes (togglePinNote id st) = replaceById id u (notes st) ∧
  db (togglePinNote id st) = saveToIndexedDB notesStore u (db st).
Proof.
  intros Hf Hgo u. unfold togglePinNote. rewrite Hf. cbv zeta. rewrite Hgo. fold u.
  destruct (Note.isPinned u); split; reflexivity.
Qed.

(** X3.  The list and the store hold the same notes, one per id, and the
    functions keep it so: [addNote] when the new id is not in use,
    [updateNote] when the note being edited is still listed, [deleteNote],
    the two toggles, [handleTagChange], [addCategory] and [exportNotes]
    always; [importNotes], of a file none of whose elements makes [put]
    throw, and [initializeData] over records stored under their keys. *)
Theorem functions_keep_list_and_store_in_step (st : State) :
  inStep st →
  (∀ now stamp, pretty stamp ∉ map Note.id (notes st) → inStep (addNote now stamp st)) ∧
  (∀ now, (∀ editing, editingNote st = Some editing →
                      Note.id editing ∈ map Note.id (notes st)) →
          inStep (updateNote now st)) ∧
  (∀ id, inStep (deleteNote id st)) ∧
  (∀ id, inStep (togglePinNote id st)) ∧
  (∀ id, inStep (toggleArchiveNote id st)) ∧
  inStep (addCategory st) ∧
  (∀ tags noteId, inStep (handleTagChange tags noteId st)) ∧
  inStep (exportNotes st).2 ∧
  (wellKeyed (db st) →
     (∀ file, noPutThrows file → inStep (importNotes file st)) ∧
     (∀ clock, inStep (initializeData clock st))).
Proof.
  intros Hst. pose proof Hst as [Hnd H].
  repeat match goal with |- _ ∧ _ => split end.
  - intros now stamp Hfresh. unfold addNote, inStep. destruct (_ && _); state_simpl; [|done].
    split.
    + rewrite map_app. cbn [map Note.id]. apply NoDup_app. split; [done|].
      split; [|apply NoDup_singleton].
      intros x Hx ->%list_elem_of_singleton. done.
    + intros key n. rewrite notesRecords_save, lookup_insert. cbn [Note.id].
      rewrite elem_of_app, list_elem_of_singleton. case_decide as E.
      * subst key. split; [intros [= <-]; by split; [right|]|].
        intros [[Hn| ->] Hk]; [|done]. exfalso. apply Hfresh. rewrite <- Hk.
        by apply list_elem_of_fmap_2.
      * rewrite H. split; [intros [? ?]; by split; [left|]|].
        intros [[Hn| ->] Hk]; [done|]. cbn in Hk. congruence.
  - intros now Hed. unfold updateNote. destruct (editingNote st) as [e|] eqn:He; [|done].
    apply (inStep_saved_copy st _ (Note.id e)
             (Note.with_updatedAt (JsDate.ValidDate now) e));
      [done|reflexivity|by apply Hed|reflexivity|reflexivity].
  - intros id. unfold deleteNote, inStep. state_simpl. split.
    + by apply NoDup_ids_filter.
    + intros key n. rewrite notesRecords_delete.
      rewrite list_elem_of_In, filter_In, <- list_elem_of_In, negb_true_iff, String.eqb_neq.
      destruct (decide (key = id)) as [->|E].
      * rewrite lookup_delete_eq. split; [done|]. intros [[_ ?] ?]. done.
      * rewrite lookup_delete_ne by done. rewrite H. split.
        -- intros [? ?]. split; [split|]; [done|congruence|done].
        -- intros [[? _] ?]. done.
  - intros id.
    destruct (List.find (λ note, String.eqb (Note.id note) id) (notes st)) as [n|] eqn:Hf.
    2: { by rewrite (togglePinNote_absent id st Hf). }
    destruct (negb (Note.isPinned n) && (3 <=? pinnedCount (notes st))) eqn:Hgo.
    + unfold togglePinNote. rewrite Hf. cbv zeta. rewrite Hgo. done.
    + destruct (togglePinNote_present id st n Hf Hgo) as [Hs Hd].
      eapply (inStep_saved_copy st _ id); [done| |by eapply find_listed|exact Hs|exact Hd].
      by apply find_id_Some in Hf as [_ Hid].
  - intros id.
    destruct (List.find (λ note, String.eqb (Note.id note) id) (notes st)) as [n|] eqn:Hf.
    2: { by rewrite (toggleArchiveNote_absent id st Hf). }
    destruct (toggleArchiveNote_present id st n Hf) as [Hs Hd].
    eapply (inStep_saved_copy st _ id); [done| |by eapply find_listed|exact Hs|exact Hd].
    by apply find_id_Some in Hf as [_ Hid].
  - unfold addCategory. destruct (_ && _); state_simpl; done.
  - intros tags noteId. unfold handleTagChange. destruct noteId as [id|]; [|done].
    destruct (JsString.truthy id); [|done].
    destruct (List.find _ _) as [n|] eqn:Hf; [|done].
    apply (inStep_saved_copy st _ id (Note.with_tags (normalizeTags tags) n));
      [done| |by eapply find_listed|reflexivity|reflexivity].
    by apply find_id_Some in Hf as [_ Hid].
  - done.
  - intros Hk0. split.
    + intros file Hfile.
      pose proof (importNotes_wellKeyed file st Hk0) as [Hk _].
      destruct file as [[|[ns|] [cs|]]|]; try done.
      destruct Hfile as [Hns Hcs].
      apply inStep_getAll; [done|]. by apply importNotes_reloads.
    + intros clock.
      pose proof (initializeData_wellKeyed clock st Hk0) as [Hk _].
      destruct (decide (getAllFromIndexedDB notesStore (db st) = [])) as [E|E].
      * destruct (initializeData_first_notes clock st E) as [Hn Hrec].
        unfold inStep. rewrite Hn.
        split; [apply welcomeNotes_ids|exact Hrec].
      * destruct (initializeData_notes_loaded clock st E) as [Hn Hrec].
        apply inStep_getAll; [done|]. rewrite Hn. unfold getAllFromIndexedDB.
        change (objectStore notesStore ?d) with (notesRecords d). by rewrite Hrec.
Qed.

End Invariants.

Lemma fourPinned_noPutThrows : noPutThrows (Some fourPinned).
Proof. split; reflexivity. Qed.

Lemma functions_keep_list_and_store_in_step_witness :
  inStep (stateOf threePinned) ∧
  inStep (deleteNote "2" (stateOf threePinned)) ∧
  inStep (togglePinNote "1" (stateOf threePinned)) ∧
  inStep (@importNotes referencePlatform (Some fourPinned) (stateOf threePinned)).
Proof.
  assert (H : inStep (stateOf threePinned)) by apply stateOf_inStep, threePinned_NoDup.
  destruct (@functions_keep_list_and_store_in_step referencePlatform (stateOf threePinned) H)
    as (_ & _ & Hdel & Hpin & _ & _ & _ & _ & Himp).
  split; [exact H|]. split; [apply Hdel|]. split; [apply Hpin|].
  destruct (Himp (stateOf_wellKeyed threePinned)) as [Hfile _].
  exact (Hfile (Some fourPinned) fourPinned_noPutThrows).
Defined.

Lemma functions_keep_notes_persisted_witness :
  persisted (stateOf threePinned) ∧
  persisted (toggleArchiveNote "3" (stateOf threePinned)) ∧
  persisted (@importNotes referencePlatform (Some fourPinned) (stateOf threePinned)).
Proof.
  assert (H : persisted (stateOf threePinned))
    by apply inStep_persisted, stateOf_inStep, threePinned_NoDup.
  destruct (@functions_keep_notes_persisted referencePlatform (stateOf threePinned) H)
    as (_ & _ & _ & _ & Harch & _ & _ & Himp).
  split; [exact H|]. split; [apply Harch|].
  destruct (Himp (stateOf_wellKeyed threePinned)) as [Hfile _].
  exact (Hfile (Some fourPinned) fourPinned_noPutThrows).
Defined.

(** ** Reloading the page *)

(** X4.  Reloading shows the same notes: when the list and the store are
    in step and the list is not empty, mounting again over the database
    shows the notes of the list, in the order of the store, and writes no
    note.  When the list is empty (every note was deleted) the three
    welcome notes are shown again. *)
Theorem reload_shows_the_same_notes (clock : nat → Z) (st : State) :
  inStep st →
  let reloaded := initializeData clock (mount (db st)) in
  (notes st ≠ [] → notes reloaded ≡ₚ notes st ∧
                   notesRecords (db reloaded) = notesRecords (db st)) ∧
  (notes st = [] → notes reloaded = welcomeNotes clock).
Proof.
  intros [Hnd H] reloaded. subst reloaded. split.
  - intros Hne.
    assert (Hget : getAllFromIndexedDB notesStore (db st) ≠ []).
    { destruct (notes st) as [|n l] eqn:El; [done|].
      assert (Hn : notesRecords (db st) !! Note.id n = Some n)
        by (apply H; split; [by left|done]).
      apply (getAll_lookup notesStore) in Hn. intros E. rewrite E in Hn.
      by apply elem_of_nil in Hn. }
    destruct (initializeData_notes_loaded clock (mount (db st)) Hget) as [-> ->].
    split; [|done]. apply NoDup_Permutation.
    + apply getAll_notes_NoDup_of_lookup. intros key n Hn. by apply H in Hn as [_ ?].
    + eapply NoDup_fmap_1, Hnd.
    + intros n. split.
      * intros Hn. apply (getAll_stored notesStore _ n) in Hn as [k Hkr].
        by apply H in Hkr as [? _].
      * intros Hn. apply (getAll_lookup notesStore _ (Note.id n)). by apply H.
  - intros Hnil.
    assert (Hget : getAllFromIndexedDB notesStore (db st) = []).
    { destruct (getAllFromIndexedDB notesStore (db st)) as [|n l] eqn:El; [done|].
      assert (Hn : n ∈ getAllFromIndexedDB notesStore (db st)) by (rewrite El; by left).
      apply (getAll_stored notesStore _ n) in Hn as [k Hkr]. apply H in Hkr as [Hin _].
      rewrite Hnil in Hin. by apply elem_of_nil in Hin. }
    by destruct (initializeData_first_notes clock (mount (db st)) Hget) as [-> _].
Qed.

Lemma reload_shows_the_same_notes_witness :
  inStep (stateOf threePinned) ∧
  notes (initializeData (λ k, Z.of_nat k) (mount (db (stateOf threePinned))))
    ≡ₚ threePinned.
Proof.
  assert (H : inStep (stateOf threePinned)) by apply stateOf_inStep, threePinned_NoDup.
  split; [exact H|].
  destruct (reload_shows_the_same_notes (λ k, Z.of_nat k) (stateOf threePinned) H)
    as [Hsame _].
  apply Hsame. discriminate.
Defined.

(** X8.  What [deleteCategory] does to the notes is not stored: it writes
    no note, so after a reload the notes of the deleted category carry
    that category again. *)
Theorem deleteCategory_reassignment_is_not_stored (categoryName : string)
    (clock : nat → Z) (st : State) :
  let st' := deleteCategory categoryName st in
  notesRecords (db st') = notesRecords (db st) ∧
  (getAllFromIndexedDB notesStore (db st) ≠ [] →
     notes (initializeData clock (mount (db st'))) = getAllFromIndexedDB notesStore (db st)).
Proof.
  intros st'. split; [reflexivity|]. intros Hne.
  by destruct (initializeData_notes_loaded clock (mount (db st')) Hne) as [-> _].
Qed.

(** ** Deleting and saving a note *)

Lemma filter_other_ids_absent id (l : list Note) :
  id ∉ map Note.id l →
  List.filter (λ note, negb (String.eqb (Note.id note) id)) l = l.
Proof.
  induction l as [|n l IH]; [done|]. cbn. intros [Hn Hl]%not_elem_of_cons.
  rewrite (proj2 (String.eqb_neq _ _) (not_eq_sym Hn)). cbn. f_equal. by apply IH.
Qed.

(** X9.  [deleteNote] removes from the list exactly the notes of the id,
    keeping the others in order, removes the record of the id from the
    notes store and touches no other record and no category.  It reports
    "Note deleted" whether or not the id was known; with an unknown id the
    list, and with no record of the id the database, are unchanged. *)
Theorem deleteNote_removes_the_id (id : string) (st : State) :
  let st' := deleteNote id st in
  (∀ n, n ∈ notes st' ↔ n ∈ notes st ∧ Note.id n ≠ id) ∧
  sublist (notes st') (notes st) ∧
  notesRecords (db st') !! id = None ∧
  (∀ key, key ≠ id → notesRecords (db st') !! key = notesRecords (db st) !! key) ∧
  categoriesRecords (db st') = categoriesRecords (db st) ∧
  categories st' = categories st ∧
  toasts st' = toasts st ++ [(toast_info, "Note deleted 🗑️")] ∧
  (id ∉ map Note.id (notes st) → notes st' = notes st) ∧
  (notesRecords (db st) !! id = None → db st' = db st).
Proof.
  intros st'. subst st'. unfold deleteNote. state_simpl.
  repeat match goal with |- _ ∧ _ => split end; try reflexivity.
  - intros n.
    rewrite list_elem_of_In, filter_In, <- list_elem_of_In, negb_true_iff, String.eqb_neq.
    reflexivity.
  - induction (notes st) as [|n l IH]; [done|]. cbn [List.filter].
    destruct (negb _); [by apply sublist_skip|by apply sublist_cons].
  - rewrite notesRecords_delete. apply lookup_delete_eq.
  - intros key Hne. rewrite notesRecords_delete. by apply lookup_delete_ne.
  - apply filter_other_ids_absent.
  - intros Hnone. destruct (db st) as [ns cs]. unfold deleteFromIndexedDB. cbn in *.
    f_equal. by apply delete_id.
Qed.

(** X10.  Deleting the note just added undoes [addNote] on the list, and on
    the database when the id was not stored before. *)
Theorem deleteNote_undoes_addNote (now stamp : Z) (st : State) :
  requiredFilled (newNote st) →
  pretty stamp ∉ map Note.id (notes st) →
  let st' := deleteNote (pretty stamp) (addNote now stamp st) in
  notes st' = notes st ∧
  (notesRecords (db st) !! pretty stamp = None → db st' = db st).
Proof.
  intros Hreq Hfresh st'. subst st'. unfold addNote.
  rewrite (proj2 (requiredFilled_truthy _) Hreq). unfold deleteNote. state_simpl. split.
  - rewrite List.filter_app, filter_other_ids_absent by done.
    cbn [List.filter Note.id]. rewrite String.eqb_refl. cbn. apply app_nil_r.
  - intros Hnone. destruct (db st) as [ns cs].
    unfold deleteFromIndexedDB, saveToIndexedDB. cbn in *. f_equal.
    rewrite delete_insert_eq. by apply delete_id.
Qed.

Lemma deleteNote_undoes_addNote_witness :
  requiredFilled (newNote colourlessState) ∧
  notes (deleteNote (pretty 1700000000000%Z) (addNote 1700000000000 1700000000000 colourlessState))
    = notes colourlessState.
Proof.
  assert (H : requiredFilled (newNote colourlessState)) by (repeat split; discriminate).
  split; [exact H|].
  apply (deleteNote_undoes_addNote 1700000000000 1700000000000 colourlessState H).
  intros Hin. cbn in Hin. by apply elem_of_nil in Hin.
Defined.

(** X11.  [updateNote] does nothing when no note is being edited.
    Otherwise it stores the edited copy, stamped with the current time,
    under its id and touches no other record, puts the copy in place of
    every listed note of that id and closes the editor; when no listed
    note has the id the list is unchanged, although the copy is stored. *)
Theorem updateNote_saves_the_edited_copy (now : Z) (st : State) :
  let st' := updateNote now st in
  (editingNote st = None → st' = st) ∧
  (∀ editing, editingNote st = Some editing →
     let updatedNote := Note.with_updatedAt (JsDate.ValidDate now) editing in
     editingNote st' = None ∧
     notes st' = replaceById (Note.id editing) updatedNote (notes st) ∧
     notesRecords (db st') !! Note.id editing = Some updatedNote ∧
     (∀ key, key ≠ Note.id editing →
        notesRecords (db st') !! key = notesRecords (db st) !! key) ∧
     (Note.id editing ∉ map Note.id (notes st) → notes st' = notes st) ∧
     toasts st' = toasts st ++ [(toast_success, "Note updated successfully! 📝")]).
Proof.
  intros st'. subst st'. unfold updateNote. split.
  - intros ->. reflexivity.
  - intros editing ->. state_simpl. cbv zeta.
    repeat match goal with |- _ ∧ _ => split end; try reflexivity.
    + rewrite notesRecords_save. apply lookup_insert_eq.
    + intros key Hne. rewrite notesRecords_save. apply lookup_insert_ne. cbn. done.
    + apply replaceById_absent.
Qed.

(** ** Toggling twice *)

Lemma find_replaceById id u l n :
  List.find (λ note, String.eqb (Note.id note) id) l = Some n →
  Note.id u = id →
  List.find (λ note, String.eqb (Note.id note) id) (replaceById id u l) = Some u.
Proof.
  intros Hf Hu. induction l as [|m l IH]; [done|]. cbn in *.
  destruct (String.eqb (Note.id m) id) eqn:E.
  - rewrite (proj2 (String.eqb_eq _ _) Hu). reflexivity.
  - rewrite E. by apply IH.
Qed.

Lemma replaceById_twice id u v l :
  Note.id u = id → replaceById id v (replaceById id u l) = replaceById id v l.
Proof.
  intros Hu. unfold replaceById. rewrite <- list_fmap_compose.
  apply list_fmap_ext. intros i m _. cbn.
  destruct (String.eqb (Note.id m) id) eqn:E; [|by rewrite E].
  by rewrite (proj2 (String.eqb_eq _ _) Hu).
Qed.

Lemma replaceById_same id n l :
  NoDup (map Note.id l) → n ∈ l → Note.id n = id → replaceById id n l = l.
Proof.
  intros Hnd Hin Hid.
  pose proof (replaceById_Forall2 id n l n Hnd Hin Hid) as H.
  symmetry. apply list_eq_Forall2. eapply Forall2_impl; [exact H|].
  intros old new [H1 H2]. destruct (decide (Note.id old = id)) as [E|E].
  - destruct (H2 E) as [-> ->]. done.
  - by rewrite (H1 E).
Qed.

Lemma with_isPinned_back n :
  Note.with_isPinned (negb (negb (Note.isPinned n)))
    (Note.with_isPinned (negb (Note.isPinned n)) n) = n.
Proof. destruct n as [? ? ? ? ? ? ? ? [] ? ?]; reflexivity. Qed.

Lemma with_isArchived_back n :
  Note.with_isArchived (negb (negb (Note.isArchived n)))
    (Note.with_isArchived (negb (Note.isArchived n)) n) = n.
Proof. destruct n as [? ? ? ? ? ? ? ? ? [] ?]; reflexivity. Qed.

Lemma save_back_persisted (st : State) (u n : Note) :
  persisted st → n ∈ notes st → Note.id u = Note.id n →
  notesRecords (saveToIndexedDB notesStore n (saveToIndexedDB notesStore u (db st)))
  = notesRecords (db st).
Proof.
  intros Hp Hin Hu. rewrite !notesRecords_save, Hu, insert_insert_eq.
  apply insert_id. by apply Hp.
Qed.

(** X12.  Archiving and then unarchiving a note (or the other way round)
    gives back the list, when ids are pairwise distinct, and the notes
    store, when the listed notes were the stored ones. *)
Theorem toggleArchiveNote_twice (id : string) (st : State) :
  NoDup (map Note.id (notes st)) →
  let st' := toggleArchiveNote id (toggleArchiveNote id st) in
  notes st' = notes st ∧
  (persisted st → notesRecords (db st') = notesRecords (db st)).
Proof.
  intros Hnd st'. subst st'.
  destruct (List.find (λ note, String.eqb (Note.id note) id) (notes st)) as [n|] eqn:Hf.
  2: { rewrite !(toggleArchiveNote_absent id st Hf). done. }
  destruct (find_id_Some _ _ _ Hf) as [Hin Hid].
  destruct (toggleArchiveNote_present id st n Hf) as [Hs Hd].
  set (u := Note.with_isArchived (negb (Note.isArchived n)) n) in *.
  assert (Hu : Note.id u = id) by exact Hid.
  assert (Hf' : List.find (λ note, String.eqb (Note.id note) id)
                  (notes (toggleArchiveNote id st)) = Some u).
  { rewrite Hs. by apply (find_replaceById id u _ n). }
  destruct (toggleArchiveNote_present id _ u Hf') as [Hs' Hd'].
  assert (Hback : Note.with_isArchived (negb (Note.isArchived u)) u = n)
    by apply with_isArchived_back.
  rewrite Hback in Hs', Hd'. rewrite Hs', Hd', Hs, Hd. split.
  - rewrite replaceById_twice by done. by apply replaceById_same.
  - intros Hp. apply save_back_persisted; [done|done|congruence].
Qed.

Lemma toggleArchiveNote_twice_witness :
  NoDup (map Note.id (notes (stateOf threePinned))) ∧
  notes (toggleArchiveNote "2" (toggleArchiveNote "2" (stateOf threePinned)))
    = notes (stateOf threePinned).
Proof.
  split; [exact threePinned_NoDup|].
  apply (toggleArchiveNote_twice "2" (stateOf threePinned) threePinned_NoDup).
Defined.

(** X13.  Pinning and then unpinning a note, or unpinning and then pinning
    it, gives back the list and the notes store, when ids are pairwise
    distinct, at most three notes are pinned and the first toggle is not
    refused (the note is pinned, or fewer than three notes are). *)
Theorem togglePinNote_twice (id : string) (st : State) :
  NoDup (map Note.id (notes st)) →
  pinnedCount (notes st) ≤ 3 →
  (∀ n, List.find (λ note, String.eqb (Note.id note) id) (notes st) = Some n →
        Note.isPinned n = false → pinnedCount (notes st) < 3) →
  let st' := togglePinNote id (togglePinNote id st) in
  notes st' = notes st ∧
  (persisted st → notesRecords (db st') = notesRecords (db st)).
Proof.
  intros Hnd Hc Hroom st'. subst st'.
  destruct (List.find (λ note, String.eqb (Note.id note) id) (notes st)) as [n|] eqn:Hf.
  2: { rewrite !(togglePinNote_absent id st Hf). done. }
  destruct (find_id_Some _ _ _ Hf) as [Hin Hid].
  assert (Hgo : negb (Note.isPinned n) && (3 <=? pinnedCount (notes st)) = false).
  { destruct (Note.isPinned n) eqn:Ep; [done|]. cbn [negb andb].
    apply Nat.leb_gt. by apply (Hroom n). }
  destruct (togglePinNote_present id st n Hf Hgo) as [Hs Hd].
  set (u := Note.with_isPinned (negb (Note.isPinned n)) n) in *.
  assert (Hu : Note.id u = id) by exact Hid.
  assert (Hcount : pinnedCount (replaceById id u (notes st))
                   + (if Note.isPinned n then 1 else 0)
                   = pinnedCount (notes st) + (if Note.isPinned u then 1 else 0))
    by (by apply (pinnedCount_replaceById id u _ n)).
  assert (Hf' : List.find (λ note, String.eqb (Note.id note) id)
                  (notes (togglePinNote id st)) = Some u).
  { rewrite Hs. by apply (find_replaceById id u _ n). }
  assert (Hgo' : negb (Note.isPinned u)
                 && (3 <=? pinnedCount (notes (togglePinNote id st))) = false).
  { rewrite Hs. subst u. cbn [Note.isPinned Note.with_isPinned] in *.
    destruct (Note.isPinned n); [|done]. cbn [negb andb] in *.
    apply Nat.leb_gt. lia. }
  destruct (togglePinNote_present id _ u Hf' Hgo') as [Hs' Hd'].
  assert (Hback : Note.with_isPinned (negb (Note.isPinned u)) u = n)
    by apply with_isPinned_back.
  rewrite Hback in Hs', Hd'. rewrite Hs', Hd', Hs, Hd. split.
  - rewrite replaceById_twice by done. by apply replaceById_same.
  - intros Hp. apply save_back_persisted; [done|done|congruence].
Qed.

Lemma find_first_of_threePinned :
  List.find (λ note, String.eqb (Note.id note) "1") (notes (stateOf threePinned))
  = Some (plainNote "1" "first" (JsDate.ValidDate 1000) true).
Proof. vm_compute. reflexivity. Qed.

Lemma togglePinNote_twice_witness :
  pinnedCount (notes (stateOf threePinned)) ≤ 3 ∧
  notes (togglePinNote "1" (togglePinNote "1" (stateOf threePinned)))
    = notes (stateOf threePinned).
Proof.
  assert (H : pinnedCount (notes (stateOf threePinned)) ≤ 3) by (vm_compute; lia).
  split; [exact H|].
  apply (togglePinNote_twice "1" (stateOf threePinned) threePinned_NoDup H).
  intros n Hf Hp. rewrite find_first_of_threePinned in Hf.
  injection Hf as <-. discriminate Hp.
Defined.

(** ** Importing a backup *)

(** X14.  [importNotes] merges by key.  With no file it does nothing.  With
    a file that is a JSON object holding notes and categories, it puts the
    notes one by one, their dates revived, until [put] throws, and if it
    never did the categories likewise: every key among the notes put then
    holds the last record the file gives for it, and every other key holds
    what it held; the same for the categories, none of which is put when a
    note made [put] throw.  When no [put] threw, the list and the
    categories shown are read back from the stores and a success is
    reported; when one threw, the list and the categories shown stay as
    they were, beside a store the elements before the failing one have
    changed, and one error is reported.  With any other file the notes, the
    categories and the database are unchanged and one error is reported. *)
Theorem importNotes_merges_by_key `{Platform} (file : option JsonFile) (st : State) :
  let st' := importNotes file st in
  match file with
  | None => st' = st
  | Some (JsonObject (Some importedNotes) (Some importedCategories)) =>
      (∀ key, notesRecords (db st') !! key
              = match last (List.filter (λ note, bool_decide (NoteJson.id note = key))
                                        (storablePrefix importedNotes)) with
                | Some note => Some (NoteJson.revive note)
                | None => notesRecords (db st) !! key
                end) ∧
      (∀ key, categoriesRecords (db st') !! key
              = match (if allStorable importedNotes
                       then last (List.filter
                                    (λ category, bool_decide (Category.name category = key))
                                    (storablePrefix importedCategories))
                       else None) with
                | Some category => Some category
                | None => categoriesRecords (db st) !! key
                end) ∧
      (if allStorable importedNotes && allStorable importedCategories then
         notes st' = getAllFromIndexedDB notesStore (db st') ∧
         categories st' = getAllFromIndexedDB categoriesStore (db st') ∧
         toasts st' = toasts st
                      ++ [(toast_success, "Notes and categories imported successfully! 📥")]
       else
         notes st' = notes st ∧ categories st' = categories st ∧
         toasts st' = toasts st
                      ++ [(toast_error,
                           "Failed to import data. Please check the file format. 😕")])
  | Some _ =>
      notes st' = notes st ∧ categories st' = categories st ∧ db st' = db st ∧
      toasts st' = toasts st
                   ++ [(toast_error, "Failed to import data. Please check the file format. 😕")]
  end.
Proof.
  intros st'. subst st'. destruct file as [[|[ns|] [cs|]]|]; try done.
  rewrite importNotes_arrays. cbv zeta.
  assert (Hnotes : ∀ d key,
    objectStore notesStore
      (foldl (λ d x, saveToIndexedDB notesStore (NoteJson.revive x) d) d (storablePrefix ns))
      !! key
    = match last (List.filter (λ note, bool_decide (NoteJson.id note = key))
                              (storablePrefix ns)) with
      | Some note => Some (NoteJson.revive note)
      | None => objectStore notesStore d !! key
      end)
    by (intros d key; apply (putAll_lookup_last notesStore NoteJson.revive)).
  destruct (allStorable ns); [destruct (allStorable cs)|]; cbn [andb]; state_simpl;
    rewrite ?map_reviveDates;
    repeat match goal with |- _ ∧ _ => split end; try reflexivity.
  - intros key. change (notesRecords ?d) with (objectStore notesStore d).
    rewrite (putAll_other_store categoriesStore (λ c : Category, c) notesStore) by done.
    apply Hnotes.
  - intros key. change (categoriesRecords ?d) with (objectStore categoriesStore d).
    rewrite (putAll_lookup_last categoriesStore (λ c : Category, c)).
    destruct (last _); [done|].
    by rewrite (putAll_other_store notesStore NoteJson.revive categoriesStore).
  - intros key. change (notesRecords ?d) with (objectStore notesStore d).
    rewrite (putAll_other_store categoriesStore (λ c : Category, c) notesStore) by done.
    apply Hnotes.
  - intros key. change (categoriesRecords ?d) with (objectStore categoriesStore d).
    rewrite (putAll_lookup_last categoriesStore (λ c : Category, c)).
    destruct (last _); [done|].
    by rewrite (putAll_other_store notesStore NoteJson.revive categoriesStore).
  - intros key. apply Hnotes.
  - intros key. change (categoriesRecords ?d) with (objectStore categoriesStore d).
    by rewrite (putAll_other_store notesStore NoteJson.revive categoriesStore).
Qed.

(** X22.  An import that fails midway leaves the list and the store out
    of step: of a file whose second note has no id the first note is put,
    over the stored note of its id, and the third is not; the list still
    shows the notes as they were, so the note shown under id 1 is no longer
    the one stored, and the one toast reports a failure. *)
Theorem importNotes_failing_midway `{Platform} :
  let st := stateOf threePinned in
  let st' := importNotes (Some brokenBackup) st in
  persisted st ∧
  notes st' = notes st ∧
  categories st' = categories st ∧
  notesRecords (db st') !! "1" = Some (NoteJson.revive (pinnedNoteJson "1")) ∧
  notesRecords (db st') !! "9" = None ∧
  (∀ key, key ≠ "1" → notesRecords (db st') !! key = notesRecords (db st) !! key) ∧
  categoriesRecords (db st') = categoriesRecords (db st) ∧
  toasts st' = [(toast_error, "Failed to import data. Please check the file format. 😕")] ∧
  ¬ persisted st'.
Proof.
  intros st st'.
  assert (Hdb : db st' = saveToIndexedDB notesStore (NoteJson.revive (pinnedNoteJson "1"))
                                         (db st)).
  { subst st' st. unfold brokenBackup. by rewrite importNotes_arrays. }
  assert (Hnotes : notes st' = notes st).
  { subst st' st. unfold brokenBackup. by rewrite importNotes_arrays. }
  split; [apply inStep_persisted, stateOf_inStep, threePinned_NoDup|].
  split; [exact Hnotes|].
  split; [subst st' st; unfold brokenBackup; by rewrite importNotes_arrays|].
  rewrite Hdb, notesRecords_save. cbn [Note.id NoteJson.revive NoteJson.id pinnedNoteJson].
  split; [apply lookup_insert_eq|].
  split; [rewrite lookup_insert_ne by done; subst st; vm_compute; reflexivity|].
  split; [intros key Hne; by rewrite lookup_insert_ne|].
  split; [reflexivity|].
  split; [subst st' st; unfold brokenBackup; by rewrite importNotes_arrays|].
  intros Hp. unfold persisted in Hp. rewrite Hnotes, Hdb in Hp.
  specialize (Hp (plainNote "1" "first" (JsDate.ValidDate 1000) true)).
  rewrite notesRecords_save in Hp.
  cbn [Note.id NoteJson.revive NoteJson.id pinnedNoteJson plainNote] in Hp.
  rewrite lookup_insert_eq in Hp.
  assert (Hin : plainNote "1" "first" (JsDate.ValidDate 1000) true ∈ notes st)
    by (subst st; by left).
  specialize (Hp Hin). discriminate Hp.
Qed.

(** ** Categories *)

(** X15.  [addCategory] adds a category if and only if the form has a name
    and a colour: it then appends the category to the list, stores it
    under its name and resets the form; otherwise it reports one error and
    changes nothing else.  In both cases the notes are untouched. *)
Theorem addCategory_adds_iff_filled (st : State) :
  let c := newCategory st in
  let st' := addCategory st in
  notes st' = notes st ∧ notesRecords (db st') = notesRecords (db st) ∧
  (Category.name c ≠ "" ∧ Category.color c ≠ "" →
     categories st' = categories st ++ [c] ∧
     categoriesRecords (db st') = <[Category.name c := c]> (categoriesRecords (db st)) ∧
     newCategory st' = Category.mk "" "#000000" ∧
     toasts st' = toasts st ++ [(toast_success, "Category added successfully! 🎨")]) ∧
  (Category.name c = "" ∨ Category.color c = "" →
     categories st' = categories st ∧ db st' = db st ∧ newCategory st' = c ∧
     toasts st' = toasts st
                  ++ [(toast_error, "Please provide a name and color for the new category 🙏")]).
Proof.
  intros c st'. subst c st'. unfold addCategory.
  destruct (JsString.truthy (Category.name (newCategory st))) eqn:Hn;
    [destruct (JsString.truthy (Category.color (newCategory st))) eqn:Hc|];
    cbn [andb]; state_simpl.
  - apply truthy_true in Hn, Hc.
    repeat match goal with |- _ ∧ _ => split end; try reflexivity.
    + intros _. done.
    + intros [?|?]; done.
  - apply truthy_false in Hc.
    repeat match goal with |- _ ∧ _ => split end; try reflexivity.
    + intros [_ ?]. done.
    + intros _. done.
  - apply truthy_false in Hn.
    repeat match goal with |- _ ∧ _ => split end; try reflexivity.
    + intros [? _]. done.
    + intros _. done.
Qed.

Lemma filter_other_names_absent name (l : list Category) :
  name ∉ map Category.name l →
  List.filter (λ cat, negb (String.eqb (Category.name cat) name)) l = l.
Proof.
  induction l as [|c l IH]; [done|]. cbn. intros [Hn Hl]%not_elem_of_cons.
  rewrite (proj2 (String.eqb_neq _ _) (not_eq_sym Hn)). cbn. f_equal. by apply IH.
Qed.

(** X16.  Deleting the category just added, of a name that was not in use,
    gives back the categories, and the database when no record had the
    name; but it is no undo for the notes: a note that already carried the
    name is moved to "Uncategorized". *)
Theorem deleteCategory_undoes_addCategory (st : State) :
  let c := newCategory st in
  Category.name c ≠ "" → Category.color c ≠ "" →
  Category.name c ∉ map Category.name (categories st) →
  let st' := deleteCategory (Category.name c) (addCategory st) in
  categories st' = categories st ∧
  (categoriesRecords (db st) !! Category.name c = None → db st' = db st) ∧
  (Category.name c ∉ map Note.category (notes st) → notes st' = notes st) ∧
  (∀ note, note ∈ notes st → Note.category note = Category.name c →
           Note.with_category "Uncategorized" note ∈ notes st').
Proof.
  intros c Hn Hc Hfresh st'. subst c st'. unfold addCategory.
  rewrite (proj2 (truthy_true _) Hn), (proj2 (truthy_true _) Hc). cbn [andb].
  unfold deleteCategory. state_simpl.
  repeat match goal with |- _ ∧ _ => split end.
  - rewrite List.filter_app, filter_other_names_absent by done.
    cbn [List.filter]. rewrite String.eqb_refl. cbn. apply app_nil_r.
  - intros Hnone. destruct (db st) as [ns cs].
    unfold deleteFromIndexedDB, saveToIndexedDB. cbn in *. f_equal.
    rewrite delete_insert_eq. by apply delete_id.
  - intros Hno. induction (notes st) as [|n l IH]; [done|].
    cbn in Hno. apply not_elem_of_cons in Hno as [H1 H2]. cbn [map].
    rewrite (proj2 (String.eqb_neq _ _) (not_eq_sym H1)). f_equal. by apply IH.
  - intros note Hin Hcat.
    apply list_elem_of_fmap. exists note. split; [|done].
    by rewrite (proj2 (String.eqb_eq _ _) Hcat).
Qed.

Lemma errandsDraft_name_fresh :
  Category.name (newCategory errandsDraft) ∉ map Category.name (categories errandsDraft).
Proof. apply (bool_decide_unpack _). vm_compute. reflexivity. Qed.

Lemma deleteCategory_undoes_addCategory_witness :
  Category.name (newCategory errandsDraft) ≠ "" ∧
  categories (deleteCategory "Errands" (addCategory errandsDraft)) = categories errandsDraft.
Proof.
  assert (Hn : Category.name (newCategory errandsDraft) ≠ "") by discriminate.
  assert (Hc : Category.color (newCategory errandsDraft) ≠ "") by discriminate.
  split; [exact Hn|].
  apply (deleteCategory_undoes_addCategory errandsDraft Hn Hc errandsDraft_name_fresh).
Defined.

(** ** Tags changed in the edit dialog *)

Lemma save_over_save (u v : Note) (d : IDBDatabase) :
  Note.id u = Note.id v →
  saveToIndexedDB notesStore v (saveToIndexedDB notesStore u d)
  = saveToIndexedDB notesStore v d.
Proof.
  intros E. destruct d as [ns cs]. unfold saveToIndexedDB. cbn. f_equal.
  rewrite E. apply insert_insert_eq.
Qed.

(** X17.  A tag change made in the edit dialog does not survive "Save
    Changes": [handleTagChange] writes the tags to the listed and the
    stored note but not to the copy being edited, and [updateNote] then
    puts that copy, with its old tags, over both.  The list and the
    database end up as if the tags had not been changed. *)
Theorem updateNote_overwrites_dialog_tag_change (tags : list string) (now : Z)
    (st : State) (editing : Note) :
  editingNote st = Some editing →
  let st' := updateNote now (handleTagChange tags (Some (Note.id editing)) st) in
  notes st' = notes (updateNote now st) ∧
  db st' = db (updateNote now st) ∧
  editingNote st' = None ∧
  notesRecords (db st') !! Note.id editing
    = Some (Note.with_updatedAt (JsDate.ValidDate now) editing) ∧
  (∀ note, note ∈ notes st' → Note.id note = Note.id editing →
           Note.tags note = Note.tags editing).
Proof.
  intros He st'.
  assert (Hed : editingNote (handleTagChange tags (Some (Note.id editing)) st) = Some editing).
  { unfold handleTagChange. destruct (JsString.truthy _); [|exact He].
    destruct (List.find _ _); exact He. }
  assert (Hnotes : notes st' = notes (updateNote now st) ∧ db st' = db (updateNote now st)).
  { subst st'. unfold updateNote. rewrite Hed, He. state_simpl.
    unfold handleTagChange. destruct (JsString.truthy _); [|done].
    destruct (List.find _ (notes st)) as [n|] eqn:Hf; [|done].
    destruct (find_id_Some _ _ _ Hf) as [_ Hid]. state_simpl. split.
    - by apply replaceById_twice.
    - by apply save_over_save. }
  destruct Hnotes as [Hn Hd]. rewrite Hn, Hd.
  split; [done|]. split; [done|].
  subst st'. unfold updateNote at 1. rewrite Hed.
  split; [reflexivity|].
  unfold updateNote. rewrite He. state_simpl. split.
  - rewrite notesRecords_save. apply lookup_insert_eq.
  - intros note Hin Hid. unfold replaceById in Hin.
    apply list_elem_of_fmap in Hin as (m & -> & Hm).
    destruct (String.eqb (Note.id m) (Note.id editing)) eqn:E; [done|].
    apply String.eqb_neq in E. done.
Qed.

Lemma updateNote_overwrites_dialog_tag_change_witness :
  editingNote staleEdit = Some (plainNote "4" "fourth" (JsDate.ValidDate 4000) true) ∧
  notes (updateNote 5000 (handleTagChange ["urgent"] (Some "4") staleEdit))
    = notes (updateNote 5000 staleEdit).
Proof.
  assert (H : editingNote staleEdit
              = Some (plainNote "4" "fourth" (JsDate.ValidDate 4000) true))
    by reflexivity.
  split; [exact H|].
  apply (updateNote_overwrites_dialog_tag_change ["urgent"] 5000 staleEdit _ H).
Defined.

(** ** The tags field *)

Lemma String_split_commaFree s : commaFree s = true → String_split "," s = [s].
Proof.
  induction s as [|c s IH]; [done|]. cbn [commaFree String_split].
  intros [Hc Hs]%andb_true_iff. apply negb_true_iff in Hc. rewrite Hc, IH by done.
  reflexivity.
Qed.

Lemma String_split_not_nil sep s : String_split sep s ≠ [].
Proof.
  induction s as [|c s IH]; [done|]. cbn [String_split].
  destruct (Ascii.eqb c sep); [done|]. by destruct (String_split sep s).
Qed.

Lemma String_split_append a b :
  commaFree a = true →
  String_split "," (a +:+ String "," b) = a :: String_split "," b.
Proof.
  induction a as [|c a IH]; [done|]. cbn [commaFree].
  intros [Hc Ha]%andb_true_iff. apply negb_true_iff in Hc.
  rewrite append_String. cbn [String_split]. rewrite Hc, IH by done. reflexivity.
Qed.

Lemma String_split_snoc s :
  String_split "," (s +:+ ",") = String_split "," s ++ [""].
Proof.
  induction s as [|c s IH]; [done|].
  rewrite append_String. cbn [String_split]. rewrite IH.
  destruct (Ascii.eqb c ","); [done|].
  pose proof (String_split_not_nil "," s) as Hne.
  by destruct (String_split "," s).
Qed.

Lemma String_split_snoc_space s :
  ∃ init lst, String_split "," s = init ++ [lst] ∧
              String_split "," (s +:+ " ") = init ++ [lst +:+ " "].
Proof.
  induction s as [|c s (init & lst & E1 & E2)]; [by exists [], ""|].
  rewrite append_String. cbn [String_split]. rewrite E1, E2.
  destruct (Ascii.eqb c ","); [by exists ("" :: init), lst|].
  destruct init as [|piece init]; [by exists [], (String c lst)|].
  by exists (String c piece :: init), lst.
Qed.

Lemma String_split_pieces s : Forall (λ piece, commaFree piece = true) (String_split "," s).
Proof.
  induction s as [|c s IH]; [by repeat constructor|]. cbn [String_split].
  destruct (Ascii.eqb c ",") eqn:Ec; [by constructor|].
  destruct (String_split "," s) as [|piece pieces]; [by repeat constructor; cbn; rewrite Ec|].
  apply Forall_cons in IH as [Hp Hps]. constructor; [|done].
  cbn. by rewrite Ec, Hp.
Qed.

Lemma commaFree_bytes s :
  commaFree s = true ↔ ","%char ∉ list_ascii_of_string s.
Proof.
  induction s as [|c s IH]; cbn [commaFree list_ascii_of_string].
  - split; [intros _; apply not_elem_of_nil|done].
  - rewrite andb_true_iff, negb_true_iff, Ascii.eqb_neq, IH, not_elem_of_cons.
    split; intros [? ?]; split; congruence.
Qed.

Lemma commaFree_trim s : commaFree s = true → commaFree (trim s) = true.
Proof.
  rewrite !commaFree_bytes, bytes_trim. intros Hs Hin. apply Hs.
  destruct (trimStart_drop (list_ascii_of_string s)) as [k Hk].
  destruct (trimEnd_prefix (trimStart (list_ascii_of_string s))) as [t Ht].
  rewrite <- (take_drop k (list_ascii_of_string s)). apply elem_of_app. right.
  rewrite <- Hk, Ht. apply elem_of_app. by left.
Qed.

Lemma normalizeTags_app l1 l2 : normalizeTags (l1 ++ l2) = normalizeTags l1 ++ normalizeTags l2.
Proof. unfold normalizeTags. by rewrite List.filter_app, map_app. Qed.

Lemma normalizeTags_fieldTags tags : Forall fieldTag tags → normalizeTags tags = tags.
Proof.
  induction 1 as [|t tags (Hne & Ht & _) _ IH]; [done|].
  unfold normalizeTags in *. cbn [List.filter]. rewrite Ht.
  rewrite (proj2 (String.eqb_neq _ _) Hne). cbn [negb map]. by rewrite Ht, IH.
Qed.

Lemma normalizeTags_split_fieldTags value :
  Forall fieldTag (normalizeTags (String_split "," value)).
Proof.
  rewrite normalizeTags_trim_then_drop. apply Forall_forall. intros x Hx.
  rewrite list_elem_of_In, filter_In, <- list_elem_of_In, negb_true_iff, String.eqb_neq in Hx.
  destruct Hx as [Hx Hne]. apply list_elem_of_fmap in Hx as (t & -> & Ht).
  split; [done|]. split; [apply trim_idempotent|].
  apply commaFree_trim.
  pose proof (String_split_pieces value) as Hall. rewrite Forall_forall in Hall.
  by apply Hall.
Qed.

Lemma normalizeTags_split_join tags :
  Forall fieldTag tags →
  normalizeTags (String_split "," (tagsFieldValue tags)) = tags.
Proof.
  unfold tagsFieldValue. induction 1 as [|t tags Ht Hts IH]; [done|].
  destruct tags as [|t' tags].
  - cbn [Array_join]. rewrite String_split_commaFree by apply Ht.
    apply normalizeTags_fieldTags. by constructor.
  - change (Array_join ", " (t :: t' :: tags))
      with (t +:+ String "," (String " " (Array_join ", " (t' :: tags)))).
    rewrite String_split_append by apply Ht.
    change (?x :: ?l) with ([x] ++ l) at 1. rewrite normalizeTags_app.
    rewrite (normalizeTags_fieldTags [t]) by by constructor.
    cbn [app]. f_equal.
    rewrite <- IH at 2. clear IH.
    set (rest := Array_join ", " (t' :: tags)).
    cbn [String_split]. change (Ascii.eqb " " ",") with false. cbv iota.
    pose proof (String_split_not_nil "," rest) as Hne.
    destruct (String_split "," rest) as [|piece pieces]; [done|].
    unfold normalizeTags. cbn [List.filter]. rewrite trim_after_space.
    destruct (negb (String.eqb (trim piece) "")); cbn [map]; by rewrite ?trim_after_space.
Qed.

Lemma normalizeTags_split_comma value :
  normalizeTags (String_split "," (value +:+ ","))
  = normalizeTags (String_split "," value).
Proof. rewrite String_split_snoc, normalizeTags_app. apply app_nil_r. Qed.

Lemma normalizeTags_split_space value :
  normalizeTags (String_split "," (value +:+ " "))
  = normalizeTags (String_split "," value).
Proof.
  destruct (String_split_snoc_space value) as (init & lst & -> & ->).
  rewrite !normalizeTags_app. f_equal.
  unfold normalizeTags. cbn [List.filter]. rewrite trim_before_space.
  destruct (negb (String.eqb (trim lst) "")); cbn [map]; by rewrite ?trim_before_space.
Qed.

(** X18.  The tags field shows what it stores.  The tags read from any
    text of the field are non-empty, trimmed and free of commas; and for
    such tags, the text the field shows for them ([join(', ')]) is read
    back ([split(',')], then normalised) as the same tags. *)
Theorem tags_field_round_trip (value : string) (tags : list string) :
  Forall fieldTag (normalizeTags (String_split "," value)) ∧
  (Forall fieldTag tags →
     normalizeTags (String_split "," (tagsFieldValue tags)) = tags ∧
     ∀ noteId st, tagsFieldChange (tagsFieldValue tags) noteId st
                  = handleTagChange tags noteId st).
Proof.
  split; [apply normalizeTags_split_fieldTags|].
  intros Htags. split; [by apply normalizeTags_split_join|].
  intros noteId st. unfold tagsFieldChange, handleTagChange.
  by rewrite normalizeTags_split_join, normalizeTags_fieldTags.
Qed.

(** X19.  A comma or a space typed at the end of the tags field is lost:
    the change handler leaves the state exactly as for the text without
    it, so the field, which shows the stored tags, does not show it. *)
Theorem tags_field_drops_trailing_separator (value : string) (noteId : option string)
    (st : State) :
  tagsFieldChange (value +:+ ",") noteId st = tagsFieldChange value noteId st ∧
  tagsFieldChange (value +:+ " ") noteId st = tagsFieldChange value noteId st.
Proof.
  unfold tagsFieldChange, handleTagChange.
  by rewrite normalizeTags_split_comma, normalizeTags_split_space.
Qed.

(** ** Pictures *)

(** X20.  An uploaded picture is kept in the form, not in the list or the
    database, until the note is saved: [updateNote] then stores the note
    being edited with the picture and shows it on every listed note of the
    id; with no note being edited, [addNote] gives the new note the
    picture. *)
Theorem uploaded_image_is_saved_with_the_note (url : string) (st : State) :
  let st' := handleImageUpload (Some (Some url)) st in
  notes st' = notes st ∧ db st' = db st ∧ categories st' = categories st ∧
  (∀ editing now, editingNote st = Some editing →
     notesRecords (db (updateNote now st')) !! Note.id editing
       = Some (Note.with_updatedAt (JsDate.ValidDate now) (Note_with_image url editing)) ∧
     ∀ note, note ∈ notes (updateNote now st') → Note.id note = Note.id editing →
             Note.image note = Some url) ∧
  (∀ now stamp, editingNote st = None → requiredFilled (newNote st) →
     ∃ note, notes (addNote now stamp st') = notes st ++ [note] ∧
             notesRecords (db (addNote now stamp st')) !! pretty stamp = Some note ∧
             Note.image note = Some url ∧ Note.title note = NewNote.title (newNote st)).
Proof.
  intros st'. subst st'. unfold handleImageUpload.
  repeat match goal with |- _ ∧ _ => split end.
  1-3: destruct (editingNote st); reflexivity.
  - intros editing now He. rewrite He. unfold updateNote. state_simpl. split.
    + rewrite notesRecords_save. apply lookup_insert_eq.
    + intros note Hin Hid. unfold replaceById in Hin.
      apply list_elem_of_fmap in Hin as (m & -> & Hm). cbn [Note.id Note_with_image] in *.
      destruct (String.eqb (Note.id m) (Note.id editing)) eqn:E; [done|].
      apply String.eqb_neq in E. done.
  - intros now stamp He Hreq. rewrite He. unfold addNote. state_simpl.
    unfold NewNote_with_image.
    cbn [NewNote.title NewNote.content NewNote.category NewNote.image NewNote.tags].
    apply requiredFilled_truthy in Hreq. rewrite Hreq.
    eexists. state_simpl. split; [reflexivity|]. split.
    + rewrite notesRecords_save. apply lookup_insert_eq.
    + split; reflexivity.
Qed.

(** ** The two views *)

Section TwoViews.
Context `{platform : Platform}.

Lemma matchesFilter_archived selectedCategory searchTerm showArchived note :
  matchesFilter selectedCategory searchTerm showArchived note
  = matchesFilter selectedCategory searchTerm (Note.isArchived note) note
    && Bool.eqb (Note.isArchived note) showArchived.
Proof.
  unfold matchesFilter. destruct (Note.isArchived note), showArchived; cbn [negb Bool.eqb];
    rewrite ?andb_true_r, ?andb_false_r; reflexivity.
Qed.

(** X21.  The active and the archived view split the notes: no note is in
    both, whatever the two sort orders; together they hold, once each, the
    notes that pass the category and the search filter, and with category
    "All" and an empty search term all the notes. *)
Theorem active_and_archived_views_partition
    (notes : list Note) (selectedCategory searchTerm : string) (sortBy sortBy' : SortBy) :
  let active := filteredNotes notes selectedCategory searchTerm false sortBy in
  let archived := filteredNotes notes selectedCategory searchTerm true sortBy' in
  (∀ note, note ∈ active → note ∉ archived) ∧
  active ++ archived ≡ₚ
    List.filter (λ note, matchesFilter selectedCategory searchTerm (Note.isArchived note) note)
                notes ∧
  (selectedCategory = "All" → searchTerm = "" → active ++ archived ≡ₚ notes).
Proof.
  intros active archived. subst active archived.
  assert (Hperm : ∀ l,
    List.filter (matchesFilter selectedCategory searchTerm false) l
    ++ List.filter (matchesFilter selectedCategory searchTerm true) l
    ≡ₚ List.filter (λ note, matchesFilter selectedCategory searchTerm (Note.isArchived note) note) l).
  { induction l as [|n l IH]; [done|]. cbn [List.filter].
    rewrite (matchesFilter_archived _ _ false n), (matchesFilter_archived _ _ true n).
    destruct (matchesFilter _ _ (Note.isArchived n) n); [|exact IH].
    destruct (Note.isArchived n); cbn [Bool.eqb andb app].
    - rewrite <- Permutation_middle. by constructor.
    - by constructor. }
  split; [|split].
  - intros note. rewrite !filteredNotes_Permutation.
    rewrite !list_elem_of_In, !filter_In.
    rewrite (matchesFilter_archived _ _ false note), (matchesFilter_archived _ _ true note).
    rewrite !andb_true_iff, !Bool.eqb_true_iff.
    intros [_ [_ H1]] [_ [_ H2]]. congruence.
  - rewrite !filteredNotes_Permutation. apply Hperm.
  - intros -> ->. rewrite !filteredNotes_Permutation, Hperm.
    induction notes as [|n l IH]; [done|]. cbn [List.filter].
    unfold matchesFilter at 1. rewrite toLowerCase_empty.
    rewrite includes_empty. cbn [String.eqb orb andb].
    destruct (Note.isArchived n); cbn; by constructor.
Qed.

End TwoViews.
